(** * Mocha Codespace: language registry, highlighter and execution dispatcher

    A shallow embedding of the parts of [src/main.py] that decide the
    specified behaviour:

    - [LANG_CONFIG] and [LANGUAGE_KEYWORDS] (the language tables);
    - [MochaCodespace.open_file] (language inference from the extension);
    - [EditorTab.save] (extension normalisation before writing);
    - [SyntaxHighlighter.setup_rules] and [SyntaxHighlighter.highlightBlock],
      over a backtracking matcher for the fragment of Python's [re] that the
      rule patterns use;
    - [RunnerThread.run];
    - [MochaCodespace.get_run_command] and [MochaCodespace.run_code].

    Conventions.  A Python [str] is a Rocq [string]; the character [c] of the
    model stands for the code point [nat_of_ascii c], so the model covers
    text over the code points 0..255 and the character classes below are
    Python's on that range.  [pathlib.Path] is modelled as [PurePosixPath]
    of CPython 3.11.  Effects (console, child processes, signals, files) are
    explicit: a world record threaded through a small exception monad, with
    the answers of the operating system given by an environment record. *)

From Stdlib Require Import String Ascii List Arith Bool Lia PeanoNat Sorted.
Import ListNotations.
Open Scope list_scope.
Open Scope string_scope.
Open Scope nat_scope.

(* ===================================================================== *)
(** ** Python strings *)
(* ===================================================================== *)

Module Str.

(** Code point of a character. *)
Definition ord (c : ascii) : nat := nat_of_ascii c.

Definition in_range (lo hi n : nat) : bool := (lo <=? n) && (n <=? hi).

(** [str.lower] on one code point below 256: A-Z, and the Latin-1 capitals
    U+00C0..U+00DE except the multiplication sign U+00D7. *)
Definition lower_char (c : ascii) : ascii :=
  let n := ord c in
  if in_range 65 90 n || (in_range 192 222 n && negb (n =? 215))
  then ascii_of_nat (n + 32)
  else c.

(** [s.lower()] *)
Fixpoint lower (s : string) : string :=
  match s with
  | EmptyString => EmptyString
  | String c s' => String (lower_char c) (lower s')
  end.

(** [s.rfind(c)], with [None] for Python's -1. *)
Fixpoint rfind (c : ascii) (s : string) : option nat :=
  match s with
  | EmptyString => None
  | String a s' =>
      match rfind c s' with
      | Some i => Some (S i)
      | None => if Ascii.eqb a c then Some 0 else None
      end
  end.

(** [s[i:]] for [0 <= i]. *)
Fixpoint drop (i : nat) (s : string) : string :=
  match i, s with
  | 0, _ => s
  | S i', EmptyString => EmptyString
  | S i', String _ s' => drop i' s'
  end.

(** [s[:i]] for [0 <= i]. *)
Fixpoint take (i : nat) (s : string) : string :=
  match i, s with
  | 0, _ => EmptyString
  | S i', EmptyString => EmptyString
  | S i', String c s' => String c (take i' s')
  end.

(** [c in s] for a one-character [c]. *)
Fixpoint contains (c : ascii) (s : string) : bool :=
  match s with
  | EmptyString => false
  | String a s' => Ascii.eqb a c || contains c s'
  end.

(** [s.startswith(c)] for a one-character [c]. *)
Definition startswith (c : ascii) (s : string) : bool :=
  match s with
  | String a _ => Ascii.eqb a c
  | EmptyString => false
  end.

(** [s.split(sep)] for a one-character separator. *)
Fixpoint split (sep : ascii) (s : string) : list string :=
  match s with
  | EmptyString => [EmptyString]
  | String a s' =>
      if Ascii.eqb a sep then EmptyString :: split sep s'
      else match split sep s' with
           | [] => [String a EmptyString]
           | w :: ws => String a w :: ws
           end
  end.

(** [s.lstrip(c)] for a one-character [c]. *)
Fixpoint lstrip (c : ascii) (s : string) : string :=
  match s with
  | String a s' => if Ascii.eqb a c then lstrip c s' else s
  | EmptyString => EmptyString
  end.

(** [sep.join(parts)] *)
Fixpoint join (sep : string) (parts : list string) : string :=
  match parts with
  | [] => EmptyString
  | [p] => p
  | p :: rest => p ++ sep ++ join sep rest
  end.

(** The characters of a string, for the matcher. *)
Definition chars (s : string) : list ascii := list_ascii_of_string s.

(** [repr(s)]: the quote is the double one when [s] holds a single
    quote and no double one, else the single one; the quote and the
    backslash get a backslash, tab, newline and carriage return their
    letters, and the other code points that are not printable (the
    controls, U+007F to U+00A0 and the soft hyphen U+00AD) the form
    backslash, x and two hexadecimal digits. *)
Definition hex_digit (n : nat) : ascii :=
  nth n (list_ascii_of_string "0123456789abcdef") "0"%char.

Definition hex_escape (n : nat) : string :=
  String (ascii_of_nat 92)
         (String "x"%char
                 (String (hex_digit (n / 16))
                         (String (hex_digit (n mod 16)) EmptyString))).

Definition printable (n : nat) : bool :=
  in_range 32 126 n || (in_range 161 255 n && negb (n =? 173)).

Definition repr_char (quote c : ascii) : string :=
  let n := ord c in
  if Ascii.eqb c quote || (n =? 92) then String (ascii_of_nat 92) (String c EmptyString)
  else if n =? 9 then String (ascii_of_nat 92) "t"
  else if n =? 10 then String (ascii_of_nat 92) "n"
  else if n =? 13 then String (ascii_of_nat 92) "r"
  else if printable n then String c EmptyString
  else hex_escape n.

Fixpoint escape (quote : ascii) (s : string) : string :=
  match s with
  | EmptyString => EmptyString
  | String c s' => repr_char quote c ++ escape quote s'
  end.

Definition repr (s : string) : string :=
  let quote :=
    if contains "'"%char s && negb (contains (ascii_of_nat 34) s)
    then ascii_of_nat 34 else "'"%char in
  String quote (escape quote s ++ String quote EmptyString).

End Str.

(* ===================================================================== *)
(** ** pathlib.PurePosixPath (CPython 3.11) *)
(* ===================================================================== *)

Module Pathlib.

(** A parsed path: the root (empty, one slash or two slashes) and the
    components after it.  CPython keeps the root as the first element of
    [_parts]; here it is a field of its own. *)
Record Path : Type := mkPath { root : string; parts : list string }.

Definition sep : ascii := "/"%char.

(** [_PosixFlavour.splitroot] *)
Definition splitroot (part : string) : string * string :=
  if Str.startswith sep part then
    let stripped := Str.lstrip sep part in
    if String.length part - String.length stripped =? 2
    then ("//", stripped)
    else ("/", stripped)
  else ("", part).

(** [Path(s)]: [parse_parts] on one argument; empty and dot components
    are dropped. *)
Definition of_string (s : string) : Path :=
  let '(r, rel) := splitroot s in
  mkPath r (filter (fun x => negb (String.eqb x "") && negb (String.eqb x "."))
                   (Str.split sep rel)).

(** [str(p)] *)
Definition to_string (p : Path) : string :=
  let s := root p ++ Str.join "/" (parts p) in
  if String.eqb s "" then "." else s.

(** [p.name] *)
Definition name (p : Path) : string := last (parts p) "".

(** The test [0 < i < len(name) - 1] shared by [suffix] and [stem]. *)
Definition suffix_index (nm : string) : option nat :=
  match Str.rfind "."%char nm with
  | Some i => if (0 <? i) && (i <? String.length nm - 1) then Some i else None
  | None => None
  end.

(** [p.suffix] *)
Definition suffix (p : Path) : string :=
  match suffix_index (name p) with
  | Some i => Str.drop i (name p)
  | None => ""
  end.

(** [p.stem] *)
Definition stem (p : Path) : string :=
  match suffix_index (name p) with
  | Some i => Str.take i (name p)
  | None => name p
  end.

(** [p.with_suffix(suffix)]; [None] stands for [ValueError]. *)
Definition with_suffix (p : Path) (sfx : string) : option Path :=
  if Str.contains sep sfx then None
  else if (negb (String.eqb sfx "") && negb (Str.startswith "."%char sfx))
          || String.eqb sfx "." then None
  else
    let nm := name p in
    if String.eqb nm "" then None
    else
      let old_suffix := suffix p in
      let nm' :=
        if String.eqb old_suffix "" then nm ++ sfx
        else Str.take (String.length nm - String.length old_suffix) nm ++ sfx in
      Some (mkPath (root p) (removelast (parts p) ++ [nm'])%list).

(** [repr(p)] of a [PosixPath]. *)
Definition repr (p : Path) : string :=
  "PosixPath(" ++ Str.repr (to_string p) ++ ")".

(** The text of the [ValueError] that [p.with_suffix(suffix)] raises
    where [with_suffix] is [None]. *)
Definition with_suffix_error (p : Path) (sfx : string) : string :=
  if Str.contains sep sfx
     || (negb (String.eqb sfx "") && negb (Str.startswith "."%char sfx))
     || String.eqb sfx "."
  then "Invalid suffix " ++ Str.repr sfx
  else repr p ++ " has an empty name".

(** [p.parent] *)
Definition parent (p : Path) : Path := mkPath (root p) (removelast (parts p)).

(** [p / s] *)
Definition truediv (p : Path) (s : string) : Path :=
  let q := of_string s in
  if String.eqb (root q) "" then mkPath (root p) (parts p ++ parts q)%list else q.

Definition eqb (p q : Path) : bool :=
  String.eqb (root p) (root q)
  && (if list_eq_dec String.string_dec (parts p) (parts q) then true else false).

End Pathlib.

Import Pathlib.

(* ===================================================================== *)
(** ** The language tables *)
(* ===================================================================== *)

(** The ["runner"] entry is either a callable ([lambda f: [...]]) or a tag
    that [get_run_command] branches on.  The Python lambda reads
    [sys.executable]; the callable of the model takes it as its first
    argument. *)
Inductive runner_t : Type :=
| Callable (f : string -> Path -> list string)
| Tag (t : string).

Record lang_config : Type := mkConfig {
  ext : string;
  sample : string;
  comment : string;
  runner : runner_t
}.

(** A Python dict keeps insertion order, and [open_file] iterates over
    [LANG_CONFIG.items()] in that order: an association list. *)
Definition LANG_CONFIG : list (string * lang_config) :=
  [ ("PTX",        mkConfig ".ptx"  "examples/hello.ptx"  "// " (Tag "ptx"));
    ("Python",     mkConfig ".py"   "examples/hello.py"   "# "
                     (Callable (fun exe f => [exe; to_string f])));
    ("Java",       mkConfig ".java" "examples/Hello.java" "// " (Tag "java"));
    ("C",          mkConfig ".c"    "examples/hello.c"    "// " (Tag "c"));
    ("C++",        mkConfig ".cpp"  "examples/hello.cpp"  "// " (Tag "cpp"));
    ("JavaScript", mkConfig ".js"   "examples/hello.js"   "// "
                     (Callable (fun _ f => ["node"; to_string f])));
    ("TypeScript", mkConfig ".ts"   "examples/hello.ts"   "// " (Tag "typescript"));
    ("Rust",       mkConfig ".rs"   "examples/hello.rs"   "// " (Tag "rust"));
    ("Go",         mkConfig ".go"   "examples/hello.go"   "// "
                     (Callable (fun _ f => ["go"; "run"; to_string f])));
    ("C#",         mkConfig ".cs"   "examples/hello.cs"   "// " (Tag "csharp"));
    ("Ruby",       mkConfig ".rb"   "examples/hello.rb"   "# "
                     (Callable (fun _ f => ["ruby"; to_string f])));
    ("Kotlin",     mkConfig ".kt"   "examples/hello.kt"   "// " (Tag "kotlin"));
    ("HTML",       mkConfig ".html" "examples/index.html" "<!-- " (Tag "browser"));
    ("CSS",        mkConfig ".css"  "examples/styles.css" "/* " (Tag "browser"));
    ("Lua",        mkConfig ".lua"  "examples/hello.lua"  "-- "
                     (Callable (fun _ f => ["lua"; to_string f])));
    ("Nix",        mkConfig ".nix"  "examples/shell.nix"  "# " (Tag "nix")) ].

(** [d.get(key)] on a dict given as an association list. *)
Fixpoint dict_get {A : Type} (d : list (string * A)) (key : string) : option A :=
  match d with
  | [] => None
  | (k, v) :: rest => if String.eqb k key then Some v else dict_get rest key
  end.

(** [list(d.keys())] *)
Definition dict_keys {A : Type} (d : list (string * A)) : list string :=
  map fst d.
Definition LANGUAGE_KEYWORDS : list (string * list string) :=
  [
   ("PTX",
    [
     "AL2P"; "ALD"; "AST"; "B2R"; "BFE"; "BFI"; "BMMA"; "BMOV"; "BMSK";
     "BREV"; "BRK"; "CCTL"; "CCTLL"; "CCTLT"; "CONT"; "CS2R"; "CSET";
     "CSETP"; "DADD"; "DEPBAR"; "DFMA"; "DMMA"; "DMNMX"; "DMUL"; "DSET";
     "DSETP"; "F2F"; "F2FP"; "F2I"; "F2IP"; "FADD"; "FADD32I"; "FCHK";
     "FCMP"; "FFMA"; "FFMA32I"; "FLO"; "FMNMX"; "FMUL"; "FMUL32I"; "FRND";
     "FSEL"; "FSET"; "FSETP"; "FSWZADD"; "GETCRSPTR"; "GETLMEMBASE"; "HADD2";
     "HFMA2"; "HMMA"; "HMNMX2"; "HMUL2"; "HSET2"; "HSETP2"; "I2F"; "I2FP";
     "I2I"; "I2IP"; "IABS"; "IADD"; "IADD3"; "IADD32I"; "ICMP"; "IDE"; "IDP";
     "IMAD"; "IMAD32I"; "IMADSP"; "IMMA"; "IMNMX"; "IMUL"; "IMUL32I"; "IPA";
     "ISBERD"; "ISBEWR"; "ISCADD"; "ISCADD32I"; "ISET"; "ISETP"; "JCAL";
     "LDC"; "LDGDEPBAR"; "LDGSTS"; "LEA"; "LEPC"; "LONGJMP"; "LOP"; "LOP3";
     "LOP32I"; "MATCH"; "MOV"; "MOV32I"; "MOVM"; "MUFU"; "NOP"; "OUT"; "P2R";
     "PCNT"; "PEXIT"; "PIXLD"; "PLONGJMP"; "PLOP3"; "POPC"; "PRMT"; "PSET";
     "PSETP"; "QSPC"; "R2B"; "R2P"; "R2UR"; "RAM"; "REDUX"; "RRO"; "RTT";
     "S2R"; "S2UR"; "SAM"; "SEL"; "SETCRSPTR"; "SETLMEMBASE"; "SGXT"; "SHF";
     "SHFL"; "SHL"; "SHR"; "STP"; "TLD4S"; "TLDS"; "TMML"; "TXA"; "TXD";
     "TXQ"; "UBREV"; "UFLO"; "UIADD3"; "UIMAD"; "UISETP"; "ULDC"; "ULEA";
     "ULOP3"; "UMOV"; "UP2UR"; "UPLOP3"; "UPOPC"; "UPRMT"; "USEL"; "USGXT";
     "USHF"; "VABSDIFF"; "VABSDIFF4"; "VADD"; "VMAD"; "VMNMX"; "VOTE";
     "VOTEU"; "VSET"; "VSETP"; "VSHL"; "VSHR"; "XMAD"
    ]);
   ("Python",
    [
     "and"; "as"; "assert"; "async"; "await"; "break"; "class"; "continue";
     "def"; "del"; "elif"; "else"; "except"; "False"; "finally"; "for";
     "from"; "global"; "if"; "import"; "in"; "is"; "lambda"; "None";
     "nonlocal"; "not"; "or"; "pass"; "raise"; "return"; "True"; "try";
     "while"; "with"; "yield"; "print"; "len"; "range"; "str"; "int";
     "float"; "list"; "dict"; "set"; "tuple"; "open"; "self"; "__init__"
    ]);
   ("Java",
    [
     "abstract"; "assert"; "boolean"; "break"; "byte"; "case"; "catch";
     "char"; "class"; "const"; "continue"; "default"; "do"; "double"; "else";
     "enum"; "extends"; "final"; "finally"; "float"; "for"; "if";
     "implements"; "import"; "instanceof"; "int"; "interface"; "long";
     "native"; "new"; "package"; "private"; "protected"; "public"; "return";
     "short"; "static"; "strictfp"; "super"; "switch"; "synchronized";
     "this"; "throw"; "throws"; "transient"; "try"; "void"; "volatile";
     "while"; "String"; "System"; "out"; "println"; "main"; "args"
    ]);
   ("C",
    [
     "auto"; "break"; "case"; "char"; "const"; "continue"; "default"; "do";
     "double"; "else"; "enum"; "extern"; "float"; "for"; "goto"; "if"; "int";
     "long"; "register"; "return"; "short"; "signed"; "sizeof"; "static";
     "struct"; "switch"; "typedef"; "union"; "unsigned"; "void"; "volatile";
     "while"; "printf"; "scanf"; "malloc"; "free"; "NULL"; "include";
     "define"; "stdio"; "stdlib"; "string"
    ]);
   ("C++",
    [
     "alignas"; "alignof"; "and"; "and_eq"; "asm"; "auto"; "bitand"; "bitor";
     "bool"; "break"; "case"; "catch"; "char"; "class"; "const"; "constexpr";
     "continue"; "decltype"; "default"; "delete"; "do"; "double";
     "dynamic_cast"; "else"; "enum"; "explicit"; "export"; "extern"; "false";
     "float"; "for"; "friend"; "goto"; "if"; "inline"; "int"; "long";
     "mutable"; "namespace"; "new"; "noexcept"; "not"; "nullptr"; "operator";
     "or"; "private"; "protected"; "public"; "return"; "short"; "signed";
     "sizeof"; "static"; "struct"; "switch"; "template"; "this"; "throw";
     "true"; "try"; "typedef"; "typeid"; "typename"; "union"; "unsigned";
     "using"; "virtual"; "void"; "volatile"; "while"; "cout"; "cin"; "endl";
     "string"; "vector"; "iostream"; "std"
    ]);
   ("JavaScript",
    [
     "async"; "await"; "break"; "case"; "catch"; "class"; "const";
     "continue"; "debugger"; "default"; "delete"; "do"; "else"; "export";
     "extends"; "false"; "finally"; "for"; "function"; "if"; "import"; "in";
     "instanceof"; "let"; "new"; "null"; "return"; "super"; "switch"; "this";
     "throw"; "true"; "try"; "typeof"; "var"; "void"; "while"; "with";
     "yield"; "console"; "log"; "document"; "window"; "Array"; "Object";
     "String"; "Number"; "Boolean"; "Math"; "Date"; "JSON"; "Promise";
     "setTimeout"
    ]);
   ("TypeScript",
    [
     "abstract"; "any"; "as"; "async"; "await"; "boolean"; "break"; "case";
     "catch"; "class"; "const"; "continue"; "debugger"; "declare"; "default";
     "delete"; "do"; "else"; "enum"; "export"; "extends"; "false"; "finally";
     "for"; "from"; "function"; "if"; "implements"; "import"; "in";
     "instanceof"; "interface"; "is"; "keyof"; "let"; "module"; "namespace";
     "never"; "new"; "null"; "number"; "of"; "package"; "private";
     "protected"; "public"; "readonly"; "require"; "return"; "static";
     "string"; "super"; "switch"; "symbol"; "this"; "throw"; "true"; "try";
     "type"; "typeof"; "undefined"; "unique"; "unknown"; "var"; "void";
     "while"; "with"; "yield"
    ]);
   ("Rust",
    [
     "as"; "async"; "await"; "break"; "const"; "continue"; "crate"; "dyn";
     "else"; "enum"; "extern"; "false"; "fn"; "for"; "if"; "impl"; "in";
     "let"; "loop"; "match"; "mod"; "move"; "mut"; "pub"; "ref"; "return";
     "self"; "Self"; "static"; "struct"; "super"; "trait"; "true"; "type";
     "unsafe"; "use"; "where"; "while"; "String"; "Vec"; "Option"; "Result";
     "println"; "print"; "format"; "panic"; "unwrap"; "expect"
    ]);
   ("Go",
    [
     "break"; "case"; "chan"; "const"; "continue"; "default"; "defer";
     "else"; "fallthrough"; "for"; "func"; "go"; "goto"; "if"; "import";
     "interface"; "map"; "package"; "range"; "return"; "select"; "struct";
     "switch"; "type"; "var"; "fmt"; "Println"; "Printf"; "Sprintf"; "main";
     "string"; "int"; "bool"; "float64"; "error"; "nil"; "true"; "false";
     "make"; "len"; "append"
    ]);
   ("Ruby",
    [
     "alias"; "and"; "begin"; "break"; "case"; "class"; "def"; "defined";
     "do"; "else"; "elsif"; "end"; "ensure"; "false"; "for"; "if"; "in";
     "module"; "next"; "nil"; "not"; "or"; "redo"; "rescue"; "retry";
     "return"; "self"; "super"; "then"; "true"; "undef"; "unless"; "until";
     "when"; "while"; "yield"; "puts"; "print"; "gets"; "attr_accessor";
     "attr_reader"; "attr_writer"; "initialize"; "new"; "require"
    ]);
   ("HTML",
    [
     "html"; "head"; "title"; "body"; "div"; "span"; "p"; "a"; "img"; "ul";
     "ol"; "li"; "table"; "tr"; "td"; "th"; "form"; "input"; "button";
     "select"; "option"; "textarea"; "label"; "h1"; "h2"; "h3"; "h4"; "h5";
     "h6"; "header"; "footer"; "nav"; "section"; "article"; "aside"; "main";
     "script"; "style"; "link"; "meta"; "br"; "hr"; "strong"; "em"; "code";
     "pre"
    ]);
   ("CSS",
    [
     "color"; "background"; "background-color"; "font-family"; "font-size";
     "font-weight"; "margin"; "padding"; "border"; "width"; "height";
     "display"; "position"; "top"; "left"; "right"; "bottom"; "flex"; "grid";
     "justify-content"; "align-items"; "text-align"; "cursor"; "transition";
     "transform"; "opacity"; "z-index"; "overflow"; "box-shadow"
    ])
  ].

(* ===================================================================== *)
(** ** MochaCodespace.open_file: language inference *)
(* ===================================================================== *)

(** The loop
    [for lang, config in LANG_CONFIG.items():
         if config.get("ext") == ext: language = lang; break]
    started with [language] at its default. *)
Fixpoint detect_loop (items : list (string * lang_config)) (e : string)
         (language : string) : string :=
  match items with
  | [] => language
  | (lang, config) :: rest =>
      if String.eqb (ext config) e then lang else detect_loop rest e language
  end.

(** The reverse lookup on an already lowered extension. *)
Definition language_of_ext (e : string) : string :=
  detect_loop LANG_CONFIG e "Python".

(** [ext = filepath.suffix.lower()], then the loop; the language that
    [open_file] hands to [EditorTab]. *)
Definition detect_language (filepath : Path) : string :=
  language_of_ext (Str.lower (suffix filepath)).

(* ===================================================================== *)
(** ** The fragment of Python's [re] used by the highlighting rules *)
(* ===================================================================== *)

Module Re.

(** [\d] on code points below 256. *)
Definition is_digit (c : ascii) : bool := Str.in_range 48 57 (Str.ord c).

(** [\w] on code points below 256: [str.isalnum] or underscore.  Above
    127 these are the Latin-1 letters and the numeric signs. *)
Definition is_word (c : ascii) : bool :=
  let n := Str.ord c in
  Str.in_range 48 57 n || Str.in_range 65 90 n || Str.in_range 97 122 n
  || (n =? 95)
  || (n =? 170) || (n =? 178) || (n =? 179) || (n =? 181) || (n =? 185)
  || (n =? 186) || Str.in_range 188 190 n || Str.in_range 192 214 n
  || Str.in_range 216 246 n || Str.in_range 248 255 n.

(** Patterns.  A one-character item (a literal, a bracket class, [\d],
    the dot) is [Set_] of its membership test. *)
Inductive regex : Type :=
| Empty
| Set_ (f : ascii -> bool)
| Cat (r1 r2 : regex)
| Star (r : regex)          (* r*   greedy *)
| StarLazy (r : regex)      (* r*?  *)
| Opt (r : regex)           (* r?   greedy *)
| Boundary                  (* \b   *)
| Lookahead (r : regex).    (* (?=r) *)

Definition chr (c : ascii) : regex := Set_ (Ascii.eqb c).
Definition none_of (l : list ascii) : regex :=
  Set_ (fun c => negb (existsb (Ascii.eqb c) l)).
Definition newline : ascii := ascii_of_nat 10.
(** The dot without [re.DOTALL], and with it. *)
Definition dot : regex := none_of [newline].
Definition dot_all : regex := Set_ (fun _ => true).
Definition digit : regex := Set_ is_digit.
Definition plus (r : regex) : regex := Cat r (Star r).

(** A literal string, character by character. *)
Fixpoint lit (s : string) : regex :=
  match s with
  | EmptyString => Empty
  | String c s' => Cat (chr c) (lit s')
  end.

Section Matching.

Variable text : list ascii.

Definition word_at (i : nat) : bool :=
  match nth_error text i with
  | Some c => is_word c
  | None => false
  end.

(** [SRE_AT_BOUNDARY]: [thisp != thatp]. *)
Definition at_boundary (i : nat) : bool :=
  let thatp := match i with 0 => false | S j => word_at j end in
  let thisp := word_at i in
  negb (Bool.eqb thisp thatp).

(** The iterations of a greedy repeat from position [i], where [body]
    matches the repeated pattern once and [k] is the rest of the match:
    one more iteration first, the rest directly after it failed.  An
    iteration that consumed nothing is given up. *)
Fixpoint greedy_loop (body : nat -> (nat -> option nat) -> option nat)
         (k : nat -> option nat) (n : nat) (i : nat) {struct n} : option nat :=
  match n with
  | 0 => k i
  | S n' =>
      match body i (fun j => if i <? j then greedy_loop body k n' j else None) with
      | Some e => Some e
      | None => k i
      end
  end.

(** The iterations of a lazy repeat: the rest first, one more iteration
    after it failed. *)
Fixpoint lazy_loop (body : nat -> (nat -> option nat) -> option nat)
         (k : nat -> option nat) (n : nat) (i : nat) {struct n} : option nat :=
  match n with
  | 0 => k i
  | S n' =>
      match k i with
      | Some e => Some e
      | None => body i (fun j => if i <? j then lazy_loop body k n' j else None)
      end
  end.

(** Backtracking match of [r] at position [i], with the rest of the
    match as the continuation [k]; the result is the end of the first
    match found in backtracking order.  A repeat never needs more than
    [length text] iterations, since each one consumes a character. *)
Fixpoint match_from (r : regex) (i : nat) (k : nat -> option nat) {struct r}
  : option nat :=
  match r with
  | Empty => k i
  | Set_ f =>
      match nth_error text i with
      | Some c => if f c then k (S i) else None
      | None => None
      end
  | Cat r1 r2 => match_from r1 i (fun j => match_from r2 j k)
  | Star r1 => greedy_loop (match_from r1) k (length text) i
  | StarLazy r1 => lazy_loop (match_from r1) k (length text) i
  | Opt r1 =>
      match match_from r1 i k with
      | Some e => Some e
      | None => k i
      end
  | Boundary => if at_boundary i then k i else None
  | Lookahead r1 =>
      match match_from r1 i (fun j => Some j) with
      | Some _ => k i
      | None => None
      end
  end.

(** The top-level success test: with [must_advance], a match that ends
    where the search started is refused. *)
Definition accept (start : nat) (must_advance : bool) (e : nat) : option nat :=
  if must_advance && (e =? start) then None else Some e.

(** [sre_search]: the first position from [pos] on at which the pattern
    matches; [n] further positions remain after [pos].  [must_advance]
    holds for the first attempt only. *)
Fixpoint search_from (r : regex) (n : nat) (pos : nat) (must_advance : bool)
  : option (nat * nat) :=
  match match_from r pos (accept pos must_advance) with
  | Some e => Some (pos, e)
  | None =>
      match n with
      | 0 => None
      | S n' => search_from r n' (S pos) false
      end
  end.

Definition search (r : regex) (pos : nat) (must_advance : bool)
  : option (nat * nat) :=
  if length text <? pos then None
  else search_from r (length text - pos) pos must_advance.

(** The scanner behind [pattern.finditer(text)]: after a match the next
    search starts at its end, and must advance if the match was empty. *)
Fixpoint finditer_from (r : regex) (fuel : nat) (pos : nat) (must_advance : bool)
  : list (nat * nat) :=
  match fuel with
  | 0 => []
  | S fuel' =>
      match search r pos must_advance with
      | Some (s, e) => (s, e) :: finditer_from r fuel' e (e =? s)
      | None => []
      end
  end.

(** The number of searches a scan from [pos] can need: two per
    remaining position (an empty and a non-empty match) and the last,
    failing one. *)
Definition scan_bound (pos : nat) (must_advance : bool) : nat :=
  2 * (length text - pos) + (if must_advance then 1 else 2).

(** [[(m.start(), m.end()) for m in pattern.finditer(text)]] *)
Definition finditer (r : regex) : list (nat * nat) :=
  finditer_from r (scan_bound 0 false) 0 false.

End Matching.

End Re.

Import Re.

(* ===================================================================== *)
(** ** SyntaxHighlighter *)
(* ===================================================================== *)

(** The three properties of [QTextCharFormat] that [setup_rules] sets. *)
Record QTextCharFormat : Type := mkFormat {
  foreground : string;
  fontBold : bool;
  fontItalic : bool
}.

Definition keyword_format : QTextCharFormat := mkFormat "#8b4513" true false.
Definition string_format : QTextCharFormat := mkFormat "#6b8e23" false false.
Definition comment_format : QTextCharFormat := mkFormat "#a0826d" false true.
Definition number_format : QTextCharFormat := mkFormat "#cd853f" false false.
Definition function_format : QTextCharFormat := mkFormat "#704241" false true.

Definition format_eqb (a b : QTextCharFormat) : bool :=
  String.eqb (foreground a) (foreground b)
  && Bool.eqb (fontBold a) (fontBold b)
  && Bool.eqb (fontItalic a) (fontItalic b).

Definition rule : Type := regex * QTextCharFormat.

Definition dquote : ascii := ascii_of_nat 34.
Definition squote : ascii := ascii_of_nat 39.
Definition backslash : ascii := ascii_of_nat 92.

(** The pattern built for one keyword: a word boundary, the word, a word
    boundary.  No keyword of [LANGUAGE_KEYWORDS] contains a character that
    is special in a pattern (see [keywords_are_literal]). *)
Definition keyword_pattern (word : string) : regex :=
  Cat Boundary (Cat (lit word) Boundary).

(** The quoted-string pattern for the quote character [q]: the quote; any
    number of characters other than the quote and the backslash; any number
    of groups made of a backslash, one character (no newline) and again
    characters other than the quote and the backslash; the quote. *)
Definition quoted_pattern (q : ascii) : regex :=
  Cat (chr q)
      (Cat (Star (none_of [q; backslash]))
           (Cat (Star (Cat (chr backslash) (Cat dot (Star (none_of [q; backslash])))))
                (chr q))).

(** [\b\d+\.?\d*\b] *)
Definition number_pattern : regex :=
  Cat Boundary (Cat (plus digit) (Cat (Opt (chr "."%char)) (Cat (Star digit) Boundary))).

(** [[A-Za-z_]] and [[A-Za-z0-9_]] *)
Definition is_ident_start (c : ascii) : bool :=
  let n := Str.ord c in
  Str.in_range 65 90 n || Str.in_range 97 122 n || (n =? 95).
Definition is_ident_char (c : ascii) : bool :=
  let n := Str.ord c in
  Str.in_range 65 90 n || Str.in_range 97 122 n || Str.in_range 48 57 n || (n =? 95).

(** [\b[A-Za-z_][A-Za-z0-9_]*(?=\()] *)
Definition function_pattern : regex :=
  Cat Boundary
      (Cat (Set_ is_ident_start)
           (Cat (Star (Set_ is_ident_char)) (Lookahead (chr "("%char)))).

(** [#[^\n]*], [--[^\n]*], [//[^\n]*], [/\*.*?\*/] and [<!--.*?-->] (the
    last two with [re.DOTALL]). *)
Definition hash_comment : regex := Cat (chr "#"%char) (Star (none_of [newline])).
Definition dash_comment : regex := Cat (lit "--") (Star (none_of [newline])).
Definition slash_comment : regex := Cat (lit "//") (Star (none_of [newline])).
Definition block_comment : regex := Cat (lit "/*") (Cat (StarLazy dot_all) (lit "*/")).
Definition html_comment : regex := Cat (lit "<!--") (Cat (StarLazy dot_all) (lit "-->")).

(** [x in [...]] for strings. *)
Definition mem (x : string) (l : list string) : bool := existsb (String.eqb x) l.

(** The language-specific tail of [setup_rules]. *)
Definition comment_rules (language : string) : list rule :=
  if mem language ["Python"; "Ruby"; "Nix"] then
    [(hash_comment, comment_format)]
  else if String.eqb language "Lua" then
    [(dash_comment, comment_format)]
  else if mem language ["C"; "C++"; "Java"; "JavaScript"; "TypeScript"; "Rust";
                        "Go"; "C#"; "Kotlin"] then
    [(slash_comment, comment_format); (block_comment, comment_format)]
  else if String.eqb language "HTML" then
    [(html_comment, comment_format)]
  else if String.eqb language "CSS" then
    [(block_comment, comment_format)]
  else [].

(** [LANGUAGE_KEYWORDS.get(self.language, [])] *)
Definition keywords_of (language : string) : list string :=
  match dict_get LANGUAGE_KEYWORDS language with
  | Some ws => ws
  | None => []
  end.

(** [SyntaxHighlighter.setup_rules]: the value of [self.rules]. *)
Definition setup_rules (language : string) : list rule :=
  (map (fun word => (keyword_pattern word, keyword_format)) (keywords_of language)
   ++ [ (quoted_pattern dquote, string_format);
        (quoted_pattern squote, string_format);
        (number_pattern, number_format);
        (function_pattern, function_format) ]
   ++ comment_rules language)%list.

(** The format buffer of the current block, one entry per character;
    [None] is the block's untouched default format. *)
Definition format_buffer : Type := list (option QTextCharFormat).

(** [formatChanges[i] = format], in range. *)
Fixpoint set_at (i : nat) (fmt : QTextCharFormat) (buf : format_buffer)
  : format_buffer :=
  match buf, i with
  | [], _ => []
  | _ :: rest, 0 => Some fmt :: rest
  | x :: rest, S i' => x :: set_at i' fmt rest
  end.

(** [for (i = start; i < end; ++i) formatChanges[i] = format]. *)
Fixpoint set_range (i n : nat) (fmt : QTextCharFormat) (buf : format_buffer)
  : format_buffer :=
  match n with
  | 0 => buf
  | S n' => set_range (S i) n' fmt (set_at i fmt buf)
  end.

(** [QSyntaxHighlighter::setFormat(start, count, format)]: nothing when
    [start] is outside the block, else the range clipped to the block. *)
Definition setFormat (start count : nat) (fmt : QTextCharFormat)
           (buf : format_buffer) : format_buffer :=
  if length buf <=? start then buf
  else set_range start (Nat.min (start + count) (length buf) - start) fmt buf.

(** A token span: [(start, length, format)], one per [setFormat] call. *)
Definition span : Type := nat * nat * QTextCharFormat.

(** The inner loop of [highlightBlock] for one rule. *)
Definition apply_rule (text : string) (r : rule) (buf : format_buffer)
  : format_buffer :=
  fold_left (fun b (m : nat * nat) => setFormat (fst m) (snd m - fst m) (snd r) b)
            (finditer (Str.chars text) (fst r)) buf.

(** [SyntaxHighlighter.highlightBlock] with [self.rules = rules]: the
    format buffer after all [setFormat] calls. *)
Definition highlightBlock (rules : list rule) (text : string) : format_buffer :=
  fold_left (fun b r => apply_rule text r b) rules
            (repeat None (String.length text)).

(** The sequence of [setFormat] calls that [highlightBlock] makes. *)
Definition rule_spans (text : string) (r : rule) : list span :=
  map (fun m : nat * nat => (fst m, snd m - fst m, snd r))
      (finditer (Str.chars text) (fst r)).

Definition token_spans (rules : list rule) (text : string) : list span :=
  flat_map (rule_spans text) rules.

(** The format shown at offset [p]. *)
Definition format_at (buf : format_buffer) (p : nat) : option QTextCharFormat :=
  nth p buf None.

(** [highlighter.highlightBlock(text)] for a highlighter of [language]. *)
Definition highlight (language text : string) : format_buffer :=
  highlightBlock (setup_rules language) text.

Definition classify (language text : string) : list span :=
  token_spans (setup_rules language) text.

(* ===================================================================== *)
(** ** Effects: exceptions, the operating system, the world *)
(* ===================================================================== *)

Definition nl : string := String newline EmptyString.

(** The exceptions that the modelled code raises or handles; [msg] is
    [str(e)]. *)
Inductive exn : Type :=
| FileNotFoundError (msg : string)
| PermissionError (msg : string)
| OtherException (msg : string)
| CalledProcessError (returncode : nat) (stderr : string)
| TimeoutExpired
| ValueError (msg : string).

(** Why the operating system can refuse to start a program. *)
Inductive os_error : Type :=
| NotFound (msg : string)
| PermissionDenied (msg : string)
| OtherOSError (msg : string).

Definition exn_of_os_error (e : os_error) : exn :=
  match e with
  | NotFound msg => FileNotFoundError msg
  | PermissionDenied msg => PermissionError msg
  | OtherOSError msg => OtherException msg
  end.

(** What a program does once started by [subprocess.run]. *)
Inductive run_outcome : Type :=
| LaunchError (e : os_error)
| Exited (returncode : nat) (stdout stderr : string).

(** What a child started by [Popen] does: when it exits (in seconds after
    the spawn; [None] if it never does), what it writes, and whether
    reading its output fails (undecodable text). *)
Record child_behaviour : Type := mkChild {
  exits_after : option nat;
  stdout_text : string;
  stderr_text : string;
  read_error : option string
}.

(** The answers of the environment. *)
Record os_env : Type := mkOs {
  sys_executable : string;
  os_run : list string -> string -> run_outcome;      (* subprocess.run(cmd, cwd=...) *)
  os_spawn : list string -> string -> option os_error; (* Popen(cmd, cwd=...) *)
  os_child : list string -> child_behaviour;
  os_exists : Path -> bool;                            (* Path.exists() *)
  os_write : Path -> option string                     (* open(p, 'w') fails with str(e) *)
}.

Inductive proc_state : Type := NoChild | Running | Terminated | Killed.

Inductive event : Type :=
| ConsoleClear
| ConsoleAppend (s : string)
| StatusMessage (s : string)
| MessageBoxCritical (title text : string)
| BrowserOpen (p : Path)
| SubprocessRun (cmd : list string) (cwd : string)
| FileWrite (p : Path) (content : string)
| ThreadStart (command : list string) (cwd : string)
| ProcessSpawn (command : list string) (cwd : string)
| SignalOutput (s : string)
| SignalFinished.

(** The observable world: what happened so far, oldest first; the child
    process of the running [RunnerThread]; [self.filepath] of the editor
    tab at hand. *)
Record world : Type := mkWorld {
  trace : list event;
  child : proc_state;
  tab_filepath : option Path
}.

Definition initial_world : world := mkWorld [] NoChild None.

Inductive result (A : Type) : Type :=
| Ok (a : A)
| Raise (e : exn).
Arguments Ok {A} a.
Arguments Raise {A} e.

(** Computations that change the world and may raise. *)
Definition M (A : Type) : Type := world -> result A * world.

Definition ret {A : Type} (a : A) : M A := fun w => (Ok a, w).

Definition bind {A B : Type} (c : M A) (f : A -> M B) : M B :=
  fun w => match c w with
           | (Ok a, w') => f a w'
           | (Raise e, w') => (Raise e, w')
           end.

Definition raise {A : Type} (e : exn) : M A := fun w => (Raise e, w).

(** [try: c  except ...: h e]; the handler answers [None] for an exception
    that no [except] clause names, which then propagates. *)
Definition try_except {A : Type} (c : M A) (h : exn -> option (M A)) : M A :=
  fun w => match c w with
           | (Ok a, w') => (Ok a, w')
           | (Raise e, w') =>
               match h e with
               | Some handler => handler w'
               | None => (Raise e, w')
               end
           end.

(** [try: c  finally: f] *)
Definition try_finally {A : Type} (c : M A) (f : M unit) : M A :=
  fun w => match c w with
           | (r, w') =>
               match f w' with
               | (Ok _, w'') => (r, w'')
               | (Raise e, w'') => (Raise e, w'')
               end
           end.

Declare Scope monad_scope.
Delimit Scope monad_scope with monad.
Notation "x <- c ;; k" := (bind c (fun x => k))
  (at level 61, c at next level, right associativity) : monad_scope.
Notation "c ;;; k" := (bind c (fun _ => k))
  (at level 61, right associativity) : monad_scope.
Open Scope monad_scope.

Definition log (ev : event) : M unit :=
  fun w => (Ok tt, mkWorld (trace w ++ [ev])%list (child w) (tab_filepath w)).

Definition set_child (st : proc_state) : M unit :=
  fun w => (Ok tt, mkWorld (trace w) st (tab_filepath w)).

Definition set_filepath (p : option Path) : M unit :=
  fun w => (Ok tt, mkWorld (trace w) (child w) p).

Definition get_filepath : M (option Path) :=
  fun w => (Ok (tab_filepath w), w).

(** Python truthiness of a [str]. *)
Definition truthy (s : string) : bool := negb (String.eqb s "").

Definition when (b : bool) (c : M unit) : M unit := if b then c else ret tt.

(* ===================================================================== *)
(** ** RunnerThread *)
(* ===================================================================== *)

Section Runner.

Variable os : os_env.

(** [subprocess.Popen(command, cwd=cwd, stdout=PIPE, stderr=PIPE, text=True)] *)
Definition Popen (command : list string) (cwd : string) : M unit :=
  match os_spawn os command cwd with
  | Some e => raise (exn_of_os_error e)
  | None => log (ProcessSpawn command cwd) ;;; set_child Running
  end.

(** [process.communicate(timeout=t)]: the captured output if the child
    exits before the deadline; [TimeoutExpired] otherwise, and then the
    child is left running (the library does not kill it). *)
Definition communicate (command : list string) (timeout : nat)
  : M (string * string) :=
  let b := os_child os command in
  match exits_after b with
  | Some d =>
      if d <? timeout then
        set_child Terminated ;;;
        match read_error b with
        | Some msg => raise (OtherException msg)
        | None => ret (stdout_text b, stderr_text b)
        end
      else raise TimeoutExpired
  | None => raise TimeoutExpired
  end.

(** [str(e)] *)
Definition exn_str (e : exn) : string :=
  match e with
  | FileNotFoundError msg => msg
  | PermissionError msg => msg
  | OtherException msg => msg
  | CalledProcessError rc _ => "Command returned non-zero exit status"
  | TimeoutExpired => "Command timed out"
  | ValueError msg => msg
  end.

Definition timeout_message : string :=
  nl ++ "[Execution timeout after 60 seconds]" ++ nl.

Definition error_message (e : exn) : string :=
  nl ++ "[Error: " ++ exn_str e ++ "]" ++ nl.

(** [RunnerThread.run] for [self.command = command], [self.cwd = cwd]. *)
Definition run (command : list string) (cwd : string) : M unit :=
  try_finally
    (try_except
       (Popen command cwd ;;;
        out <- communicate command 60 ;;
        when (truthy (fst out)) (log (SignalOutput (fst out))) ;;;
        when (truthy (snd out)) (log (SignalOutput (snd out))))
       (fun e =>
          match e with
          | TimeoutExpired => Some (log (SignalOutput timeout_message))
          | _ => Some (log (SignalOutput (error_message e)))
          end))
    (log SignalFinished).

End Runner.

(* ===================================================================== *)
(** ** EditorTab.save *)
(* ===================================================================== *)

(** [config = LANG_CONFIG.get(language, {}); ext = config.get("ext", "")] *)
Definition config_ext (language : string) : string :=
  match dict_get LANG_CONFIG language with
  | Some config => ext config
  | None => ""
  end.

Section EditorTab.

Variable os : os_env.

(** [EditorTab.save(filepath)] for a tab of [language] whose editor holds
    [content]; [self.filepath] is [tab_filepath] of the world.  The
    result is the returned boolean; [with_suffix] raising [ValueError] is
    outside the [try]. *)
Definition save (language content : string) (filepath : option string) : M bool :=
  (match filepath with
   | Some f => when (truthy f) (set_filepath (Some (of_string f)))
   | None => ret tt
   end) ;;;
  cur <- get_filepath ;;
  match cur with
  | None => ret false
  | Some p =>
      let e := config_ext language in
      (if truthy e && negb (String.eqb (suffix p) e) then
         match with_suffix p e with
         | Some p' => set_filepath (Some p')
         | None => raise (ValueError (with_suffix_error p e))
         end
       else ret tt) ;;;
      target <- get_filepath ;;
      match target with
      | None => ret false
      | Some q =>
          try_except
            (match os_write os q with
             | Some msg => raise (OtherException msg)
             | None => log (FileWrite q content) ;;; ret true
             end)
            (fun exc =>
               Some (log (MessageBoxCritical "Save Error"
                            ("Failed to save file:" ++ nl ++ exn_str exc)) ;;;
                     ret false))
      end
  end.

End EditorTab.

(* ===================================================================== *)
(** ** MochaCodespace.get_run_command and run_code *)
(* ===================================================================== *)

Section MainWindow.

Variable os : os_env.

(** [subprocess.run(cmd, check=check, cwd=cwd, capture_output=True)]; the
    result is the completed process's [stderr]. *)
Definition subprocess_run (cmd : list string) (check : bool) (cwd : string)
  : M string :=
  log (SubprocessRun cmd cwd) ;;;
  match os_run os cmd cwd with
  | LaunchError e => raise (exn_of_os_error e)
  | Exited rc out err =>
      if check && negb (rc =? 0) then raise (CalledProcessError rc err)
      else ret err
  end.

Definition compilation_failed (stderr : string) : string :=
  "Compilation failed:" ++ nl ++ stderr ++ nl.

(** The compile step that the branches of [get_run_command] share:
    [try: result = subprocess.run(compile_cmd, check=True, ...);
          if result.stderr: self.console.append(result.stderr)
     except CalledProcessError as e: append "Compilation failed..."; return None
     except FileNotFoundError: append [missing]; return None]
    followed by the rest of the branch, [k]. *)
Definition compile_then (compile_cmd : list string) (filepath : Path)
           (missing : string) (k : M (option (list string)))
  : M (option (list string)) :=
  compiled <-
    try_except
      (stderr <- subprocess_run compile_cmd true (to_string (parent filepath)) ;;
       when (truthy stderr) (log (ConsoleAppend stderr)) ;;;
       ret true)
      (fun e =>
         match e with
         | CalledProcessError _ stderr =>
             Some (log (ConsoleAppend (compilation_failed stderr)) ;;; ret false)
         | FileNotFoundError _ =>
             Some (log (ConsoleAppend missing) ;;; ret false)
         | _ => None
         end) ;;
  if compiled then k else ret None.

(** [try: subprocess.run(probe, check=True, capture_output=True)
     except (CalledProcessError, FileNotFoundError): ...]: does the probe
    succeed? *)
Definition probe (cmd : list string) : M bool :=
  try_except
    (subprocess_run cmd true "" ;;; ret true)
    (fun e =>
       match e with
       | CalledProcessError _ _ => Some (ret false)
       | FileNotFoundError _ => Some (ret false)
       | _ => None
       end).

Definition java_missing : string := "Java compiler (javac) not found in PATH" ++ nl.
Definition c_missing : string := "C compiler (gcc) not found in PATH" ++ nl.
Definition cpp_missing : string := "C++ compiler (g++) not found in PATH" ++ nl.
Definition rust_missing : string := "Rust compiler (rustc) not found in PATH" ++ nl.
Definition ts_missing : string := "TypeScript compiler (tsc) not found in PATH" ++ nl.
Definition kotlin_missing : string := "Kotlin compiler (kotlinc) not found in PATH" ++ nl.

(** [filepath.with_suffix(s)] where the source lets [ValueError] escape. *)
Definition with_suffix_or_raise (filepath : Path) (s : string) : M Path :=
  match with_suffix filepath s with
  | Some p => ret p
  | None => raise (ValueError (with_suffix_error filepath s))
  end.

(** [MochaCodespace.get_run_command(filepath, language, runner)];
    [runner] is [None] when the language has no configuration.  A probe
    is run without [cwd], written as the empty string. *)
Definition get_run_command (filepath : Path) (language : string)
           (runner : option runner_t) : M (option (list string)) :=
  match runner with
  | Some (Callable f) => ret (Some (f (sys_executable os) filepath))
  | Some (Tag t) =>
      if String.eqb t "java" then
        compile_then ["javac"; to_string filepath] filepath java_missing
          (ret (Some ["java"; stem filepath]))
      else if String.eqb t "c" then
        exe <- with_suffix_or_raise filepath ".out" ;;
        compile_then ["gcc"; to_string filepath; "-o"; to_string exe] filepath
          c_missing (ret (Some [to_string exe]))
      else if String.eqb t "cpp" then
        exe <- with_suffix_or_raise filepath ".out" ;;
        compile_then ["g++"; to_string filepath; "-o"; to_string exe] filepath
          cpp_missing (ret (Some [to_string exe]))
      else if String.eqb t "rust" then
        exe <- with_suffix_or_raise filepath ".out" ;;
        compile_then ["rustc"; to_string filepath; "-o"; to_string exe] filepath
          rust_missing (ret (Some [to_string exe]))
      else if String.eqb t "typescript" then
        js_file <- with_suffix_or_raise filepath ".js" ;;
        compile_then ["tsc"; to_string filepath] filepath ts_missing
          (node <- probe ["node"; "--version"] ;;
           if node then ret (Some ["node"; to_string js_file])
           else
             log (BrowserOpen js_file) ;;;
             log (ConsoleAppend ("Node not found - opened compiled JS in browser" ++ nl)) ;;;
             ret None)
      else if String.eqb t "kotlin" then
        let jar_file := truediv (parent filepath) "output.jar" in
        compile_then ["kotlinc"; to_string filepath; "-include-runtime"; "-d";
                      to_string jar_file] filepath kotlin_missing
          (ret (Some ["java"; "-jar"; to_string jar_file]))
      else if String.eqb t "csharp" then
        dotnet <- probe ["dotnet"; "--version"] ;;
        if dotnet then
          let proj_dir := parent filepath in
          (if os_exists os (truediv proj_dir "project.csproj") then ret tt
           else
             subprocess_run ["dotnet"; "new"; "console"; "-o"; "."] false
                            (to_string proj_dir) ;;;
             ret tt) ;;;
          ret (Some ["dotnet"; "run"])
        else
          log (ConsoleAppend (".NET SDK not found in PATH" ++ nl)) ;;;
          ret None
      else if String.eqb t "nix" then
        nix <- probe ["nix"; "--version"] ;;
        if nix then
          if String.eqb (name filepath) "flake.nix"
          then ret (Some ["nix"; "develop"; "."])
          else ret (Some ["nix-shell"; to_string filepath])
        else
          log (ConsoleAppend ("Nix not found in PATH" ++ nl)) ;;;
          ret None
      else ret None
  | None => ret None
  end.

(** [runner == t] for a string [t]; a callable is equal to no string. *)
Definition is_tag (t : string) (runner : option runner_t) : bool :=
  match runner with
  | Some (Tag t') => String.eqb t' t
  | _ => false
  end.

Definition cannot_run (language : string) : string :=
  "Cannot run " ++ language ++ " files (compiler/interpreter not found)" ++ nl.

(** [not command] *)
Definition falsy_command (command : option (list string)) : bool :=
  match command with
  | None => true
  | Some [] => true
  | Some (_ :: _) => false
  end.

(** [MochaCodespace.run_code] from [self.console.clear()] on, for the
    current tab of [language] whose [filepath] is set (the statements
    before only make sure of that, or return). *)
Definition run_code (language : string) (filepath : Path) : M unit :=
  log ConsoleClear ;;;
  log (ConsoleAppend ("Running " ++ name filepath ++ " (" ++ language ++ ")..." ++ nl)) ;;;
  log (StatusMessage "Running...") ;;;
  let runner := option_map runner (dict_get LANG_CONFIG language) in
  if is_tag "browser" runner then
    log (BrowserOpen filepath) ;;;
    log (ConsoleAppend ("Opened " ++ name filepath ++ " in browser" ++ nl)) ;;;
    log (StatusMessage "Ready")
  else
    command <- get_run_command filepath language runner ;;
    if falsy_command command then
      log (ConsoleAppend (cannot_run language)) ;;;
      log (StatusMessage "Ready")
    else
      match command with
      | Some cmd => log (ThreadStart cmd (to_string (parent filepath)))
      | None => ret tt
      end.

End MainWindow.

(* ===================================================================== *)
(** ** CodeEditor: the completion model *)
(* ===================================================================== *)

(** The pattern of [update_completer_model] for the words of the
    document: a word boundary, a letter or underscore, at least two
    letters, digits or underscores, a word boundary.  The greedy repeat
    with a minimum of two is two copies of the class and a greedy star. *)
Definition completion_pattern : regex :=
  Cat Boundary
      (Cat (Set_ is_ident_start)
           (Cat (Set_ is_ident_char)
                (Cat (Set_ is_ident_char)
                     (Cat (Star (Set_ is_ident_char)) Boundary)))).

(** [text[s:e]] for [0 <= s <= e]. *)
Definition slice (s e : nat) (text : string) : string :=
  Str.take (e - s) (Str.drop s text).

(** [re.findall(pattern, text)] for a pattern without groups: the
    matched substrings, in the order of [finditer]. *)
Definition findall (r : regex) (text : string) : list string :=
  map (fun m : nat * nat => slice (fst m) (snd m) text)
      (finditer (Str.chars text) r).

(** A Python [set] of strings: a list without duplicates.  Its order is
    never observed, since the only set that is read is read by [sorted]. *)
Definition set_of (l : list string) : list string := nodup string_dec l.

(** [a | b] *)
Definition union (a b : list string) : list string := nodup string_dec (a ++ b).

(** [sorted] on strings, which Python compares by code point. *)
Fixpoint insert (x : string) (l : list string) : list string :=
  match l with
  | [] => [x]
  | y :: l' => if String.leb x y then x :: l else y :: insert x l'
  end.

Definition sorted (l : list string) : list string := fold_right insert [] l.

(** [CodeEditor.update_completer_model]: the list handed to the
    completer's model, for an editor of [language] whose document is
    [text]. *)
Definition update_completer_model (language text : string) : list string :=
  let keywords := keywords_of language in
  let words := set_of (findall completion_pattern text) in
  let all_completions := sorted (union (set_of keywords) words) in
  all_completions.

(* ===================================================================== *)
(** ** MochaCodespace: the workspace tree *)
(* ===================================================================== *)

(** What [populate_tree] asks the file system: [os.listdir(path)] behind
    [path.iterdir()] and [path.is_dir()].  In both, [None] stands for
    [PermissionError], the only error the code handles; the answers are
    a function of the path, so a call that is repeated answers as
    before. *)
Record fs_env : Type := mkFs {
  fs_listdir : Path -> option (list string);
  fs_is_dir : Path -> option bool
}.

(** [path._make_child_relpath(name)], the paths that [iterdir] yields:
    the name is appended as it is. *)
Definition make_child_relpath (p : Path) (nm : string) : Path :=
  mkPath (root p) (parts p ++ [nm])%list.

(** [sorted(xs, key=key)]: stable, by [<] on the keys. *)
Fixpoint insert_by {A : Type} (lt : A -> A -> bool) (x : A) (l : list A)
  : list A :=
  match l with
  | [] => [x]
  | y :: l' => if lt y x then y :: insert_by lt x l' else x :: l
  end.

Definition sorted_by {A K : Type} (key : A -> K) (lt : K -> K -> bool)
           (l : list A) : list A :=
  fold_right (insert_by (fun a b => lt (key a) (key b))) [] l.

(** The calls of [p.is_dir()] that [sorted] makes for its keys, one per
    entry and before any comparison: each entry with its answer, or
    [None] when one of the calls raises [PermissionError]. *)
Fixpoint is_dir_all (fs : fs_env) (entries : list Path)
  : option (list (Path * bool)) :=
  match entries with
  | [] => Some []
  | p :: rest =>
      match fs_is_dir fs p with
      | None => None
      | Some d =>
          match is_dir_all fs rest with
          | None => None
          | Some l => Some ((p, d) :: l)
          end
      end
  end.

(** The sort key [(not p.is_dir(), p.name.lower())] of an entry with its
    answer, and [<] on such tuples, with [False < True]. *)
Definition entry_key (e : Path * bool) : bool * string :=
  (negb (snd e), Str.lower (name (fst e))).

Definition key_lt (a b : bool * string) : bool :=
  if Bool.eqb (fst a) (fst b) then String.ltb (snd a) (snd b)
  else negb (fst a).

(** A [QTreeWidgetItem]: its text, its [UserRole] data, its children. *)
Unset Elimination Schemes.
Inductive item : Type :=
| Item (display : string) (data : string) (children : list item).
Set Elimination Schemes.

Definition ignored : list string :=
  ["__pycache__"; "node_modules"; "target"; "build"; "dist"].

(** [populate_tree] with the depth test as a countdown: [gas] is
    [max_depth + 1 - current_depth], which is zero exactly when
    [current_depth > max_depth] and goes down by one with each level.
    The result is the items that the call creates under [parent], in
    order.  The [try] holds the listing and the sort with its [is_dir]
    calls: a [PermissionError] from either ends the call with no item.
    The calls of [entry.is_dir()] in the loop repeat calls that the sort
    has made, so they return what those returned. *)
Fixpoint populate_from (fs : fs_env) (gas : nat) (path : Path) : list item :=
  match gas with
  | 0 => []
  | S gas' =>
      match fs_listdir fs path with
      | None => []
      | Some names =>
          match is_dir_all fs (map (make_child_relpath path) names) with
          | None => []
          | Some answered =>
              let entries := sorted_by entry_key key_lt answered in
              flat_map
                (fun e : Path * bool =>
                   let (entry, is_dir) := e in
                   if Str.startswith "."%char (name entry) then []
                   else if mem (name entry) ignored then []
                   else
                     let display_name :=
                       name entry ++ (if is_dir then "/" else "") in
                     [Item display_name (to_string entry)
                           (if is_dir then populate_from fs gas' entry else [])])
                entries
          end
      end
  end.

(** [MochaCodespace.populate_tree(path, parent, max_depth, current_depth)] *)
Definition populate_tree (fs : fs_env) (path : Path)
           (max_depth current_depth : nat) : list item :=
  populate_from fs (S max_depth - current_depth) path.

(** [self.populate_tree(self.workspace_path, None)], as [open_workspace]
    calls it. *)
Definition workspace_tree (fs : fs_env) (workspace_path : Path) : list item :=
  populate_tree fs workspace_path 3 0.

(* ===================================================================== *)
(** ** CodeEditor.insert_completion *)
(* ===================================================================== *)

(** [s[start:]] for any integer [start]: a negative [start] counts from
    the end, and both ends are clipped to the string. *)
Definition slice_from (s : string) (start : BinNums.Z) : string :=
  let n := BinInt.Z.of_nat (String.length s) in
  let i := if BinInt.Z.ltb start BinNums.Z0
           then BinInt.Z.max BinNums.Z0 (BinInt.Z.add n start)
           else BinInt.Z.min start n in
  Str.drop (BinInt.Z.to_nat i) s.

(** The text that [insert_completion] hands to [cursor.insertText], for
    the chosen [completion] and the completer's [completionPrefix]:
    [completion[-extra:]] with
    [extra = len(completion) - len(completionPrefix)]. *)
Definition insert_completion (completion completionPrefix : string) : string :=
  let extra := BinInt.Z.sub (BinInt.Z.of_nat (String.length completion))
                            (BinInt.Z.of_nat (String.length completionPrefix)) in
  slice_from completion (BinInt.Z.opp extra).

(* ===================================================================== *)
(** ** Definitions used by the statements below *)
(* ===================================================================== *)

(** The path that a call [save(filepath)] is aimed at: the argument when
    one is given, else the tab's current path. *)
Definition save_target (arg : option string) (w : world) : option Path :=
  match arg with
  | Some f => if truthy f then Some (of_string f) else tab_filepath w
  | None => tab_filepath w
  end.

(** The end of a [save] that writes to [q]: the file is written and [True]
    returned, or the write fails, the save-error box is shown and [False]
    returned; [self.filepath] is [q] either way. *)
Definition written (os : os_env) (content : string) (w : world) (q : Path)
  : result bool * world :=
  match os_write os q with
  | None =>
      (Ok true, mkWorld (trace w ++ [FileWrite q content])%list (child w) (Some q))
  | Some msg =>
      (Ok false,
       mkWorld (trace w ++ [MessageBoxCritical
                              "Save Error" ("Failed to save file:" ++ nl ++ msg)])%list
               (child w) (Some q))
  end.

(** An environment for examples: every program starts, every compile and
    probe succeeds silently, every file can be written, and a child started
    by [Popen] behaves as [b]. *)
Definition example_os (b : child_behaviour) : os_env :=
  mkOs "python3" (fun _ _ => Exited 0 "" "") (fun _ _ => None)
       (fun _ => b) (fun _ => true) (fun _ => None).

(** The same, but no program can be started: nothing is installed. *)
Definition bare_os : os_env :=
  mkOs "python3"
       (fun _ _ => LaunchError (NotFound "[Errno 2] No such file or directory"))
       (fun _ _ => Some (NotFound "[Errno 2] No such file or directory"))
       (fun _ => mkChild None "" "" None) (fun _ => false) (fun _ => None).

(** The compiler binary and the report for its absence, for each runner
    tag whose branch of [get_run_command] compiles before it runs. *)
Definition compiler_of (t : string) : option (string * string) :=
  if String.eqb t "java" then Some ("javac", java_missing)
  else if String.eqb t "c" then Some ("gcc", c_missing)
  else if String.eqb t "cpp" then Some ("g++", cpp_missing)
  else if String.eqb t "rust" then Some ("rustc", rust_missing)
  else if String.eqb t "typescript" then Some ("tsc", ts_missing)
  else if String.eqb t "kotlin" then Some ("kotlinc", kotlin_missing)
  else None.

(** The languages that compile first, as the code names them in its
    reports, with their compiler binaries. *)
Definition toolchain_of (t : string) : option (string * string) :=
  if String.eqb t "java" then Some ("javac", "Java")
  else if String.eqb t "c" then Some ("gcc", "C")
  else if String.eqb t "cpp" then Some ("g++", "C++")
  else if String.eqb t "rust" then Some ("rustc", "Rust")
  else if String.eqb t "typescript" then Some ("tsc", "TypeScript")
  else if String.eqb t "kotlin" then Some ("kotlinc", "Kotlin")
  else None.

(** The console line for a compiler that is not installed: it names the
    language and the binary that was looked for. *)
Definition toolchain_missing (label binary : string) : string :=
  label ++ " compiler (" ++ binary ++ ") not found in PATH" ++ nl.

(** The first lines of every [run_code]. *)
Definition run_banner (language : string) (filepath : Path) : list event :=
  [ ConsoleClear;
    ConsoleAppend ("Running " ++ name filepath ++ " (" ++ language ++ ")..." ++ nl);
    StatusMessage "Running..." ].

(** No [RunnerThread] was started. *)
Definition is_thread_start (ev : event) : bool :=
  match ev with
  | ThreadStart _ _ => true
  | _ => false
  end.

(** An environment in which every program runs and exits with status 1,
    writing [diagnostics] to its standard error. *)
Definition failing_os (diagnostics : string) : os_env :=
  mkOs "python3" (fun _ _ => Exited 1 "" diagnostics) (fun _ _ => None)
       (fun _ => mkChild (Some 0) "" "" None) (fun _ => true) (fun _ => None).

(** What a continuation-passing matcher does with its continuation: it
    only succeeds through it, at a position of the text not before the
    start. *)
Definition forwards (text : list ascii)
           (m : nat -> (nat -> option nat) -> option nat) : Prop :=
  forall (i : nat) (k : nat -> option nat) (e : nat),
    i <= length text -> m i k = Some e ->
    exists j, i <= j <= length text /\ k j = Some e.

(** The match [m = (start, end)] covers offset [p]. *)
Definition covers (m : nat * nat) (p : nat) : bool :=
  (fst m <=? p) && (p <? snd m).

(** Some match of the rule's pattern in [text] covers offset [p]. *)
Definition rule_covers (text : string) (r : rule) (p : nat) : bool :=
  existsb (fun m => covers m p) (finditer (Str.chars text) (fst r)).

(** The rules that [setup_rules] adds for every language. *)
Definition common_rules : list rule :=
  [ (quoted_pattern dquote, string_format);
    (quoted_pattern squote, string_format);
    (number_pattern, number_format);
    (function_pattern, function_format) ].

(** The number of characters at the head of [l] that satisfy [f]. *)
Fixpoint run_length (f : ascii -> bool) (l : list ascii) : nat :=
  match l with
  | c :: l' => if f c then S (run_length f l') else 0
  | [] => 0
  end.

(** Where a match of the call-target pattern that starts at [i] ends: [i]
    is at a word boundary and holds a letter or an underscore, and the
    letters, digits and underscores that follow it run up to an opening
    parenthesis. *)
Definition call_end (text : list ascii) (i : nat) : option nat :=
  if at_boundary text i then
    match nth_error text i with
    | Some c =>
        if is_ident_start c then
          let e := S i + run_length is_ident_char (skipn (S i) text) in
          match nth_error text e with
          | Some c' => if Ascii.eqb "("%char c' then Some e else None
          | None => None
          end
        else None
    | None => None
    end
  else None.

(** The characters from [s] up to [e] form an identifier-shaped token that
    an opening parenthesis follows: no word character stands before [s],
    [s] holds a letter or an underscore, every character of the token is a
    letter, a digit or an underscore, and the character at [e], the first
    one outside the token, is the parenthesis. *)
Definition call_target (text : list ascii) (s e : nat) : Prop :=
  s < e
  /\ (s = 0 \/ exists j, s = S j /\ word_at text j = false)
  /\ (exists c, nth_error text s = Some c /\ is_ident_start c = true)
  /\ (forall i, s <= i < e ->
                exists c, nth_error text i = Some c /\ is_ident_char c = true)
  /\ nth_error text e = Some "("%char.

(** An extension as the registry writes them: a dot, then at least one
    character, none of them a dot or a slash. *)
Definition canonical_ext (e : string) : bool :=
  match e with
  | String c rest =>
      Ascii.eqb c "."%char && truthy rest
      && negb (Str.contains "."%char rest) && negb (Str.contains sep rest)
  | EmptyString => false
  end.

(** The characters that are special in a pattern of [re]. *)
Definition is_special (c : ascii) : bool :=
  existsb (Ascii.eqb c)
          [ "."%char; "^"%char; "$"%char; "*"%char; "+"%char; "?"%char;
            "{"%char; "}"%char; "["%char; "]"%char; backslash; "|"%char;
            "("%char; ")"%char ].

(** The runner tags that [run_code] and [get_run_command] have a branch
    for. *)
Definition supported_tags : list string :=
  ["browser"; "java"; "c"; "cpp"; "rust"; "typescript"; "kotlin"; "csharp"; "nix"].

(** The runner is neither a callable nor a tag with a branch. *)
Definition no_strategy (r : option runner_t) : bool :=
  match r with
  | None => true
  | Some (Tag t) => negb (mem t supported_tags)
  | Some (Callable _) => false
  end.

(** A computation that only adds events satisfying [P] to the trace, and
    leaves the child process and the tab's path alone, whether it returns
    or raises. *)
Definition adds_only (P : event -> bool) {A : Type} (c : M A) : Prop :=
  forall w : world,
  exists evs : list event,
    trace (snd (c w)) = (trace w ++ evs)%list
    /\ forallb P evs = true
    /\ child (snd (c w)) = child w
    /\ tab_filepath (snd (c w)) = tab_filepath w.

(** What [get_run_command] may do: run a program and wait for it, append
    to the console, open the browser. *)
Definition invoker_event (ev : event) : bool :=
  match ev with
  | SubprocessRun _ _ => true
  | ConsoleAppend _ => true
  | BrowserOpen _ => true
  | _ => false
  end.

Definition not_thread_start (ev : event) : bool := negb (is_thread_start ev).

(** The least number of characters that a match of the pattern consumes. *)
Fixpoint min_len (r : regex) : nat :=
  match r with
  | Empty => 0
  | Set_ _ => 1
  | Cat r1 r2 => min_len r1 + min_len r2
  | Star _ => 0
  | StarLazy _ => 0
  | Opt _ => 0
  | Boundary => 0
  | Lookahead _ => 0
  end.

(** A continuation-passing matcher that only succeeds through its
    continuation, at least [m] characters further on. *)
Definition advances (m : nat) (body : nat -> (nat -> option nat) -> option nat)
  : Prop :=
  forall (i : nat) (k : nat -> option nat) (e : nat),
    body i k = Some e -> exists j, i + m <= j /\ k j = Some e.

(** The characters [m] stand in [text] from offset [i] on. *)
Fixpoint starts_at (text : list ascii) (m : list ascii) (i : nat) : bool :=
  match m with
  | [] => true
  | c :: m' =>
      match nth_error text i with
      | Some a => Ascii.eqb c a && starts_at text m' (S i)
      | None => false
      end
  end.



(** Where a match of the pattern of the keyword [w] that starts at [i]
    ends: a word boundary at [i], the characters of [w], a word boundary
    after them. *)
Definition keyword_end (text w : list ascii) (i : nat) : option nat :=
  if at_boundary text i then
    if starts_at text w i then
      if at_boundary text (i + length w) then Some (i + length w) else None
    else None
  else None.

(** The characters from [s] up to [e] are the word [w], standing on its
    own: no word character stands directly before or directly after it. *)
Definition whole_word (text w : list ascii) (s e : nat) : Prop :=
  e = s + length w
  /\ starts_at text w s = true
  /\ (s = 0 \/ exists j, s = S j /\ word_at text j = false)
  /\ word_at text e = false.

(** No occurrence of [w] as a whole word can start inside another one:
    at no inner offset [d] of [w] is there both a word boundary and a
    copy of the first [length w - d] characters. *)
Definition overlap_free (w : list ascii) : bool :=
  forallb (fun d => negb (at_boundary w d
                          && starts_at w (firstn (length w - d) w) d))
          (seq 1 (length w - 1)).

(** A keyword as [LANGUAGE_KEYWORDS] has them: it starts and ends with a
    word character and cannot overlap itself. *)
Definition plain_word (w : list ascii) : bool :=
  match w with
  | [] => false
  | c :: _ => is_word c && is_word (last w c) && overlap_free w
  end.

(** Where a match of the completion pattern that starts at [i] ends: [i]
    is at a word boundary and holds a letter or an underscore, at least
    two letters, digits or underscores follow, and the run of them ends
    before a character that is not a word character, or at the end. *)
Definition word_end (text : list ascii) (i : nat) : option nat :=
  if at_boundary text i then
    match nth_error text i with
    | Some c =>
        if is_ident_start c then
          let n := run_length is_ident_char (skipn (S i) text) in
          if (2 <=? n) && negb (word_at text (S i + n)) then Some (S i + n)
          else None
        else None
    | None => None
    end
  else None.

(** The characters from [s] up to [e] are an identifier of at least three
    characters that stands on its own: no word character stands directly
    before or directly after it. *)
Definition document_word (text : list ascii) (s e : nat) : Prop :=
  s + 3 <= e
  /\ (s = 0 \/ exists j, s = S j /\ word_at text j = false)
  /\ (exists c, nth_error text s = Some c /\ is_ident_start c = true)
  /\ (forall i, s <= i < e ->
                exists c, nth_error text i = Some c /\ is_ident_char c = true)
  /\ word_at text e = false.

(** Strictly ascending in the order of code points. *)
Definition string_lt (a b : string) : Prop := String.compare a b = Lt.

(** An item and the items below it; all the items of a forest. *)
Fixpoint items_of (it : item) : list item :=
  match it with
  | Item _ _ children => it :: flat_map items_of children
  end.

Definition all_items (l : list item) : list item := flat_map items_of l.

Definition display (it : item) : string :=
  match it with Item d _ _ => d end.
Definition data (it : item) : string :=
  match it with Item _ d _ => d end.
Definition children (it : item) : list item :=
  match it with Item _ _ c => c end.

(** A name that [populate_tree] does not skip. *)
Definition shown (nm : string) : bool :=
  negb (Str.startswith "."%char nm) && negb (mem nm ignored).

(** The path [p] extended by the components [rest]. *)
Definition descend (p : Path) (rest : list string) : Path :=
  mkPath (root p) (parts p ++ rest)%list.


(** A small workspace: two files, a source directory with a file and an
    ignored directory in it, and a hidden directory. *)
Definition example_fs : fs_env :=
  mkFs (fun p =>
          if Pathlib.eqb p (of_string "/w")
          then Some ["b.txt"; ".git"; "src"; "A.txt"]
          else if Pathlib.eqb p (of_string "/w/src") then Some ["main.py"; "build"]
          else if Pathlib.eqb p (of_string "/w/.git") then Some ["config"]
          else if Pathlib.eqb p (of_string "/w/src/build") then Some ["main.o"]
          else None)
       (fun p => Some (Pathlib.eqb p (of_string "/w/src")
                       || Pathlib.eqb p (of_string "/w/.git")
                       || Pathlib.eqb p (of_string "/w/src/build"))).



(* ===================================================================== *)
(** * Properties *)
(* ===================================================================== *)

(** ** The registry and the reverse lookup *)

(** Every entry of the table, one case per language. *)
Ltac each_language H :=
  simpl in H;
  repeat (destruct H as [H|H]; [inversion H; subst; clear H|]);
  [..|contradiction].

Section Registry.

(** The loop keeps its default when no entry has the extension. *)
Lemma detect_loop_no_match (items : list (string * lang_config)) (e d : string) :
  (forall lang config, In (lang, config) items -> ext config <> e) ->
  detect_loop items e d = d.
Proof.
  induction items as [|[lang config] rest IH]; intros Hno; simpl.
  - reflexivity.
  - destruct (String.eqb_spec (ext config) e) as [Heq|_].
    + exfalso. apply (Hno lang config); [left; reflexivity | exact Heq].
    + apply IH. intros l c Hin. apply (Hno l c). right. exact Hin.
Qed.

(** The loop stops at the first entry that has the extension. *)
Lemma detect_loop_first (pre post : list (string * lang_config))
      (lang : string) (config : lang_config) (d : string) :
  (forall l c, In (l, c) pre -> ext c <> ext config) ->
  detect_loop (pre ++ (lang, config) :: post) (ext config) d = lang.
Proof.
  induction pre as [|[l c] pre IH]; intros Hpre; simpl.
  - rewrite String.eqb_refl. reflexivity.
  - destruct (String.eqb_spec (ext c) (ext config)) as [Heq|_].
    + exfalso. apply (Hpre l c); [left; reflexivity | exact Heq].
    + apply IH. intros l' c' Hin. apply (Hpre l' c'). right. exact Hin.
Qed.

Lemma registered_ext_lower (lang : string) (config : lang_config) :
  In (lang, config) LANG_CONFIG -> Str.lower (ext config) = ext config.
Proof. intros H. each_language H; reflexivity. Qed.

Lemma registered_lookup (lang : string) (config : lang_config) :
  In (lang, config) LANG_CONFIG -> language_of_ext (ext config) = lang.
Proof. intros H. each_language H; reflexivity. Qed.

Lemma registered_get (lang : string) (config : lang_config) :
  In (lang, config) LANG_CONFIG -> dict_get LANG_CONFIG lang = Some config.
Proof. intros H. each_language H; reflexivity. Qed.

Lemma dict_get_In {A : Type} (d : list (string * A)) (key : string) (v : A) :
  dict_get d key = Some v -> In (key, v) d.
Proof.
  induction d as [|[k x] rest IH]; simpl; intros H.
  - discriminate.
  - destruct (String.eqb_spec k key) as [->|_].
    + inversion H. left. reflexivity.
    + right. apply IH. exact H.
Qed.

Lemma extensions_unique : NoDup (map (fun kv => ext (snd kv)) LANG_CONFIG).
Proof.
  simpl.
  repeat (constructor;
          [ simpl; intros H; repeat (destruct H as [H|H]; [discriminate H|]);
            exact H | ]).
  constructor.
Qed.

End Registry.

(** C2.  For every registered language id, the entry that the registry
    resolves the id to has an extension which the reverse lookup of
    [open_file] maps back to the same id: on the extension itself, and on
    every path that carries it as its suffix.  The extensions of the
    registry are pairwise different. *)
Theorem extension_roundtrip (lang : string) (config : lang_config) :
  In (lang, config) LANG_CONFIG ->
  dict_get LANG_CONFIG lang = Some config
  /\ language_of_ext (ext config) = lang
  /\ (forall p : Path, suffix p = ext config -> detect_language p = lang)
  /\ NoDup (map (fun kv => ext (snd kv)) LANG_CONFIG).
Proof.
  intros Hin. split; [|split; [|split]].
  - apply registered_get. exact Hin.
  - apply registered_lookup. exact Hin.
  - intros p Hp. unfold detect_language. rewrite Hp.
    rewrite (registered_ext_lower lang config Hin).
    apply registered_lookup. exact Hin.
  - exact extensions_unique.
Qed.

Lemma extension_roundtrip_witness :
  In ("Rust", mkConfig ".rs" "examples/hello.rs" "// " (Tag "rust")) LANG_CONFIG
  /\ language_of_ext ".rs" = "Rust"
  /\ detect_language (of_string "src/main.rs") = "Rust".
Proof.
  assert (Hin : In ("Rust", mkConfig ".rs" "examples/hello.rs" "// " (Tag "rust"))
                   LANG_CONFIG).
  { simpl. do 7 right. left. reflexivity. }
  split; [exact Hin|].
  destruct (extension_roundtrip "Rust" _ Hin) as (_ & Hlookup & Hpath & _).
  split; [exact Hlookup|].
  apply Hpath. reflexivity.
Defined.

(** C10.  The reverse lookup lowers the suffix before it compares: for
    every registered language, a path whose suffix differs from the
    language's extension by letter case only (the two are equal once
    lowered) is mapped to that language. *)
Theorem lookup_ignores_case (lang : string) (config : lang_config) (p : Path) :
  In (lang, config) LANG_CONFIG ->
  Str.lower (suffix p) = Str.lower (ext config) ->
  detect_language p = lang.
Proof.
  intros Hin Hcase. unfold detect_language. rewrite Hcase.
  rewrite (registered_ext_lower lang config Hin).
  apply registered_lookup. exact Hin.
Qed.

Lemma lookup_ignores_case_witness :
  suffix (of_string "Main.JAVA") = ".JAVA"
  /\ detect_language (of_string "Main.JAVA") = "Java".
Proof.
  split; [reflexivity|].
  apply (lookup_ignores_case "Java"
           (mkConfig ".java" "examples/Hello.java" "// " (Tag "java"))).
  - simpl. do 2 right. left. reflexivity.
  - reflexivity.
Defined.

(** C1, as stated, fails: [notes.txt] has a suffix that no registered
    language has, and [open_file] infers Python for it, while the first
    entry of the table is PTX. *)
Lemma default_language_counterexample :
  suffix (of_string "notes.txt") = ".txt"
  /\ existsb (fun kv => String.eqb (ext (snd kv)) ".txt") LANG_CONFIG = false
  /\ detect_language (of_string "notes.txt") = "Python"
  /\ hd_error (dict_keys LANG_CONFIG) = Some "PTX"
  /\ Some (detect_language (of_string "notes.txt")) <> hd_error (dict_keys LANG_CONFIG).
Proof.
  repeat split; try reflexivity. discriminate.
Qed.

(** C1, amended.  For every path whose lowered suffix is the extension of
    no registered language, [open_file] infers the fixed default, Python,
    which is the second entry of the table. *)
Theorem default_language_is_python (p : Path) :
  (forall lang config, In (lang, config) LANG_CONFIG ->
                       ext config <> Str.lower (suffix p)) ->
  detect_language p = "Python"
  /\ nth_error (dict_keys LANG_CONFIG) 1 = Some "Python".
Proof.
  intros Hno. split; [|reflexivity].
  unfold detect_language, language_of_ext.
  apply detect_loop_no_match. exact Hno.
Qed.

Lemma default_language_is_python_witness :
  detect_language (of_string "notes.txt") = "Python"
  /\ nth_error (dict_keys LANG_CONFIG) 1 = Some "Python".
Proof.
  apply (default_language_is_python (of_string "notes.txt")).
  intros lang config Hin. each_language Hin; discriminate.
Defined.

(** ** Strings and paths *)

Section StringFacts.

Lemma string_length_app (a b : string) :
  String.length (a ++ b) = String.length a + String.length b.
Proof. induction a as [|c a IH]; simpl; [reflexivity | rewrite IH; reflexivity]. Qed.

Lemma drop_app (a b : string) : Str.drop (String.length a) (a ++ b) = b.
Proof. induction a as [|c a IH]; simpl; [destruct b; reflexivity | exact IH]. Qed.

Lemma length_drop (i : nat) (s : string) :
  String.length (Str.drop i s) = String.length s - i.
Proof.
  revert s. induction i as [|i IH]; intros s; simpl.
  - lia.
  - destruct s as [|c s]; simpl; [reflexivity | apply IH].
Qed.

Lemma length_take (i : nat) (s : string) :
  i <= String.length s -> String.length (Str.take i s) = i.
Proof.
  revert s. induction i as [|i IH]; intros s Hle; simpl.
  - reflexivity.
  - destruct s as [|c s]; simpl in *; [lia | rewrite IH; [reflexivity | lia]].
Qed.

Lemma rfind_absent (c : ascii) (s : string) :
  Str.contains c s = false -> Str.rfind c s = None.
Proof.
  induction s as [|a s IH]; simpl; intros H.
  - reflexivity.
  - apply orb_false_iff in H. destruct H as [Ha Hs].
    rewrite (IH Hs), Ha. reflexivity.
Qed.

Lemma rfind_last_occurrence (c : ascii) (a rest : string) :
  Str.contains c rest = false ->
  Str.rfind c (a ++ String c rest) = Some (String.length a).
Proof.
  intros Hrest. induction a as [|x a IH]; simpl.
  - rewrite (rfind_absent c rest Hrest), Ascii.eqb_refl. reflexivity.
  - rewrite IH. reflexivity.
Qed.

Lemma rfind_bound (c : ascii) (s : string) (i : nat) :
  Str.rfind c s = Some i -> i < String.length s.
Proof.
  revert i. induction s as [|a s IH]; simpl; intros i H.
  - discriminate.
  - destruct (Str.rfind c s) as [j|].
    + inversion H; subst. specialize (IH j eq_refl). lia.
    + destruct (Ascii.eqb a c); inversion H. lia.
Qed.

Lemma truthy_length (s : string) : truthy s = true -> 0 < String.length s.
Proof. destruct s; simpl; [discriminate | lia]. Qed.

Lemma nonempty_length (s : string) : s <> "" -> 0 < String.length s.
Proof. destruct s; simpl; [congruence | lia]. Qed.

End StringFacts.

Section PathFacts.

Lemma registered_ext_canonical (lang : string) (config : lang_config) :
  In (lang, config) LANG_CONFIG -> canonical_ext (ext config) = true.
Proof. intros H. each_language H; reflexivity. Qed.

(** A name put together from a non-empty base and a canonical extension
    has that extension as its suffix. *)
Lemma suffix_index_canonical (base e : string) :
  canonical_ext e = true -> base <> "" ->
  suffix_index (base ++ e) = Some (String.length base).
Proof.
  intros He Hbase. destruct e as [|c rest]; [discriminate|].
  simpl in He. repeat (apply andb_true_iff in He; destruct He as [He ?]).
  apply Ascii.eqb_eq in He. subst c.
  unfold suffix_index.
  rewrite rfind_last_occurrence by (apply negb_true_iff; assumption).
  pose proof (nonempty_length base Hbase).
  pose proof (truthy_length rest ltac:(assumption)).
  rewrite string_length_app. simpl String.length.
  replace (0 <? String.length base) with true by (symmetry; apply Nat.ltb_lt; lia).
  replace (String.length base <? String.length base + S (String.length rest) - 1)
    with true by (symmetry; apply Nat.ltb_lt; lia).
  reflexivity.
Qed.

(** The part of a name before its suffix is not empty. *)
Lemma base_nonempty (nm : string) (i : nat) :
  suffix_index nm = Some i ->
  Str.take (String.length nm - String.length (Str.drop i nm)) nm <> "".
Proof.
  unfold suffix_index. intros H.
  destruct (Str.rfind "."%char nm) as [j|] eqn:Hj; [|discriminate].
  destruct ((0 <? j) && (j <? String.length nm - 1)) eqn:Hc; [|discriminate].
  inversion H; subst j. apply andb_true_iff in Hc. destruct Hc as [H0 H1].
  apply Nat.ltb_lt in H0. apply Nat.ltb_lt in H1.
  rewrite length_drop.
  intros Hempty.
  assert (Hlen : String.length
                   (Str.take (String.length nm - (String.length nm - i)) nm) = 0)
    by (rewrite Hempty; reflexivity).
  rewrite length_take in Hlen by lia. lia.
Qed.

(** [with_suffix] with a canonical extension succeeds on a path that has
    a name, stays in the same directory, and gives the path that suffix. *)
Lemma with_suffix_canonical (p : Path) (e : string) :
  canonical_ext e = true -> name p <> "" ->
  exists p', with_suffix p e = Some p'
             /\ suffix p' = e
             /\ parent p' = parent p
             /\ name p' <> "".
Proof.
  intros He Hname.
  assert (Hguard1 : Str.contains sep e = false).
  { destruct e as [|c rest]; [discriminate|]. simpl in He |- *.
    repeat (apply andb_true_iff in He; destruct He as [He ?]).
    apply Ascii.eqb_eq in He. subst c. simpl.
    apply negb_true_iff. assumption. }
  assert (Hguard2 : (negb (String.eqb e "") && negb (Str.startswith "."%char e))
                    || String.eqb e "." = false).
  { destruct e as [|c rest]; [discriminate|]. simpl in He.
    repeat (apply andb_true_iff in He; destruct He as [He ?]).
    apply Ascii.eqb_eq in He. subst c.
    destruct rest; [discriminate|]. reflexivity. }
  unfold with_suffix. rewrite Hguard1, Hguard2.
  destruct (String.eqb_spec (name p) "") as [Hn|_]; [contradiction|].
  set (base := if String.eqb (suffix p) ""
               then name p
               else Str.take (String.length (name p) - String.length (suffix p))
                             (name p)).
  assert (Hbase : base <> "").
  { unfold base, suffix.
    destruct (suffix_index (name p)) as [i|] eqn:Hi.
    - destruct (String.eqb (Str.drop i (name p)) "").
      + exact Hname.
      + apply base_nonempty. exact Hi.
    - simpl. exact Hname. }
  exists (mkPath (root p) (removelast (parts p) ++ [(base ++ e)%string])%list).
  assert (Hnm : name (mkPath (root p) (removelast (parts p) ++ [(base ++ e)%string])%list)
                = base ++ e).
  { unfold name. simpl. apply last_last. }
  split; [|split; [|split]].
  - unfold base. destruct (String.eqb (suffix p) ""); reflexivity.
  - unfold suffix. rewrite Hnm, (suffix_index_canonical base e He Hbase).
    apply drop_app.
  - unfold parent. simpl. rewrite removelast_last. reflexivity.
  - rewrite Hnm. destruct base; [congruence | discriminate].
Qed.

End PathFacts.

(** ** EditorTab.save *)

Section Save.

Variable os : os_env.

(** What [save] does once [self.filepath] is the target [p]. *)
Lemma save_at_target (language content : string) (arg : option string)
      (w : world) (p : Path) :
  save_target arg w = Some p ->
  save os language content arg w =
  save os language content None (mkWorld (trace w) (child w) (Some p)).
Proof.
  unfold save_target, save, bind, when, get_filepath, set_filepath, ret.
  generalize (config_ext language). intros e.
  destruct w as [tr ch fp]. cbn [trace child tab_filepath].
  destruct arg as [f|]; [destruct (truthy f)|]; intros H;
    inversion H; subst; reflexivity.
Qed.

Lemma save_keeps (language content : string) (w : world) (p : Path) :
  truthy (config_ext language)
  && negb (String.eqb (suffix p) (config_ext language)) = false ->
  save os language content None (mkWorld (trace w) (child w) (Some p))
  = written os content w p.
Proof.
  intros Hc.
  unfold save, written, bind, when, get_filepath, set_filepath, ret, try_except,
    log, raise.
  cbn [trace child tab_filepath]. rewrite Hc. cbn [trace child tab_filepath].
  destruct (os_write os p); reflexivity.
Qed.

Lemma save_rewrites (language content : string) (w : world) (p p' : Path) :
  truthy (config_ext language)
  && negb (String.eqb (suffix p) (config_ext language)) = true ->
  with_suffix p (config_ext language) = Some p' ->
  save os language content None (mkWorld (trace w) (child w) (Some p))
  = written os content w p'.
Proof.
  intros Hc Hp'.
  unfold save, written, bind, when, get_filepath, set_filepath, ret, try_except,
    log, raise.
  cbn [trace child tab_filepath]. rewrite Hc, Hp'. cbn [trace child tab_filepath].
  destruct (os_write os p'); reflexivity.
Qed.

End Save.

(** C9.  A save of a tab whose language has a configured extension, aimed
    at a path [p] that names a file: the tab's path becomes [p'], which is
    [p] when the suffix of [p] already is the extension and
    [p.with_suffix(ext)] otherwise; [p'] lies in the directory of [p] and
    its suffix is the language's extension.  The content is written to [p']
    and to no other path, and nothing but the write (or, when it fails, the
    save-error box) is shown for it. *)
Theorem save_normalises_extension
        (os : os_env) (language content : string) (config : lang_config)
        (arg : option string) (w : world) (p : Path) :
  dict_get LANG_CONFIG language = Some config ->
  save_target arg w = Some p ->
  name p <> "" ->
  exists p' : Path,
    (if String.eqb (suffix p) (ext config) then p' = p
     else with_suffix p (ext config) = Some p')
    /\ suffix p' = ext config
    /\ parent p' = parent p
    /\ save os language content arg w = written os content w p'.
Proof.
  intros Hcfg Htarget Hname.
  assert (Hext : config_ext language = ext config)
    by (unfold config_ext; rewrite Hcfg; reflexivity).
  pose proof (registered_ext_canonical language config (dict_get_In _ _ _ Hcfg))
    as Hcanon.
  assert (Htruthy : truthy (ext config) = true)
    by (destruct (ext config); [discriminate | reflexivity]).
  rewrite (save_at_target os language content arg w p Htarget).
  destruct (String.eqb_spec (suffix p) (ext config)) as [Hsame|Hdiff].
  - exists p. repeat split; try assumption.
    apply save_keeps. rewrite Hext, Htruthy, Hsame, String.eqb_refl. reflexivity.
  - destruct (with_suffix_canonical p (ext config) Hcanon Hname)
      as (p' & Hwith & Hsfx & Hparent & _).
    exists p'. repeat split; try assumption.
    apply save_rewrites.
    + rewrite Hext, Htruthy.
      apply String.eqb_neq in Hdiff. rewrite Hdiff. reflexivity.
    + rewrite Hext. exact Hwith.
Qed.

Lemma save_normalises_extension_witness :
  exists p' : Path,
    with_suffix (of_string "/home/u/notes.txt") ".py" = Some p'
    /\ suffix p' = ".py"
    /\ parent p' = parent (of_string "/home/u/notes.txt")
    /\ save (mkOs "python3" (fun _ _ => Exited 0 "" "") (fun _ _ => None)
              (fun _ => mkChild (Some 0) "" "" None) (fun _ => true) (fun _ => None))
             "Python" "print(1)" (Some "/home/u/notes.txt") initial_world
       = (Ok true, mkWorld [FileWrite p' "print(1)"] NoChild (Some p')).
Proof.
  destruct (save_normalises_extension
              (mkOs "python3" (fun _ _ => Exited 0 "" "") (fun _ _ => None)
                    (fun _ => mkChild (Some 0) "" "" None) (fun _ => true)
                    (fun _ => None))
              "Python" "print(1)"
              (mkConfig ".py" "examples/hello.py" "# "
                        (Callable (fun exe f => [exe; to_string f])))
              (Some "/home/u/notes.txt") initial_world
              (of_string "/home/u/notes.txt")
              eq_refl eq_refl)
    as (p' & Hp' & Hsfx & Hparent & Hsave).
  - discriminate.
  - exists p'. repeat split; assumption.
Defined.

(** ** RunnerThread.run *)

Section RunnerFacts.

Variable os : os_env.
Variables (command : list string) (cwd : string).

(** The thread cannot start the program. *)
Lemma run_spawn_error (w : world) (e : os_error) :
  os_spawn os command cwd = Some e ->
  run os command cwd w =
  (Ok tt,
   mkWorld (trace w ++ [SignalOutput (error_message (exn_of_os_error e));
                        SignalFinished])%list
           (child w) (tab_filepath w)).
Proof.
  intros Hspawn.
  unfold run, try_finally, try_except, Popen, bind, raise, log.
  rewrite Hspawn. destruct e; cbn; rewrite <- app_assoc; reflexivity.
Qed.

(** The child is still running at the deadline. *)
Lemma run_timeout (w : world) :
  os_spawn os command cwd = None ->
  (forall d, exits_after (os_child os command) = Some d -> 60 <= d) ->
  run os command cwd w =
  (Ok tt,
   mkWorld (trace w ++ [ProcessSpawn command cwd; SignalOutput timeout_message;
                        SignalFinished])%list
           Running (tab_filepath w)).
Proof.
  intros Hspawn Hlate.
  unfold run, try_finally, try_except, Popen, communicate, bind, raise, log,
    set_child.
  cbv zeta. rewrite Hspawn.
  destruct (exits_after (os_child os command)) as [d|] eqn:Hd.
  - specialize (Hlate d eq_refl).
    replace (d <? 60) with false by (symmetry; apply Nat.ltb_ge; exact Hlate).
    cbn. repeat rewrite <- app_assoc. reflexivity.
  - cbn. repeat rewrite <- app_assoc. reflexivity.
Qed.

(** The child exits in time but its output cannot be read. *)
Lemma run_read_error (w : world) (d : nat) (msg : string) :
  os_spawn os command cwd = None ->
  exits_after (os_child os command) = Some d -> d < 60 ->
  read_error (os_child os command) = Some msg ->
  run os command cwd w =
  (Ok tt,
   mkWorld (trace w ++ [ProcessSpawn command cwd;
                        SignalOutput (error_message (OtherException msg));
                        SignalFinished])%list
           Terminated (tab_filepath w)).
Proof.
  intros Hspawn Hd Hlt Hread.
  unfold run, try_finally, try_except, Popen, communicate, bind, raise, log,
    set_child.
  cbv zeta. rewrite Hspawn, Hd, Hread.
  replace (d <? 60) with true by (symmetry; apply Nat.ltb_lt; exact Hlt).
  cbn. repeat rewrite <- app_assoc. reflexivity.
Qed.

(** The child exits in time: its output, then its errors, when not empty. *)
Lemma run_completed (w : world) (d : nat) :
  os_spawn os command cwd = None ->
  exits_after (os_child os command) = Some d -> d < 60 ->
  read_error (os_child os command) = None ->
  run os command cwd w =
  (Ok tt,
   mkWorld (trace w
            ++ [ProcessSpawn command cwd]
            ++ (if truthy (stdout_text (os_child os command))
                then [SignalOutput (stdout_text (os_child os command))] else [])
            ++ (if truthy (stderr_text (os_child os command))
                then [SignalOutput (stderr_text (os_child os command))] else [])
            ++ [SignalFinished])%list
           Terminated (tab_filepath w)).
Proof.
  intros Hspawn Hd Hlt Hread.
  unfold run, try_finally, try_except, Popen, communicate, bind, raise, log,
    set_child, when, ret.
  cbv zeta. rewrite Hspawn, Hd, Hread.
  replace (d <? 60) with true by (symmetry; apply Nat.ltb_lt; exact Hlt).
  cbn.
  destruct (truthy (stdout_text (os_child os command)));
    destruct (truthy (stderr_text (os_child os command)));
    cbn; repeat rewrite <- app_assoc; reflexivity.
Qed.

End RunnerFacts.

(** C7.  Whatever path a run takes, [run] returns without an exception,
    and what it adds to the trace ends with the completion signal, which
    occurs nowhere before.  When the program cannot be started, for any
    reason, the only other thing emitted is one output message that carries
    the text of the error. *)
Theorem completion_signalled_once
        (os : os_env) (command : list string) (cwd : string) (w : world) :
  fst (run os command cwd w) = Ok tt
  /\ (exists evs : list event,
         trace (snd (run os command cwd w))
         = (trace w ++ evs ++ [SignalFinished])%list
         /\ ~ In SignalFinished evs)
  /\ (forall e : os_error,
         os_spawn os command cwd = Some e ->
         snd (run os command cwd w)
         = mkWorld (trace w ++ [SignalOutput (error_message (exn_of_os_error e));
                                SignalFinished])%list
                   (child w) (tab_filepath w)).
Proof.
  destruct (os_spawn os command cwd) as [e|] eqn:Hspawn.
  - rewrite (run_spawn_error os command cwd w e Hspawn). cbn [fst snd trace].
    split; [reflexivity|split].
    + exists [SignalOutput (error_message (exn_of_os_error e))].
      split; [reflexivity|].
      intros [H|[]]. discriminate H.
    + intros e' He'. inversion He'; subst. reflexivity.
  - destruct (exits_after (os_child os command)) as [d|] eqn:Hd.
    + destruct (Nat.lt_ge_cases d 60) as [Hlt|Hge].
      * destruct (read_error (os_child os command)) as [msg|] eqn:Hread.
        -- rewrite (run_read_error os command cwd w d msg Hspawn Hd Hlt Hread).
           cbn [fst snd trace].
           split; [reflexivity|split; [|intros e He; discriminate He]].
           exists [ProcessSpawn command cwd;
                   SignalOutput (error_message (OtherException msg))].
           split; [reflexivity|].
           intros [H|[H|[]]]; discriminate H.
        -- rewrite (run_completed os command cwd w d Hspawn Hd Hlt Hread).
           cbn [fst snd trace].
           split; [reflexivity|split; [|intros e He; discriminate He]].
           exists ([ProcessSpawn command cwd]
                   ++ (if truthy (stdout_text (os_child os command))
                       then [SignalOutput (stdout_text (os_child os command))] else [])
                   ++ (if truthy (stderr_text (os_child os command))
                       then [SignalOutput (stderr_text (os_child os command))] else []))%list.
           split.
           ++ repeat rewrite <- app_assoc. reflexivity.
           ++ destruct (truthy (stdout_text (os_child os command)));
                destruct (truthy (stderr_text (os_child os command)));
                cbn; intuition discriminate.
      * rewrite (run_timeout os command cwd w Hspawn).
        2:{ intros d' Hd'. rewrite Hd in Hd'. inversion Hd'; subst. exact Hge. }
        cbn [fst snd trace].
        split; [reflexivity|split; [|intros e He; discriminate He]].
        exists [ProcessSpawn command cwd; SignalOutput timeout_message].
        split; [reflexivity|].
        intros [H|[H|[]]]; discriminate H.
    + rewrite (run_timeout os command cwd w Hspawn).
      2:{ intros d' Hd'. rewrite Hd in Hd'. discriminate Hd'. }
      cbn [fst snd trace].
      split; [reflexivity|split; [|intros e He; discriminate He]].
      exists [ProcessSpawn command cwd; SignalOutput timeout_message].
      split; [reflexivity|].
      intros [H|[H|[]]]; discriminate H.
Qed.

Lemma completion_signalled_once_witness :
  run bare_os ["ruby"; "hello.rb"] "/home/u" initial_world
  = (Ok tt,
     mkWorld [SignalOutput (nl ++ "[Error: [Errno 2] No such file or directory]" ++ nl);
              SignalFinished]
             NoChild None).
Proof.
  destruct (completion_signalled_once bare_os ["ruby"; "hello.rb"] "/home/u"
                                      initial_world)
    as (Hok & _ & Herr).
  specialize (Herr (NotFound "[Errno 2] No such file or directory") eq_refl).
  destruct (run bare_os ["ruby"; "hello.rb"] "/home/u" initial_world) as [r w'].
  cbn [fst snd] in Hok, Herr. rewrite Hok, Herr. reflexivity.
Defined.

(** C6, what the code does.  When the child has not exited 60 seconds after
    the spawn, [run] emits the timeout message once and then the completion
    signal, but it never terminates the child: the process is still running
    when the thread is done. *)
Theorem timeout_leaves_child_running
        (os : os_env) (command : list string) (cwd : string) (w : world) :
  os_spawn os command cwd = None ->
  (forall d, exits_after (os_child os command) = Some d -> 60 <= d) ->
  run os command cwd w =
  (Ok tt,
   mkWorld (trace w ++ [ProcessSpawn command cwd; SignalOutput timeout_message;
                        SignalFinished])%list
           Running (tab_filepath w))
  /\ child (snd (run os command cwd w)) = Running.
Proof.
  intros Hspawn Hlate.
  rewrite (run_timeout os command cwd w Hspawn Hlate).
  split; reflexivity.
Qed.

Lemma timeout_leaves_child_running_witness :
  child (snd (run (example_os (mkChild None "" "" None))
                  ["python3"; "loop.py"] "/home/u" initial_world)) = Running.
Proof.
  apply (timeout_leaves_child_running
           (example_os (mkChild None "" "" None))
           ["python3"; "loop.py"] "/home/u" initial_world).
  - reflexivity.
  - intros d Hd. discriminate Hd.
Defined.

(** ** The compile step of get_run_command, and run_code *)

Section Invoker.

Variable os : os_env.

Lemma compile_then_missing (cmd : list string) (filepath : Path)
      (missing msg : string) (k : M (option (list string))) (w : world) :
  os_run os cmd (to_string (parent filepath)) = LaunchError (NotFound msg) ->
  compile_then os cmd filepath missing k w =
  (Ok None,
   mkWorld (trace w ++ [SubprocessRun cmd (to_string (parent filepath));
                        ConsoleAppend missing])%list
           (child w) (tab_filepath w)).
Proof.
  intros Hrun.
  unfold compile_then, try_except, subprocess_run, bind, log, raise, ret.
  cbn [trace child tab_filepath]. rewrite Hrun.
  cbn. rewrite <- app_assoc. reflexivity.
Qed.

Lemma compile_then_failed (cmd : list string) (filepath : Path)
      (missing out err : string) (rc : nat) (k : M (option (list string)))
      (w : world) :
  os_run os cmd (to_string (parent filepath)) = Exited rc out err ->
  rc <> 0 ->
  compile_then os cmd filepath missing k w =
  (Ok None,
   mkWorld (trace w ++ [SubprocessRun cmd (to_string (parent filepath));
                        ConsoleAppend (compilation_failed err)])%list
           (child w) (tab_filepath w)).
Proof.
  intros Hrun Hrc.
  unfold compile_then, try_except, subprocess_run, bind, log, raise, ret.
  cbn [trace child tab_filepath]. rewrite Hrun.
  apply Nat.eqb_neq in Hrc. rewrite Hrc.
  cbn. rewrite <- app_assoc. reflexivity.
Qed.

(** Each compiling branch is one compile step on a command that starts
    with the branch's compiler. *)
Lemma get_run_command_compiles (filepath : Path) (language t binary missing : string) :
  compiler_of t = Some (binary, missing) ->
  name filepath <> "" ->
  exists (compile_cmd : list string) (k : M (option (list string))),
    hd_error compile_cmd = Some binary
    /\ forall w, get_run_command os filepath language (Some (Tag t)) w
                 = compile_then os compile_cmd filepath missing k w.
Proof.
  intros Hc Hname. unfold compiler_of in Hc. unfold get_run_command.
  destruct (with_suffix_canonical filepath ".out" eq_refl Hname)
    as (exe & Hexe & _).
  destruct (with_suffix_canonical filepath ".js" eq_refl Hname)
    as (js & Hjs & _).
  unfold with_suffix_or_raise. rewrite Hexe, Hjs.
  repeat match type of Hc with
         | (if String.eqb t ?s then _ else _) = _ =>
             destruct (String.eqb t s);
             [inversion Hc; subst; eexists; eexists;
              split; [|intros w; reflexivity]; reflexivity|]
         end.
  discriminate Hc.
Qed.

(** [run_code] when no command comes back. *)
Lemma run_code_without_command (language t : string) (config : lang_config)
      (filepath : Path) (w : world) (evs : list event) :
  dict_get LANG_CONFIG language = Some config ->
  runner config = Tag t ->
  String.eqb t "browser" = false ->
  (forall w0, get_run_command os filepath language (Some (Tag t)) w0
              = (Ok None, mkWorld (trace w0 ++ evs)%list (child w0) (tab_filepath w0))) ->
  run_code os language filepath w =
  (Ok tt,
   mkWorld (trace w ++ run_banner language filepath ++ evs
            ++ [ConsoleAppend (cannot_run language); StatusMessage "Ready"])%list
           (child w) (tab_filepath w)).
Proof.
  intros Hcfg Hrunner Hbrowser Hcmd.
  unfold run_code. rewrite Hcfg. cbn [option_map]. rewrite Hrunner.
  cbn [is_tag]. rewrite Hbrowser.
  unfold bind, log. cbn [trace child tab_filepath].
  rewrite Hcmd. cbn.
  repeat rewrite <- app_assoc. reflexivity.
Qed.

Lemma compile_tag_not_browser (t binary missing : string) :
  compiler_of t = Some (binary, missing) -> String.eqb t "browser" = false.
Proof.
  unfold compiler_of.
  repeat match goal with
         | |- (if String.eqb t ?s then _ else _) = _ -> _ =>
             destruct (String.eqb_spec t s); [subst; reflexivity|]
         end.
  discriminate.
Qed.

Lemma missing_is_not_failed (t binary missing diagnostics : string) :
  compiler_of t = Some (binary, missing) ->
  missing <> compilation_failed diagnostics.
Proof.
  unfold compiler_of.
  repeat match goal with
         | |- (if String.eqb t ?s then _ else _) = _ -> _ =>
             destruct (String.eqb t s);
             [intros H; inversion H; subst; discriminate|]
         end.
  discriminate.
Qed.

End Invoker.

(** The report that each compiling branch of [get_run_command] gives for
    a missing compiler is the line that names its language and binary. *)
Lemma toolchain_report (t binary label : string) :
  toolchain_of t = Some (binary, label) ->
  compiler_of t = Some (binary, toolchain_missing label binary).
Proof.
  unfold toolchain_of, compiler_of.
  repeat match goal with
         | |- (if String.eqb t ?s then _ else _) = _ -> _ =>
             destruct (String.eqb t s);
             [intros H; injection H as <- <-; reflexivity|]
         end.
  discriminate.
Qed.

(** C5.  For a language whose runner compiles first (Java, C, C++, Rust,
    TypeScript, Kotlin) and a source path that names a file:

    - if the compiler binary is not found, [get_run_command] runs the
      compile command only, reports the missing toolchain on the console
      with the line [<Language> compiler (<binary>) not found in PATH],
      which names the language and the binary, and returns no command;
      [run_code] then starts no thread;
    - if the compiler exits with a non-zero status, [get_run_command]
      reports the failure with the compiler's diagnostics unchanged and
      returns no command; [run_code] then starts no thread;
    - the two reports are different texts, whatever the diagnostics. *)
Theorem failed_compile_starts_no_run
        (os : os_env) (language t binary label : string) (config : lang_config)
        (filepath : Path) (w : world) :
  dict_get LANG_CONFIG language = Some config ->
  runner config = Tag t ->
  toolchain_of t = Some (binary, label) ->
  name filepath <> "" ->
  exists compile_cmd : list string,
    hd_error compile_cmd = Some binary
    /\ (forall msg : string,
           (forall args cwd, os_run os (binary :: args) cwd = LaunchError (NotFound msg)) ->
           let report := [SubprocessRun compile_cmd (to_string (parent filepath));
                          ConsoleAppend (label ++ " compiler (" ++ binary
                                         ++ ") not found in PATH" ++ nl)] in
           get_run_command os filepath language (Some (Tag t)) w
           = (Ok None, mkWorld (trace w ++ report)%list (child w) (tab_filepath w))
           /\ run_code os language filepath w
              = (Ok tt,
                 mkWorld (trace w ++ run_banner language filepath ++ report
                          ++ [ConsoleAppend (cannot_run language);
                              StatusMessage "Ready"])%list
                         (child w) (tab_filepath w))
           /\ existsb is_thread_start
                      (trace (snd (run_code os language filepath w))) 
              = existsb is_thread_start (trace w))
    /\ (forall (rc : nat) (out diagnostics : string),
           rc <> 0 ->
           (forall args cwd, os_run os (binary :: args) cwd = Exited rc out diagnostics) ->
           let report := [SubprocessRun compile_cmd (to_string (parent filepath));
                          ConsoleAppend ("Compilation failed:" ++ nl ++ diagnostics ++ nl)] in
           get_run_command os filepath language (Some (Tag t)) w
           = (Ok None, mkWorld (trace w ++ report)%list (child w) (tab_filepath w))
           /\ run_code os language filepath w
              = (Ok tt,
                 mkWorld (trace w ++ run_banner language filepath ++ report
                          ++ [ConsoleAppend (cannot_run language);
                              StatusMessage "Ready"])%list
                         (child w) (tab_filepath w))
           /\ existsb is_thread_start
                      (trace (snd (run_code os language filepath w)))
              = existsb is_thread_start (trace w))
    /\ (forall diagnostics : string,
           label ++ " compiler (" ++ binary ++ ") not found in PATH" ++ nl
           <> "Compilation failed:" ++ nl ++ diagnostics ++ nl).
Proof.
  intros Hcfg Hrunner Htool Hname.
  pose proof (toolchain_report t binary label Htool) as Hcomp.
  fold (toolchain_missing label binary).
  set (missing := toolchain_missing label binary) in *.
  destruct (get_run_command_compiles os filepath language t binary missing
                                     Hcomp Hname)
    as (compile_cmd & k & Hhd & Hshape).
  destruct compile_cmd as [|b args]; [discriminate Hhd|].
  cbn in Hhd. inversion Hhd; subst b.
  pose proof (compile_tag_not_browser t binary missing Hcomp) as Hbrowser.
  exists (binary :: args). split; [reflexivity|]. split; [|split].
  - intros msg Hmissing report.
    assert (Hcmd : forall w0,
               get_run_command os filepath language (Some (Tag t)) w0
               = (Ok None, mkWorld (trace w0 ++ report)%list (child w0)
                                   (tab_filepath w0))).
    { intros w0. rewrite Hshape.
      apply (compile_then_missing os _ _ _ msg). apply Hmissing. }
    split; [apply Hcmd|].
    rewrite (run_code_without_command os language t config filepath w report
               Hcfg Hrunner Hbrowser Hcmd).
    split; [reflexivity|].
    cbn [snd trace]. rewrite existsb_app. cbn. apply orb_false_r.
  - intros rc out diagnostics Hrc Hfails report.
    assert (Hcmd : forall w0,
               get_run_command os filepath language (Some (Tag t)) w0
               = (Ok None, mkWorld (trace w0 ++ report)%list (child w0)
                                   (tab_filepath w0))).
    { intros w0. rewrite Hshape.
      apply (compile_then_failed os _ _ _ out diagnostics rc); [apply Hfails|exact Hrc]. }
    split; [apply Hcmd|].
    rewrite (run_code_without_command os language t config filepath w report
               Hcfg Hrunner Hbrowser Hcmd).
    split; [reflexivity|].
    cbn [snd trace]. rewrite existsb_app. cbn. apply orb_false_r.
  - intros diagnostics. apply (missing_is_not_failed t binary missing diagnostics Hcomp).
Qed.

Lemma failed_compile_starts_no_run_witness :
  (fst (get_run_command bare_os (of_string "/home/u/hello.c") "C" (Some (Tag "c"))
                        initial_world) = Ok None
   /\ In (ConsoleAppend ("C compiler (gcc) not found in PATH" ++ nl))
         (trace (snd (get_run_command bare_os (of_string "/home/u/hello.c") "C"
                                      (Some (Tag "c")) initial_world)))
   /\ existsb is_thread_start
              (trace (snd (run_code bare_os "C" (of_string "/home/u/hello.c")
                                    initial_world))) = false)
  /\ (In (ConsoleAppend ("Compilation failed:" ++ nl ++ "hello.c:1: error" ++ nl))
         (trace (snd (get_run_command (failing_os "hello.c:1: error")
                                      (of_string "/home/u/hello.c") "C"
                                      (Some (Tag "c")) initial_world)))
      /\ existsb is_thread_start
                 (trace (snd (run_code (failing_os "hello.c:1: error") "C"
                                       (of_string "/home/u/hello.c")
                                       initial_world))) = false).
Proof.
  split.
  - destruct (failed_compile_starts_no_run
                bare_os "C" "c" "gcc" "C"
                (mkConfig ".c" "examples/hello.c" "// " (Tag "c"))
                (of_string "/home/u/hello.c") initial_world
                eq_refl eq_refl eq_refl)
      as (cmd & _ & Hmissing & _ & _).
    + discriminate.
    + destruct (Hmissing "[Errno 2] No such file or directory"
                         (fun _ _ => eq_refl))
        as (Hget & _ & Hthreads).
      split; [rewrite Hget; reflexivity|].
      split; [rewrite Hget; cbn; right; left; reflexivity | exact Hthreads].
  - destruct (failed_compile_starts_no_run
                (failing_os "hello.c:1: error") "C" "c" "gcc" "C"
                (mkConfig ".c" "examples/hello.c" "// " (Tag "c"))
                (of_string "/home/u/hello.c") initial_world
                eq_refl eq_refl eq_refl)
      as (cmd & _ & _ & Hfailed & _).
    + discriminate.
    + destruct (Hfailed 1 "" "hello.c:1: error" (Nat.neq_succ_0 0)
                        (fun _ _ => eq_refl))
        as (Hget & _ & Hthreads).
      split; [rewrite Hget; cbn; right; left; reflexivity | exact Hthreads].
Defined.

(** ** The matcher *)

Section MatcherFacts.

Variable text : list ascii.

Lemma greedy_loop_forwards (body : nat -> (nat -> option nat) -> option nat)
      (k : nat -> option nat) (n : nat) :
  forwards text body -> forwards text (fun i k => greedy_loop body k n i).
Proof.
  intros Hbody. induction n as [|n IH]; intros i k' e Hi H; simpl in H.
  - exists i. split; [lia | exact H].
  - destruct (body i (fun j => if i <? j then greedy_loop body k' n j else None))
      as [e'|] eqn:Hb.
    + inversion H; subst e'.
      destruct (Hbody _ _ _ Hi Hb) as (j & Hj & Hk).
      destruct (Nat.ltb_spec i j) as [Hlt|_]; [|discriminate Hk].
      destruct (IH j k' e ltac:(lia) Hk) as (j' & Hj' & Hk').
      exists j'. split; [lia | exact Hk'].
    + exists i. split; [lia | exact H].
Qed.

Lemma lazy_loop_forwards (body : nat -> (nat -> option nat) -> option nat)
      (k : nat -> option nat) (n : nat) :
  forwards text body -> forwards text (fun i k => lazy_loop body k n i).
Proof.
  intros Hbody. induction n as [|n IH]; intros i k' e Hi H; simpl in H.
  - exists i. split; [lia | exact H].
  - destruct (k' i) as [e'|] eqn:Hk.
    + inversion H; subst e'. exists i. split; [lia | exact Hk].
    + destruct (Hbody _ _ _ Hi H) as (j & Hj & Hk').
      destruct (Nat.ltb_spec i j) as [Hlt|_]; [|discriminate Hk'].
      destruct (IH j k' e ltac:(lia) Hk') as (j' & Hj' & Hk'').
      exists j'. split; [lia | exact Hk''].
Qed.

Lemma match_from_forwards (r : regex) : forwards text (match_from text r).
Proof.
  induction r as [|f|r1 IH1 r2 IH2|r1 IH1|r1 IH1|r1 IH1| |r1 IH1];
    intros i k e Hi H; simpl in H.
  - exists i. split; [lia | exact H].
  - destruct (nth_error text i) as [c|] eqn:Hc; [|discriminate H].
    destruct (f c); [|discriminate H].
    assert (i < length text) by (apply nth_error_Some; congruence).
    exists (S i). split; [lia | exact H].
  - destruct (IH1 _ _ _ Hi H) as (j & Hj & Hk).
    destruct (IH2 j k e ltac:(lia) Hk) as (j' & Hj' & Hk').
    exists j'. split; [lia | exact Hk'].
  - exact (greedy_loop_forwards _ k _ IH1 i k e Hi H).
  - exact (lazy_loop_forwards _ k _ IH1 i k e Hi H).
  - destruct (match_from text r1 i k) as [e'|] eqn:Hm.
    + inversion H; subst e'. exact (IH1 _ _ _ Hi Hm).
    + exists i. split; [lia | exact H].
  - destruct (at_boundary text i); [|discriminate H].
    exists i. split; [lia | exact H].
  - destruct (match_from text r1 i (fun j => Some j)); [|discriminate H].
    exists i. split; [lia | exact H].
Qed.

(** A match lies in the text, and is not empty where it must advance. *)
Lemma match_accept_bounds (r : regex) (s : nat) (adv : bool) (e : nat) :
  s <= length text ->
  match_from text r s (accept s adv) = Some e ->
  s <= e <= length text /\ (adv = true -> s < e).
Proof.
  intros Hs H.
  destruct (match_from_forwards r _ _ _ Hs H) as (j & Hj & Hacc).
  unfold accept in Hacc.
  destruct adv; simpl in Hacc.
  - destruct (Nat.eqb_spec j s) as [->|Hne]; [discriminate Hacc|].
    inversion Hacc; subst. split; [lia | intros _; lia].
  - inversion Hacc; subst. split; [lia | discriminate].
Qed.

Lemma search_from_found (r : regex) (n pos : nat) (adv : bool) (s e : nat) :
  search_from text r n pos adv = Some (s, e) ->
  pos <= s <= pos + n
  /\ match_from text r s (accept s (adv && (s =? pos))) = Some e
  /\ forall q, pos <= q < s ->
               match_from text r q (accept q (adv && (q =? pos))) = None.
Proof.
  revert pos adv. induction n as [|n IH]; intros pos adv H; simpl in H.
  - destruct (match_from text r pos (accept pos adv)) as [e'|] eqn:Hm;
      [|discriminate H].
    inversion H; subst. rewrite Nat.eqb_refl, andb_true_r.
    split; [lia|]. split; [exact Hm | intros q Hq; lia].
  - destruct (match_from text r pos (accept pos adv)) as [e'|] eqn:Hm.
    + inversion H; subst. rewrite Nat.eqb_refl, andb_true_r.
      split; [lia|]. split; [exact Hm | intros q Hq; lia].
    + destruct (IH _ _ H) as (Hs & Hse & Hbefore). simpl in Hse.
      split; [lia|]. split.
      * replace (s =? pos) with false by (symmetry; apply Nat.eqb_neq; lia).
        rewrite andb_false_r. exact Hse.
      * intros q Hq. destruct (Nat.eq_dec q pos) as [->|Hne].
        -- rewrite Nat.eqb_refl, andb_true_r. exact Hm.
        -- replace (q =? pos) with false by (symmetry; apply Nat.eqb_neq; lia).
           rewrite andb_false_r.
           specialize (Hbefore q ltac:(lia)). simpl in Hbefore. exact Hbefore.
Qed.

Lemma search_from_nothing (r : regex) (n pos : nat) (adv : bool) :
  search_from text r n pos adv = None ->
  forall q, pos <= q <= pos + n ->
            match_from text r q (accept q (adv && (q =? pos))) = None.
Proof.
  revert pos adv. induction n as [|n IH]; intros pos adv H q Hq; simpl in H.
  - destruct (match_from text r pos (accept pos adv)) eqn:Hm; [discriminate H|].
    assert (q = pos) by lia. subst q.
    rewrite Nat.eqb_refl, andb_true_r. exact Hm.
  - destruct (match_from text r pos (accept pos adv)) eqn:Hm; [discriminate H|].
    destruct (Nat.eq_dec q pos) as [->|Hne].
    + rewrite Nat.eqb_refl, andb_true_r. exact Hm.
    + replace (q =? pos) with false by (symmetry; apply Nat.eqb_neq; lia).
      rewrite andb_false_r.
      specialize (IH _ _ H q ltac:(lia)). simpl in IH. exact IH.
Qed.

(** A search result lies in the text, from the start position on. *)
Lemma search_bounds (r : regex) (pos : nat) (adv : bool) (s e : nat) :
  search text r pos adv = Some (s, e) ->
  pos <= s /\ s <= e /\ e <= length text /\ (adv = true -> s = pos -> s < e).
Proof.
  unfold search. intros H.
  destruct (Nat.ltb_spec (length text) pos) as [_|Hpos]; [discriminate H|].
  destruct (search_from_found _ _ _ _ _ _ H) as (Hs & Hm & _).
  destruct (match_accept_bounds r s _ e ltac:(lia) Hm) as (He & Hadv).
  repeat split; try lia.
  intros -> ->. apply Hadv. rewrite Nat.eqb_refl. reflexivity.
Qed.

(** Enough fuel: beyond [scan_bound], more fuel changes nothing. *)
Lemma finditer_from_stable (r : regex) (fuel fuel' pos : nat) (adv : bool) :
  scan_bound text pos adv <= fuel ->
  scan_bound text pos adv <= fuel' ->
  finditer_from text r fuel pos adv = finditer_from text r fuel' pos adv.
Proof.
  revert fuel' pos adv.
  induction fuel as [|fuel IH]; intros fuel' pos adv H1 H2.
  - unfold scan_bound in H1. destruct adv; lia.
  - destruct fuel' as [|fuel']; [unfold scan_bound in H2; destruct adv; lia|].
    simpl. destruct (search text r pos adv) as [[s e]|] eqn:Hs; [|reflexivity].
    destruct (search_bounds _ _ _ _ _ Hs) as (Hps & Hse & He & Hadv).
    f_equal.
    assert (Hless : scan_bound text e (e =? s) < scan_bound text pos adv).
    { unfold scan_bound in *.
      destruct (Nat.eqb_spec e s) as [->|Hne].
      - destruct adv.
        + destruct (Nat.eq_dec s pos) as [->|Hsp].
          * specialize (Hadv eq_refl eq_refl). lia.
          * lia.
        + lia.
      - destruct adv; lia. }
    apply IH; lia.
Qed.

(** The scan of [finditer] is complete: it has all the fuel it can use. *)
Lemma finditer_enough_fuel (r : regex) (fuel : nat) :
  scan_bound text 0 false <= fuel ->
  finditer_from text r fuel 0 false = finditer text r.
Proof.
  intros H. unfold finditer. apply finditer_from_stable; [exact H | lia].
Qed.

(** Every match of a scan lies in the text. *)
Lemma finditer_from_bounds (r : regex) (fuel pos : nat) (adv : bool) (s e : nat) :
  In (s, e) (finditer_from text r fuel pos adv) ->
  pos <= s /\ s <= e /\ e <= length text.
Proof.
  revert pos adv. induction fuel as [|fuel IH]; intros pos adv H; simpl in H.
  - contradiction.
  - destruct (search text r pos adv) as [[s0 e0]|] eqn:Hs; [|contradiction].
    destruct (search_bounds _ _ _ _ _ Hs) as (Hps & Hse & He & _).
    destruct H as [H|H].
    + inversion H; subst. lia.
    + specialize (IH _ _ H). lia.
Qed.

(** The matches of one scan do not overlap and come in text order: each
    one starts at or after the end of all those before it. *)
Lemma finditer_from_disjoint (r : regex) (fuel pos : nat) (adv : bool) :
  StronglySorted (fun a b : nat * nat => snd a <= fst b)
                 (finditer_from text r fuel pos adv).
Proof.
  revert pos adv. induction fuel as [|fuel IH]; intros pos adv; simpl.
  - constructor.
  - destruct (search text r pos adv) as [[s e]|]; [|constructor].
    constructor; [apply IH|].
    apply Forall_forall. intros [s' e'] Hin.
    apply finditer_from_bounds in Hin. simpl. lia.
Qed.

Lemma finditer_bounds (r : regex) (s e : nat) :
  In (s, e) (finditer text r) -> s <= e /\ e <= length text.
Proof.
  intros H. apply finditer_from_bounds in H. lia.
Qed.

End MatcherFacts.

(** ** The format buffer *)

Section BufferFacts.

Lemma length_set_at (i : nat) (fmt : QTextCharFormat) (buf : format_buffer) :
  length (set_at i fmt buf) = length buf.
Proof.
  revert i. induction buf as [|x buf IH]; intros i; destruct i; simpl;
    try reflexivity.
  rewrite IH. reflexivity.
Qed.

Lemma length_set_range (i n : nat) (fmt : QTextCharFormat) (buf : format_buffer) :
  length (set_range i n fmt buf) = length buf.
Proof.
  revert i buf. induction n as [|n IH]; intros i buf; simpl.
  - reflexivity.
  - rewrite IH. apply length_set_at.
Qed.

Lemma length_setFormat (start count : nat) (fmt : QTextCharFormat)
      (buf : format_buffer) :
  length (setFormat start count fmt buf) = length buf.
Proof.
  unfold setFormat. destruct (length buf <=? start); [reflexivity|].
  apply length_set_range.
Qed.

Lemma nth_set_at (i p : nat) (fmt : QTextCharFormat) (buf : format_buffer) :
  nth p (set_at i fmt buf) None
  = if (p =? i) && (i <? length buf) then Some fmt else nth p buf None.
Proof.
  revert i p. induction buf as [|x buf IH]; intros i p.
  - destruct i; simpl; rewrite andb_false_r; destruct p; reflexivity.
  - destruct i as [|i]; destruct p as [|p]; simpl; try reflexivity.
    rewrite IH. reflexivity.
Qed.

Lemma nth_set_range (i n p : nat) (fmt : QTextCharFormat) (buf : format_buffer) :
  nth p (set_range i n fmt buf) None
  = if (i <=? p) && (p <? i + n) && (p <? length buf) then Some fmt
    else nth p buf None.
Proof.
  revert i buf. induction n as [|n IH]; intros i buf; simpl.
  - replace ((i <=? p) && (p <? i + 0)) with false; [reflexivity|].
    symmetry. apply andb_false_iff.
    destruct (Nat.leb_spec i p); [right; apply Nat.ltb_ge; lia | left; reflexivity].
  - rewrite IH, length_set_at, nth_set_at.
    destruct (Nat.leb_spec (S i) p), (Nat.leb_spec i p), (Nat.ltb_spec p (S i + n)),
      (Nat.ltb_spec p (i + S n)), (Nat.ltb_spec p (length buf)),
      (Nat.eqb_spec p i), (Nat.ltb_spec i (length buf));
      simpl; try reflexivity; lia.
Qed.

(** [setFormat] overwrites the offsets of its range that lie in the
    block, and no other. *)
Lemma format_at_setFormat (start count p : nat) (fmt : QTextCharFormat)
      (buf : format_buffer) :
  format_at (setFormat start count fmt buf) p
  = if (start <=? p) && (p <? start + count) && (p <? length buf) then Some fmt
    else format_at buf p.
Proof.
  unfold format_at, setFormat.
  destruct (Nat.leb_spec (length buf) start) as [Hout|Hin].
  - destruct (Nat.leb_spec start p), (Nat.ltb_spec p (length buf));
      simpl; try rewrite andb_false_r; try reflexivity; lia.
  - rewrite nth_set_range.
    destruct (Nat.leb_spec start p), (Nat.ltb_spec p (length buf)),
      (Nat.ltb_spec p (start + count)),
      (Nat.ltb_spec p (start + (Nat.min (start + count) (length buf) - start)));
      simpl; try reflexivity; lia.
Qed.

Lemma length_chars (text : string) : length (Str.chars text) = String.length text.
Proof.
  unfold Str.chars. induction text as [|c text IH]; simpl;
    [reflexivity | rewrite IH; reflexivity].
Qed.

(** One rule: the offsets that one of its matches covers take the rule's
    format, the others keep theirs. *)
Lemma apply_matches_at (fmt : QTextCharFormat) (ms : list (nat * nat))
      (buf : format_buffer) (p : nat) :
  format_at
    (fold_left (fun b (m : nat * nat) => setFormat (fst m) (snd m - fst m) fmt b)
               ms buf) p
  = if existsb (fun m => covers m p) ms && (p <? length buf) then Some fmt
    else format_at buf p.
Proof.
  revert buf. induction ms as [|[s e] ms IH]; intros buf; simpl.
  - reflexivity.
  - rewrite IH, length_setFormat, format_at_setFormat. unfold covers. simpl.
    destruct (existsb (fun m => (fst m <=? p) && (p <? snd m)) ms);
      destruct (Nat.leb_spec s p), (Nat.ltb_spec p e),
        (Nat.ltb_spec p (s + (e - s))), (Nat.ltb_spec p (length buf));
      simpl; try reflexivity; lia.
Qed.

Lemma apply_rule_at (text : string) (r : rule) (buf : format_buffer) (p : nat) :
  format_at (apply_rule text r buf) p
  = if rule_covers text r p && (p <? length buf) then Some (snd r)
    else format_at buf p.
Proof. unfold apply_rule, rule_covers. apply apply_matches_at. Qed.

Lemma length_apply_rule (text : string) (r : rule) (buf : format_buffer) :
  length (apply_rule text r buf) = length buf.
Proof.
  unfold apply_rule. revert buf.
  induction (finditer (Str.chars text) (fst r)) as [|m ms IH]; intros buf; simpl.
  - reflexivity.
  - rewrite IH. apply length_setFormat.
Qed.

(** Rules that cover nothing at [p] leave the format at [p] alone. *)
Lemma apply_rules_elsewhere (text : string) (rules : list rule)
      (buf : format_buffer) (p : nat) :
  (forall r, In r rules -> rule_covers text r p = false) ->
  format_at (fold_left (fun b r => apply_rule text r b) rules buf) p
  = format_at buf p.
Proof.
  revert buf. induction rules as [|r rules IH]; intros buf Hno; simpl.
  - reflexivity.
  - rewrite IH by (intros r' Hr'; apply Hno; right; exact Hr').
    rewrite apply_rule_at, (Hno r (or_introl eq_refl)). reflexivity.
Qed.

Lemma length_apply_rules (text : string) (rules : list rule) (buf : format_buffer) :
  length (fold_left (fun b r => apply_rule text r b) rules buf) = length buf.
Proof.
  revert buf. induction rules as [|r rules IH]; intros buf; simpl.
  - reflexivity.
  - rewrite IH. apply length_apply_rule.
Qed.

(** A covered offset lies in the block. *)
Lemma rule_covers_in_block (text : string) (r : rule) (p : nat) :
  rule_covers text r p = true -> p < String.length text.
Proof.
  unfold rule_covers. intros H. apply existsb_exists in H.
  destruct H as ([s e] & Hin & Hcov).
  apply finditer_bounds in Hin. rewrite length_chars in Hin.
  unfold covers in Hcov. simpl in Hcov.
  apply andb_true_iff in Hcov. destruct Hcov as [_ Hlt].
  apply Nat.ltb_lt in Hlt. lia.
Qed.

(** The last rule of the list that covers an offset decides its format. *)
Lemma last_covering_rule_wins (text : string) (earlier later : list rule)
      (r : rule) (p : nat) :
  rule_covers text r p = true ->
  (forall r', In r' later -> rule_covers text r' p = false) ->
  format_at (highlightBlock (earlier ++ r :: later) text) p = Some (snd r).
Proof.
  intros Hcov Hlater. unfold highlightBlock.
  rewrite fold_left_app. simpl.
  rewrite (apply_rules_elsewhere text later _ p Hlater).
  rewrite apply_rule_at, Hcov, length_apply_rules, repeat_length.
  pose proof (rule_covers_in_block text r p Hcov) as Hp.
  apply Nat.ltb_lt in Hp. rewrite Hp. reflexivity.
Qed.

(** Every span of a rule list carries the format of one of its rules. *)
Lemma token_spans_format (rules : list rule) (text : string) (sp : span) :
  In sp (token_spans rules text) -> exists r, In r rules /\ snd sp = snd r.
Proof.
  unfold token_spans. intros H. apply in_flat_map in H.
  destruct H as (r & Hr & Hsp). exists r. split; [exact Hr|].
  unfold rule_spans in Hsp. apply in_map_iff in Hsp.
  destruct Hsp as (m & <- & _). reflexivity.
Qed.

End BufferFacts.

(** ** The rule list and its compositing *)

Section RuleFacts.

(** The pattern built from a keyword reads the keyword literally. *)
Lemma keywords_are_literal :
  forallb (fun kv : string * list string =>
             forallb (fun word => negb (existsb is_special (Str.chars word)))
                     (snd kv))
          LANGUAGE_KEYWORDS = true.
Proof. vm_compute. reflexivity. Qed.

Lemma comment_rules_format (language : string) (r : rule) :
  In r (comment_rules language) -> snd r = comment_format.
Proof.
  unfold comment_rules.
  repeat match goal with
         | |- In _ (if ?b then _ else _) -> _ => destruct b
         end;
    simpl; intros H;
    repeat (destruct H as [H|H]; [subst r; reflexivity|]); contradiction.
Qed.

Lemma common_rules_format (r : rule) :
  In r common_rules ->
  snd r = string_format \/ snd r = number_format \/ snd r = function_format.
Proof.
  simpl. intros H.
  repeat (destruct H as [H|H]; [subst r; simpl; auto|]). contradiction.
Qed.

Lemma setup_rules_shape (language : string) :
  setup_rules language
  = (map (fun word => (keyword_pattern word, keyword_format)) (keywords_of language)
     ++ common_rules ++ comment_rules language)%list.
Proof. reflexivity. Qed.

(** The comment rules come last, after rules of other formats only. *)
Lemma comment_rules_last (language : string) :
  exists pre : list rule,
    setup_rules language = (pre ++ comment_rules language)%list
    /\ forall r, In r pre -> snd r <> comment_format.
Proof.
  exists (map (fun word => (keyword_pattern word, keyword_format))
              (keywords_of language) ++ common_rules)%list.
  split.
  - rewrite setup_rules_shape, <- app_assoc. reflexivity.
  - intros r Hr. apply in_app_or in Hr. destruct Hr as [Hr|Hr].
    + apply in_map_iff in Hr. destruct Hr as (word & <- & _). discriminate.
    + destruct (common_rules_format r Hr) as [H|[H|H]]; rewrite H; discriminate.
Qed.

End RuleFacts.

(** C3.  For every language and text, the format shown at an offset is
    that of the last rule of the language's rule list with a match that
    covers the offset, whatever rules before it matched there.  The comment
    rules are the last of every rule list.  In the text [# if True] the
    keyword rules of Python match [if] and [True]; for every registered
    language whose line comments start with [#] (Python, Ruby, Nix) the
    comment rule, applied after them, leaves the comment format on all nine
    characters of the line. *)
Theorem later_rule_wins :
  (forall (language text : string) (earlier later : list rule) (r : rule) (p : nat),
      setup_rules language = (earlier ++ r :: later)%list ->
      rule_covers text r p = true ->
      (forall r', In r' later -> rule_covers text r' p = false) ->
      format_at (highlight language text) p = Some (snd r))
  /\ (forall language : string,
         exists pre : list rule,
           setup_rules language = (pre ++ comment_rules language)%list
           /\ forall r, In r pre -> snd r <> comment_format)
  /\ classify "Python" "# if True"
     = [(2, 2, keyword_format); (5, 4, keyword_format); (0, 9, comment_format)]
  /\ (forall (language : string) (config : lang_config),
         In (language, config) LANG_CONFIG ->
         comment config = "# " ->
         highlight language "# if True" = repeat (Some comment_format) 9).
Proof.
  split; [|split; [|split]].
  - intros language text earlier later r p Hrules Hcov Hlater.
    unfold highlight. rewrite Hrules.
    apply last_covering_rule_wins; assumption.
  - exact comment_rules_last.
  - vm_compute. reflexivity.
  - intros language config Hin Hmarker.
    each_language Hin; cbn [comment] in Hmarker; try discriminate Hmarker;
      vm_compute; reflexivity.
Qed.

Lemma later_rule_wins_witness :
  rule_covers "# if True" (keyword_pattern "if", keyword_format) 2 = true
  /\ format_at (highlight "Python" "# if True") 2 = Some comment_format.
Proof.
  split; [vm_compute; reflexivity|].
  apply (proj1 later_rule_wins "Python" "# if True"
               (removelast (setup_rules "Python")) []
               (hash_comment, comment_format) 2).
  - vm_compute. reflexivity.
  - vm_compute. reflexivity.
  - intros r' [].
Defined.

(** C4, as stated, fails: a language id that neither table knows still
    gets the four rules that every language gets, and its text is given
    spans. *)
Lemma unregistered_language_counterexample :
  dict_get LANGUAGE_KEYWORDS "Klingon" = None
  /\ dict_get LANG_CONFIG "Klingon" = None
  /\ length (setup_rules "Klingon") = 4
  /\ classify "Klingon" "f(1)" = [(2, 1, number_format); (0, 1, function_format)].
Proof. repeat split; vm_compute; reflexivity. Qed.

(** C4, amended.  For every language id that is not in the keyword
    registry, the rule list has no keyword rule: it is the two string
    rules, the number rule and the call-target rule, followed by the
    comment rules of the id.  Classifying any text returns (no error), and
    none of its spans has the keyword format. *)
Theorem unregistered_language_rules (language text : string) :
  dict_get LANGUAGE_KEYWORDS language = None ->
  setup_rules language = (common_rules ++ comment_rules language)%list
  /\ 4 <= length (setup_rules language)
  /\ forall sp : span, In sp (classify language text) -> snd sp <> keyword_format.
Proof.
  intros Hnone.
  assert (Hrules : setup_rules language = (common_rules ++ comment_rules language)%list).
  { rewrite setup_rules_shape. unfold keywords_of. rewrite Hnone. reflexivity. }
  split; [exact Hrules|]. split.
  - rewrite Hrules, length_app. simpl. lia.
  - intros sp Hsp. unfold classify in Hsp.
    destruct (token_spans_format _ _ _ Hsp) as (r & Hr & ->).
    rewrite Hrules in Hr. apply in_app_or in Hr. destruct Hr as [Hr|Hr].
    + destruct (common_rules_format r Hr) as [H|[H|H]]; rewrite H; discriminate.
    + rewrite (comment_rules_format language r Hr). discriminate.
Qed.

Lemma unregistered_language_rules_witness :
  setup_rules "Klingon" = common_rules
  /\ forall sp : span, In sp (classify "Klingon" "f(1)") -> snd sp <> keyword_format.
Proof.
  destruct (unregistered_language_rules "Klingon" "f(1)" eq_refl)
    as (Hrules & _ & Hspans).
  split; [rewrite Hrules; reflexivity | exact Hspans].
Defined.

(** ** The call-target rule *)

Section RunLength.

Variable f : ascii -> bool.

Lemma run_length_inside (l : list ascii) (j : nat) :
  j < run_length f l -> exists c, nth_error l j = Some c /\ f c = true.
Proof.
  revert j. induction l as [|a l IH]; intros j Hj; simpl in Hj.
  - lia.
  - destruct (f a) eqn:Ha; [|lia].
    destruct j as [|j]; simpl.
    + exists a. split; [reflexivity | exact Ha].
    + apply IH. lia.
Qed.

Lemma run_length_stop (l : list ascii) (c : ascii) :
  nth_error l (run_length f l) = Some c -> f c = false.
Proof.
  induction l as [|a l IH]; simpl.
  - discriminate.
  - destruct (f a) eqn:Ha; simpl.
    + exact IH.
    + intros H. inversion H; subst. exact Ha.
Qed.

Lemma run_length_exact (l : list ascii) (m : nat) :
  (forall j, j < m -> exists c, nth_error l j = Some c /\ f c = true) ->
  (forall c, nth_error l m = Some c -> f c = false) ->
  run_length f l = m.
Proof.
  revert m. induction l as [|a l IH]; intros m Hin Hstop; simpl.
  - destruct m as [|m]; [reflexivity|].
    destruct (Hin 0 ltac:(lia)) as (c & Hc & _). discriminate Hc.
  - destruct m as [|m].
    + rewrite (Hstop a eq_refl). reflexivity.
    + destruct (Hin 0 ltac:(lia)) as (c & Hc & Hfc). simpl in Hc.
      inversion Hc; subst c. rewrite Hfc. f_equal.
      apply IH.
      * intros j Hj. apply (Hin (S j)). lia.
      * intros c Hc'. apply Hstop. exact Hc'.
Qed.

Lemma run_length_bound (l : list ascii) : run_length f l <= length l.
Proof.
  induction l as [|a l IH]; simpl; [lia|]. destruct (f a); lia.
Qed.

End RunLength.

Section GreedyClass.

Variable text : list ascii.
Variable f : ascii -> bool.

Lemma skipn_step (i : nat) :
  skipn i text = match nth_error text i with
                 | Some c => c :: skipn (S i) text
                 | None => []
                 end.
Proof.
  revert i. induction text as [|a l IH]; intros i.
  - destruct i; reflexivity.
  - destruct i as [|i]; [reflexivity|]. simpl. apply IH.
Qed.

(** A greedy repeat of a character class takes the whole run of the
    class when the rest of the match cannot succeed inside the run. *)
Lemma greedy_class_run (k : nat -> option nat) (n i : nat) :
  run_length f (skipn i text) <= n ->
  (forall j, i <= j < i + run_length f (skipn i text) -> k j = None) ->
  greedy_loop (match_from text (Set_ f)) k n i
  = k (i + run_length f (skipn i text)).
Proof.
  revert i. induction n as [|n IH]; intros i Hn Hinside.
  - cbn [greedy_loop]. replace (run_length f (skipn i text)) with 0 by lia.
    rewrite Nat.add_0_r. reflexivity.
  - cbn [greedy_loop match_from].
    rewrite (skipn_step i) in Hn, Hinside |- *.
    destruct (nth_error text i) as [c|] eqn:Hc; cbn [run_length] in *.
    + destruct (f c) eqn:Hfc.
      * replace (i <? S i) with true by (symmetry; apply Nat.ltb_lt; lia).
        rewrite IH; [|lia|intros j Hj; apply Hinside; lia].
        replace (i + S (run_length f (skipn (S i) text)))
          with (S i + run_length f (skipn (S i) text)) by lia.
        destruct (k (S i + run_length f (skipn (S i) text))); [reflexivity|].
        apply Hinside. lia.
      * rewrite Nat.add_0_r. reflexivity.
    + rewrite Nat.add_0_r. reflexivity.
Qed.

End GreedyClass.

Section CharacterClasses.

Lemma ident_start_is_ident_char (c : ascii) :
  is_ident_start c = true -> is_ident_char c = true.
Proof.
  destruct c as [[] [] [] [] [] [] [] []]; vm_compute; intros H;
    first [reflexivity | discriminate H].
Qed.

Lemma ident_char_is_word (c : ascii) :
  is_ident_char c = true -> is_word c = true.
Proof.
  destruct c as [[] [] [] [] [] [] [] []]; vm_compute; intros H;
    first [reflexivity | discriminate H].
Qed.

Lemma ident_char_not_paren (c : ascii) :
  is_ident_char c = true -> Ascii.eqb "("%char c = false.
Proof.
  destruct c as [[] [] [] [] [] [] [] []]; vm_compute; intros H;
    first [reflexivity | discriminate H].
Qed.

End CharacterClasses.

Section CallTarget.

Variable text : list ascii.

Lemma run_in_text (f : ascii -> bool) (i : nat) :
  run_length f (skipn i text) <= length text.
Proof.
  pose proof (run_length_bound f (skipn i text)) as H.
  rewrite length_skipn in H. lia.
Qed.

(** The characters of the run after [i] are letters, digits or
    underscores. *)
Lemma run_chars (i j : nat) :
  S i <= j < S i + run_length is_ident_char (skipn (S i) text) ->
  exists c, nth_error text j = Some c /\ is_ident_char c = true.
Proof.
  intros Hj.
  destruct (run_length_inside is_ident_char (skipn (S i) text) (j - S i)
                              ltac:(lia))
    as (c & Hc & Hfc).
  rewrite nth_error_skipn in Hc.
  replace (S i + (j - S i)) with j in Hc by lia.
  exists c. split; assumption.
Qed.

(** The pattern matches at [i] exactly as [call_end] says, and hands the
    end of the identifier, not of the parenthesis, to the rest. *)
Lemma function_pattern_match (i : nat) (k : nat -> option nat) :
  match_from text function_pattern i k
  = match call_end text i with
    | Some e => k e
    | None => None
    end.
Proof.
  unfold function_pattern, call_end.
  change (match_from text (Cat Boundary ?r) i k)
    with (if at_boundary text i then match_from text r i k else None).
  destruct (at_boundary text i); [|reflexivity].
  change (match_from text (Cat (Set_ is_ident_start) ?r) i k)
    with (match nth_error text i with
          | Some c => if is_ident_start c then match_from text r (S i) k else None
          | None => None
          end).
  destruct (nth_error text i) as [c|]; [|reflexivity].
  destruct (is_ident_start c); [|reflexivity].
  change (match_from text (Cat (Star (Set_ is_ident_char)) ?r) (S i) k)
    with (greedy_loop (match_from text (Set_ is_ident_char))
                      (fun j => match_from text r j k) (length text) (S i)).
  rewrite greedy_class_run.
  - cbv zeta. unfold chr. cbn [match_from].
    destruct (nth_error text (S i + run_length is_ident_char (skipn (S i) text)))
      as [c'|]; [|reflexivity].
    destruct (Ascii.eqb "("%char c'); reflexivity.
  - apply run_in_text.
  - intros j Hj. destruct (run_chars i j Hj) as (c' & Hc' & Hfc').
    unfold chr. cbn [match_from].
    rewrite Hc', (ident_char_not_paren c' Hfc'). reflexivity.
Qed.

Lemma call_end_spec (s e : nat) :
  call_end text s = Some e <-> call_target text s e.
Proof.
  unfold call_end, call_target, at_boundary. split.
  - intros H.
    destruct (negb (Bool.eqb (word_at text s)
                             match s with 0 => false | S j => word_at text j end))
             eqn:Hb; [|discriminate H].
    destruct (nth_error text s) as [c|] eqn:Hc; [|discriminate H].
    destruct (is_ident_start c) eqn:Hstart; [|discriminate H].
    cbv zeta in H. pose proof (run_chars s) as Hrun.
    set (m := run_length is_ident_char (skipn (S s) text)) in *.
    destruct (nth_error text (S s + m)) as [c'|] eqn:Hc'; [|discriminate H].
    destruct (Ascii.eqb_spec "("%char c') as [<-|_]; [|discriminate H].
    assert (He : e = S s + m) by congruence. subst e. clear H.
    assert (Hword : word_at text s = true).
    { unfold word_at. rewrite Hc.
      apply ident_char_is_word, ident_start_is_ident_char, Hstart. }
    rewrite Hword in Hb.
    split; [lia|]. split; [|split; [|split]].
    + destruct s as [|j]; [left; reflexivity|].
      right. exists j. split; [reflexivity|].
      destruct (word_at text j); [discriminate Hb | reflexivity].
    + exists c. split; [reflexivity | exact Hstart].
    + intros i Hi. destruct (Nat.eq_dec i s) as [->|Hne].
      * exists c. split; [exact Hc | apply ident_start_is_ident_char, Hstart].
      * apply Hrun. lia.
    + exact Hc'.
  - intros (Hlt & Hleft & (c & Hc & Hstart) & Hchars & Hparen).
    assert (Hword : word_at text s = true).
    { unfold word_at. rewrite Hc.
      apply ident_char_is_word, ident_start_is_ident_char, Hstart. }
    rewrite Hword.
    assert (Hprev : match s with 0 => false | S j => word_at text j end = false).
    { destruct Hleft as [->|(j & -> & Hj)]; [reflexivity | exact Hj]. }
    rewrite Hprev. cbn [Bool.eqb negb]. rewrite Hc, Hstart. cbv zeta.
    assert (Hrun : run_length is_ident_char (skipn (S s) text) = e - S s).
    { apply run_length_exact.
      - intros j Hj. rewrite nth_error_skipn. apply Hchars. lia.
      - intros c' Hc'. rewrite nth_error_skipn in Hc'.
        replace (S s + (e - S s)) with e in Hc' by lia.
        rewrite Hparen in Hc'. inversion Hc'; subst c'. reflexivity. }
    rewrite Hrun. replace (S s + (e - S s)) with e by lia.
    rewrite Hparen, Ascii.eqb_refl. reflexivity.
Qed.

(** No match starts inside another one: there is no word boundary
    between two characters of an identifier. *)
Lemma call_end_inside (s e q : nat) :
  call_end text s = Some e -> s < q < e -> call_end text q = None.
Proof.
  intros H Hq. apply call_end_spec in H.
  destruct H as (_ & _ & _ & Hchars & _).
  unfold call_end, at_boundary.
  destruct q as [|j]; [lia|].
  destruct (Hchars j ltac:(lia)) as (a & Ha & Hfa).
  destruct (Hchars (S j) ltac:(lia)) as (b & Hb & Hfb).
  unfold word_at. rewrite Ha, Hb.
  rewrite (ident_char_is_word a Hfa), (ident_char_is_word b Hfb).
  reflexivity.
Qed.

Lemma call_end_bounds (s e : nat) :
  call_end text s = Some e -> s < e /\ e < length text.
Proof.
  intros H. apply call_end_spec in H.
  destruct H as (Hlt & _ & _ & _ & Hparen).
  split; [exact Hlt|]. apply nth_error_Some. congruence.
Qed.

(** A scan from [pos] finds the matches that start at [pos] or later. *)
Lemma finditer_from_call_targets (fuel pos : nat) (adv : bool) (s e : nat) :
  length text - pos < fuel ->
  (In (s, e) (finditer_from text function_pattern fuel pos adv)
   <-> pos <= s /\ call_end text s = Some e).
Proof.
  revert pos adv. induction fuel as [|fuel IH]; intros pos adv Hfuel; [lia|].
  assert (Hacc : forall q b, match_from text function_pattern q (accept q b)
                             = call_end text q).
  { intros q b. rewrite function_pattern_match.
    destruct (call_end text q) as [e'|] eqn:He'; [|reflexivity].
    apply call_end_bounds in He'. unfold accept.
    replace (e' =? q) with false by (symmetry; apply Nat.eqb_neq; lia).
    rewrite andb_false_r. reflexivity. }
  cbn [finditer_from]. unfold search.
  destruct (Nat.ltb_spec (length text) pos) as [Hout|Hin].
  - split; [intros []|].
    intros (Hs & He). apply call_end_bounds in He. lia.
  - destruct (search_from text function_pattern (length text - pos) pos adv)
      as [[s0 e0]|] eqn:Hsearch.
    + destruct (search_from_found _ _ _ _ _ _ _ Hsearch) as (Hs0 & Hm0 & Hbefore).
      rewrite Hacc in Hm0.
      pose proof (call_end_bounds _ _ Hm0) as Hb0.
      cbn [In]. rewrite (IH e0 (e0 =? s0) ltac:(lia)).
      split.
      * intros [H|(Hes & He)].
        -- inversion H; subst. split; [lia | exact Hm0].
        -- split; [lia | exact He].
      * intros (Hs & He).
        destruct (Nat.lt_trichotomy s s0) as [Hlt|[->|Hgt]].
        -- specialize (Hbefore s ltac:(lia)). rewrite Hacc in Hbefore. congruence.
        -- left. congruence.
        -- right. split; [|exact He].
           destruct (Nat.le_gt_cases e0 s) as [Hle|Hin']; [exact Hle|].
           rewrite (call_end_inside s0 e0 s Hm0 ltac:(lia)) in He. discriminate He.
    + split; [intros []|].
      intros (Hs & He). pose proof (call_end_bounds _ _ He) as Hb.
      pose proof (search_from_nothing _ _ _ _ _ Hsearch s ltac:(lia)) as Hnone.
      rewrite Hacc in Hnone. congruence.
Qed.

Lemma finditer_call_targets (s e : nat) :
  In (s, e) (finditer text function_pattern) <-> call_target text s e.
Proof.
  unfold finditer. rewrite finditer_from_call_targets.
  - rewrite call_end_spec. split; [intros [_ H]; exact H | intros H; split; [lia | exact H]].
  - unfold scan_bound. lia.
Qed.

End CallTarget.

(** The spans of a rule do not overlap and come in text order. *)
Lemma rule_spans_disjoint (text : string) (r : rule) :
  StronglySorted (fun a b : span => fst (fst a) + snd (fst a) <= fst (fst b))
                 (rule_spans text r).
Proof.
  unfold rule_spans, finditer.
  pose proof (finditer_from_disjoint (Str.chars text) (fst r)
                (scan_bound (Str.chars text) 0 false) 0 false) as Hsorted.
  assert (Hbounds : Forall (fun m : nat * nat => fst m <= snd m)
                           (finditer_from (Str.chars text) (fst r)
                              (scan_bound (Str.chars text) 0 false) 0 false)).
  { apply Forall_forall. intros [s e] Hin.
    apply finditer_from_bounds in Hin. simpl. lia. }
  induction Hsorted as [|m ms Hms IH Hall]; simpl.
  - constructor.
  - inversion Hbounds as [|? ? Hm Hrest]; subst.
    constructor; [apply IH; exact Hrest|].
    apply Forall_forall. intros sp Hsp. apply in_map_iff in Hsp.
    destruct Hsp as (m' & <- & Hm'). simpl.
    rewrite Forall_forall in Hall. specialize (Hall m' Hm'). lia.
Qed.

(** C8.  For every text, the call-target rule marks exactly the
    identifier-shaped tokens that an opening parenthesis follows: a span
    of [len] characters from [s] is among its spans if and only if no word
    character stands before [s], the [len] characters are an identifier,
    and the character after them is the parenthesis, which stays outside
    the span.  The spans come in text order, each token once.  In [foo(bar)] the rule marks [foo], the first three characters,
    and nothing else; so does the whole rule list of a language in which
    neither word is a keyword. *)
Theorem call_target_rule :
  (forall (text : string) (s len : nat),
      In (s, len, function_format)
         (rule_spans text (function_pattern, function_format))
      <-> call_target (Str.chars text) s (s + len))
  /\ (forall text : string,
         StronglySorted
           (fun a b : span => fst (fst a) + snd (fst a) <= fst (fst b))
           (rule_spans text (function_pattern, function_format)))
  /\ rule_spans "foo(bar)" (function_pattern, function_format)
     = [(0, 3, function_format)]
  /\ classify "Python" "foo(bar)" = [(0, 3, function_format)]
  /\ highlight "Python" "foo(bar)"
     = [Some function_format; Some function_format; Some function_format;
        None; None; None; None; None].
Proof.
  split; [|split; [intros text; apply rule_spans_disjoint
                  |repeat split; vm_compute; reflexivity]].
  intros text s len. rewrite <- finditer_call_targets.
  unfold rule_spans. cbn [fst snd].
  split.
  - intros Hin. apply in_map_iff in Hin.
    destruct Hin as ([s' e'] & Heq & Hin). cbn [fst snd] in Heq.
    injection Heq as Hs Hlen. subst s'.
    pose proof (finditer_bounds _ _ _ _ Hin) as (Hse & _).
    replace (s + len) with e' by lia. exact Hin.
  - intros Hin. apply in_map_iff. exists (s, s + len). split; [|exact Hin].
    cbn [fst snd]. replace (s + len - s) with len by lia. reflexivity.
Qed.

(* ===================================================================== *)
(** * Further properties *)
(* ===================================================================== *)

(** ** EditorTab.save: edge cases and composition *)

Section SaveMore.

Variable os : os_env.

(** A save with no path at hand writes nothing and answers [False]. *)
Lemma save_without_path_is_refused (language content : string)
      (arg : option string) (w : world) :
  save_target arg w = None ->
  save os language content arg w = (Ok false, w).
Proof.
  unfold save_target, save, bind, when, get_filepath, set_filepath, ret.
  destruct w as [tr ch fp]. cbn [trace child tab_filepath].
  destruct arg as [f|]; [destruct (truthy f)|]; intros H;
    try discriminate H; cbn in H; subst fp; reflexivity.
Qed.

(** The tab's path after a save aimed at a path that names a file. *)
Lemma save_path_after (language content : string) (config : lang_config)
      (arg : option string) (w : world) (p : Path) :
  dict_get LANG_CONFIG language = Some config ->
  save_target arg w = Some p ->
  name p <> "" ->
  exists p' : Path,
    save os language content arg w = written os content w p'
    /\ suffix p' = ext config
    /\ name p' <> ""
    /\ parent p' = parent p
    /\ (suffix p = ext config -> p' = p).
Proof.
  intros Hcfg Htarget Hname.
  assert (Hext : config_ext language = ext config)
    by (unfold config_ext; rewrite Hcfg; reflexivity).
  pose proof (registered_ext_canonical language config (dict_get_In _ _ _ Hcfg))
    as Hcanon.
  assert (Htruthy : truthy (ext config) = true)
    by (destruct (ext config); [discriminate | reflexivity]).
  rewrite (save_at_target os language content arg w p Htarget).
  destruct (String.eqb_spec (suffix p) (ext config)) as [Hsame|Hdiff].
  - exists p. repeat split; try assumption; try reflexivity.
    apply save_keeps. rewrite Hext, Htruthy, Hsame, String.eqb_refl. reflexivity.
  - destruct (with_suffix_canonical p (ext config) Hcanon Hname)
      as (p' & Hwith & Hsfx & Hparent & Hname').
    exists p'. repeat split; try assumption.
    + apply save_rewrites.
      * rewrite Hext, Htruthy.
        apply String.eqb_neq in Hdiff. rewrite Hdiff. reflexivity.
      * rewrite Hext. exact Hwith.
    + intros Hsame. contradiction.
Qed.

Lemma written_filepath (content : string) (w : world) (q : Path) :
  tab_filepath (snd (written os content w q)) = Some q.
Proof. unfold written. destruct (os_write os q); reflexivity. Qed.

End SaveMore.

(** X1.  A file saved from a tab of a registered language is recognised as
    that language when it is opened again: the language that [open_file]
    infers from the path the tab holds after [save] is the tab's language,
    whatever suffix the chosen path had. *)
Theorem saved_file_reopens_in_its_language
        (os : os_env) (language content : string) (config : lang_config)
        (arg : option string) (w : world) (p : Path) :
  dict_get LANG_CONFIG language = Some config ->
  save_target arg w = Some p ->
  name p <> "" ->
  exists q : Path,
    tab_filepath (snd (save os language content arg w)) = Some q
    /\ detect_language q = language.
Proof.
  intros Hcfg Htarget Hname.
  destruct (save_path_after os language content config arg w p Hcfg Htarget Hname)
    as (q & Hsave & Hsfx & _).
  exists q. split.
  - rewrite Hsave. apply written_filepath.
  - pose proof (dict_get_In _ _ _ Hcfg) as Hin.
    unfold detect_language. rewrite Hsfx.
    rewrite (registered_ext_lower language config Hin).
    apply registered_lookup. exact Hin.
Qed.

Lemma saved_file_reopens_in_its_language_witness :
  exists q : Path,
    tab_filepath (snd (save (example_os (mkChild None "" "" None))
                            "Kotlin" "fun main() {}" (Some "/home/u/App.java")
                            initial_world)) = Some q
    /\ detect_language q = "Kotlin".
Proof.
  apply (saved_file_reopens_in_its_language
           (example_os (mkChild None "" "" None)) "Kotlin" "fun main() {}"
           (mkConfig ".kt" "examples/hello.kt" "// " (Tag "kotlin"))
           (Some "/home/u/App.java") initial_world (of_string "/home/u/App.java")
           eq_refl eq_refl).
  discriminate.
Defined.

(** X2.  Saving is idempotent on the path: after one save of a tab of a
    registered language, a second save with no argument keeps the path of
    the first and aims its write at that same path. *)
Theorem second_save_keeps_the_path
        (os : os_env) (language content content' : string) (config : lang_config)
        (arg : option string) (w : world) (p : Path) :
  dict_get LANG_CONFIG language = Some config ->
  save_target arg w = Some p ->
  name p <> "" ->
  exists q : Path,
    tab_filepath (snd (save os language content arg w)) = Some q
    /\ save os language content' None (snd (save os language content arg w))
       = written os content' (snd (save os language content arg w)) q.
Proof.
  intros Hcfg Htarget Hname.
  destruct (save_path_after os language content config arg w p Hcfg Htarget Hname)
    as (q & Hsave & Hsfx & Hname' & _).
  exists q.
  assert (Hq : tab_filepath (snd (save os language content arg w)) = Some q)
    by (rewrite Hsave; apply written_filepath).
  split; [exact Hq|].
  destruct (save_path_after os language content' config None
              (snd (save os language content arg w)) q Hcfg Hq Hname')
    as (q' & Hsave' & _ & _ & _ & Hkeep).
  rewrite Hsave', (Hkeep Hsfx). reflexivity.
Qed.

Lemma second_save_keeps_the_path_witness :
  exists q : Path,
    tab_filepath (snd (save (example_os (mkChild None "" "" None))
                            "Lua" "print(1)" (Some "/home/u/a.txt")
                            initial_world)) = Some q
    /\ to_string q = "/home/u/a.lua"
    /\ trace (snd (save (example_os (mkChild None "" "" None)) "Lua" "print(2)" None
                        (snd (save (example_os (mkChild None "" "" None))
                                   "Lua" "print(1)" (Some "/home/u/a.txt")
                                   initial_world))))
       = [FileWrite q "print(1)"; FileWrite q "print(2)"].
Proof.
  destruct (second_save_keeps_the_path
              (example_os (mkChild None "" "" None)) "Lua" "print(1)" "print(2)"
              (mkConfig ".lua" "examples/hello.lua" "-- "
                        (Callable (fun _ f => ["lua"; to_string f])))
              (Some "/home/u/a.txt") initial_world (of_string "/home/u/a.txt")
              eq_refl eq_refl)
    as (q & Hq & Hsecond).
  - discriminate.
  - exists q. split; [exact Hq|].
    rewrite Hsecond. cbn in Hq. injection Hq as <-.
    split; reflexivity.
Defined.

(** For an extension of the registry, [with_suffix] can only fail for
    want of a name. *)
Lemma with_suffix_error_canonical (p : Path) (e : string) :
  canonical_ext e = true ->
  with_suffix_error p e = Pathlib.repr p ++ " has an empty name".
Proof.
  unfold canonical_ext, with_suffix_error. destruct e as [|c rest]; [discriminate|].
  intros H. apply andb_true_iff in H. destruct H as [H Hsep].
  apply andb_true_iff in H. destruct H as [H _].
  apply andb_true_iff in H. destruct H as [Hdot Hrest].
  apply Ascii.eqb_eq in Hdot. subst c.
  apply negb_true_iff in Hsep.
  cbn [Str.contains Str.startswith]. rewrite Hsep.
  destruct rest as [|c' rest']; [discriminate Hrest | reflexivity].
Qed.

(** X3.  A save aimed at a path without a final component (the root, or
    the current directory) in a tab of a registered language does not
    return: [with_suffix] raises [ValueError] outside the [try], with
    pathlib's text, the [repr] of the path and [has an empty name];
    nothing is written and no error box is shown; the tab keeps the
    nameless path. *)
Theorem save_of_nameless_path_raises
        (os : os_env) (language content : string) (config : lang_config)
        (arg : option string) (w : world) (p : Path) :
  dict_get LANG_CONFIG language = Some config ->
  save_target arg w = Some p ->
  name p = "" ->
  save os language content arg w
  = (Raise (ValueError (Pathlib.repr p ++ " has an empty name")),
     mkWorld (trace w) (child w) (Some p)).
Proof.
  intros Hcfg Htarget Hname.
  assert (Hext : config_ext language = ext config)
    by (unfold config_ext; rewrite Hcfg; reflexivity).
  pose proof (registered_ext_canonical language config (dict_get_In _ _ _ Hcfg))
    as Hcanon.
  assert (Htruthy : truthy (ext config) = true)
    by (destruct (ext config); [discriminate | reflexivity]).
  assert (Hsfx : suffix p = "") by (unfold suffix; rewrite Hname; reflexivity).
  assert (Hwith : with_suffix p (ext config) = None).
  { unfold with_suffix. rewrite Hname.
    destruct (Str.contains sep (ext config)); [reflexivity|].
    destruct ((negb (String.eqb (ext config) "")
               && negb (Str.startswith "."%char (ext config)))
              || String.eqb (ext config) "."); reflexivity. }
  rewrite (save_at_target os language content arg w p Htarget).
  unfold save, bind, when, get_filepath, set_filepath, ret, raise.
  cbn [trace child tab_filepath].
  rewrite Hext, Htruthy, Hsfx, Hwith.
  rewrite (with_suffix_error_canonical p (ext config) Hcanon).
  destruct (ext config); [discriminate Htruthy | reflexivity].
Qed.

Lemma save_of_nameless_path_raises_witness :
  save bare_os "Python" "print(1)" (Some "/") initial_world
  = (Raise (ValueError "PosixPath('/') has an empty name"),
     mkWorld [] NoChild (Some (of_string "/"))).
Proof.
  apply (save_of_nameless_path_raises
           bare_os "Python" "print(1)"
           (mkConfig ".py" "examples/hello.py" "# "
                     (Callable (fun exe f => [exe; to_string f])))
           (Some "/") initial_world (of_string "/"));
    reflexivity.
Defined.

(** X4.  In a tab whose language has no entry in the registry, [save]
    leaves the path as it is, whatever its suffix, and writes to it. *)
Theorem save_of_unregistered_language_keeps_path
        (os : os_env) (language content : string)
        (arg : option string) (w : world) (p : Path) :
  dict_get LANG_CONFIG language = None ->
  save_target arg w = Some p ->
  save os language content arg w = written os content w p.
Proof.
  intros Hcfg Htarget.
  rewrite (save_at_target os language content arg w p Htarget).
  apply save_keeps. unfold config_ext. rewrite Hcfg. reflexivity.
Qed.

Lemma save_of_unregistered_language_keeps_path_witness :
  save (example_os (mkChild None "" "" None)) "Klingon" "nuqneH"
       (Some "/home/u/hello.kl") initial_world
  = (Ok true,
     mkWorld [FileWrite (of_string "/home/u/hello.kl") "nuqneH"] NoChild
             (Some (of_string "/home/u/hello.kl"))).
Proof.
  apply (save_of_unregistered_language_keeps_path
           (example_os (mkChild None "" "" None)) "Klingon" "nuqneH"
           (Some "/home/u/hello.kl") initial_world (of_string "/home/u/hello.kl"));
    reflexivity.
Defined.

(** ** run_code and get_run_command: the other outcomes *)

Section RunCodeMore.

Variable os : os_env.

(** [run_code] for a runner that is not the browser, once it is known what
    [get_run_command] does: a thread for a command, the cannot-run report
    for none, and nothing more when it raises. *)
Lemma run_code_after_command (language : string) (filepath : Path) (w : world)
      (evs : list event) (res : result (option (list string))) :
  is_tag "browser" (option_map runner (dict_get LANG_CONFIG language)) = false ->
  (forall w0,
      get_run_command os filepath language
                      (option_map runner (dict_get LANG_CONFIG language)) w0
      = (res, mkWorld (trace w0 ++ evs)%list (child w0) (tab_filepath w0))) ->
  run_code os language filepath w
  = match res with
    | Ok command =>
        (Ok tt,
         mkWorld (trace w ++ run_banner language filepath ++ evs
                  ++ (if falsy_command command
                      then [ConsoleAppend (cannot_run language); StatusMessage "Ready"]
                      else match command with
                           | Some cmd => [ThreadStart cmd (to_string (parent filepath))]
                           | None => []
                           end))%list
                 (child w) (tab_filepath w))
    | Raise e =>
        (Raise e,
         mkWorld (trace w ++ run_banner language filepath ++ evs)%list
                 (child w) (tab_filepath w))
    end.
Proof.
  intros Hbrowser Hcmd.
  unfold run_code. cbv zeta. rewrite Hbrowser.
  unfold bind, log. cbn [trace child tab_filepath].
  rewrite Hcmd. cbn [trace child tab_filepath].
  destruct res as [[[|a cmd]|]|e]; cbn; repeat rewrite <- app_assoc; reflexivity.
Qed.

(** A compile step that succeeds: the compiler's warnings go to the
    console when there are any, and the branch goes on. *)
Lemma compile_then_succeeded (cmd : list string) (filepath : Path)
      (missing out warnings : string) (k : M (option (list string))) (w : world) :
  os_run os cmd (to_string (parent filepath)) = Exited 0 out warnings ->
  compile_then os cmd filepath missing k w
  = k (mkWorld (trace w
                ++ [SubprocessRun cmd (to_string (parent filepath))]
                ++ (if truthy warnings then [ConsoleAppend warnings] else []))%list
               (child w) (tab_filepath w)).
Proof.
  intros Hrun.
  unfold compile_then, try_except, subprocess_run, bind, log, raise, ret, when.
  cbn [trace child tab_filepath]. rewrite Hrun. cbn.
  destruct (truthy warnings); cbn; repeat rewrite <- app_assoc;
    try rewrite app_nil_r; reflexivity.
Qed.

(** A compile step whose compiler cannot be started for another reason
    than its absence: the exception is not handled. *)
Lemma compile_then_denied (cmd : list string) (filepath : Path)
      (missing msg : string) (k : M (option (list string))) (w : world) :
  os_run os cmd (to_string (parent filepath)) = LaunchError (PermissionDenied msg) ->
  compile_then os cmd filepath missing k w
  = (Raise (PermissionError msg),
     mkWorld (trace w ++ [SubprocessRun cmd (to_string (parent filepath))])%list
             (child w) (tab_filepath w)).
Proof.
  intros Hrun.
  unfold compile_then, try_except, subprocess_run, bind, log, raise, ret.
  cbn [trace child tab_filepath]. rewrite Hrun. reflexivity.
Qed.

Lemma registered_runner (language : string) (config : lang_config) :
  dict_get LANG_CONFIG language = Some config ->
  option_map runner (dict_get LANG_CONFIG language) = Some (runner config).
Proof. intros H. rewrite H. reflexivity. Qed.

End RunCodeMore.

(** X5.  For every registered language whose runner is a callable (Python,
    JavaScript, Go, Ruby, Lua), [run_code] runs no compiler or probe and
    reports nothing: after its banner it starts one thread, in the
    directory of the file, on the command that the callable builds, whose
    last argument is the source path. *)
Theorem direct_run_starts_one_thread
        (os : os_env) (language : string) (config : lang_config)
        (f : string -> Path -> list string) (filepath : Path) (w : world) :
  In (language, config) LANG_CONFIG ->
  runner config = Callable f ->
  run_code os language filepath w
  = (Ok tt,
     mkWorld (trace w ++ run_banner language filepath
              ++ [ThreadStart (f (sys_executable os) filepath)
                              (to_string (parent filepath))])%list
             (child w) (tab_filepath w))
  /\ last (f (sys_executable os) filepath) "" = to_string filepath
  /\ 2 <= length (f (sys_executable os) filepath).
Proof.
  intros Hin Hrunner.
  each_language Hin; cbn [runner] in Hrunner; try discriminate Hrunner;
    injection Hrunner as <-;
    (split; [|split; [reflexivity | cbn; lia]]);
    unfold run_code, bind, log, get_run_command, ret; cbn;
    repeat rewrite <- app_assoc; reflexivity.
Qed.

Lemma direct_run_starts_one_thread_witness :
  run_code (example_os (mkChild None "" "" None)) "Ruby"
           (of_string "/home/u/hello.rb") initial_world
  = (Ok tt,
     mkWorld [ConsoleClear;
              ConsoleAppend ("Running hello.rb (Ruby)..." ++ nl);
              StatusMessage "Running...";
              ThreadStart ["ruby"; "/home/u/hello.rb"] "/home/u"]
             NoChild None).
Proof.
  destruct (direct_run_starts_one_thread
              (example_os (mkChild None "" "" None)) "Ruby"
              (mkConfig ".rb" "examples/hello.rb" "# "
                        (Callable (fun _ f => ["ruby"; to_string f])))
              (fun _ f => ["ruby"; to_string f])
              (of_string "/home/u/hello.rb") initial_world)
    as (Hrun & _).
  - simpl. do 10 right. left. reflexivity.
  - reflexivity.
  - rewrite Hrun. reflexivity.
Defined.

(** X6.  For the languages compiled to a native executable (C, C++, Rust),
    when the compiler exits with status 0: the compile command names the
    source and, after [-o], the artifact, which is the source path with its
    suffix replaced by [.out], in the same directory; the compiler's
    warnings are shown when there are any; and [run_code] starts one thread
    on the artifact alone. *)
Theorem native_compile_runs_the_artifact
        (os : os_env) (language t binary missing out warnings : string)
        (config : lang_config) (filepath : Path) (w : world) :
  dict_get LANG_CONFIG language = Some config ->
  runner config = Tag t ->
  In t ["c"; "cpp"; "rust"] ->
  compiler_of t = Some (binary, missing) ->
  name filepath <> "" ->
  (forall args cwd, os_run os (binary :: args) cwd = Exited 0 out warnings) ->
  exists exe : Path,
    with_suffix filepath ".out" = Some exe
    /\ suffix exe = ".out"
    /\ parent exe = parent filepath
    /\ run_code os language filepath w
       = (Ok tt,
          mkWorld (trace w ++ run_banner language filepath
                   ++ [SubprocessRun [binary; to_string filepath; "-o"; to_string exe]
                                     (to_string (parent filepath))]
                   ++ (if truthy warnings then [ConsoleAppend warnings] else [])
                   ++ [ThreadStart [to_string exe] (to_string (parent filepath))])%list
                  (child w) (tab_filepath w)).
Proof.
  intros Hcfg Hrunner Ht Hcomp Hname Hok.
  destruct (with_suffix_canonical filepath ".out" eq_refl Hname)
    as (exe & Hexe & Hsfx & Hparent & _).
  exists exe. split; [exact Hexe|]. split; [exact Hsfx|]. split; [exact Hparent|].
  assert (Hcmd : forall w0,
             get_run_command os filepath language (Some (Tag t)) w0
             = (Ok (Some [to_string exe]),
                mkWorld (trace w0
                         ++ [SubprocessRun [binary; to_string filepath; "-o";
                                            to_string exe]
                                           (to_string (parent filepath))]
                         ++ (if truthy warnings then [ConsoleAppend warnings] else []))%list
                        (child w0) (tab_filepath w0))).
  { intros w0. simpl in Ht.
    destruct Ht as [<-|[<-|[<-|[]]]]; cbn in Hcomp; injection Hcomp as <- <-;
      unfold get_run_command, with_suffix_or_raise; cbn [String.eqb Ascii.eqb Bool.eqb];
      rewrite Hexe; unfold bind at 1, ret at 1;
      rewrite (compile_then_succeeded os _ _ _ out warnings) by apply Hok;
      reflexivity. }
  rewrite (run_code_after_command
             os language filepath w
             ([SubprocessRun [binary; to_string filepath; "-o"; to_string exe]
                             (to_string (parent filepath))]
              ++ (if truthy warnings then [ConsoleAppend warnings] else []))%list
             (Ok (Some [to_string exe]))).
  - cbn [falsy_command]. repeat rewrite <- app_assoc. reflexivity.
  - rewrite (registered_runner language config Hcfg), Hrunner. cbn [is_tag].
    simpl in Ht. destruct Ht as [<-|[<-|[<-|[]]]]; reflexivity.
  - rewrite (registered_runner language config Hcfg), Hrunner. exact Hcmd.
Qed.

Lemma native_compile_runs_the_artifact_witness :
  run_code (example_os (mkChild None "" "" None)) "Rust"
           (of_string "/home/u/main.rs") initial_world
  = (Ok tt,
     mkWorld [ConsoleClear;
              ConsoleAppend ("Running main.rs (Rust)..." ++ nl);
              StatusMessage "Running...";
              SubprocessRun ["rustc"; "/home/u/main.rs"; "-o"; "/home/u/main.out"]
                            "/home/u";
              ThreadStart ["/home/u/main.out"] "/home/u"]
             NoChild None).
Proof.
  destruct (native_compile_runs_the_artifact
              (example_os (mkChild None "" "" None)) "Rust" "rust" "rustc"
              rust_missing "" ""
              (mkConfig ".rs" "examples/hello.rs" "// " (Tag "rust"))
              (of_string "/home/u/main.rs") initial_world
              eq_refl eq_refl)
    as (exe & Hexe & _ & _ & Hrun).
  - simpl. right. right. left. reflexivity.
  - reflexivity.
  - discriminate.
  - intros args cwd. reflexivity.
  - vm_compute in Hexe. injection Hexe as <-. rewrite Hrun. reflexivity.
Defined.

(** X7.  For a language whose runner is the browser (HTML, CSS),
    [run_code] hands the file to the browser and is done: no compiler or
    probe is run and no thread is started. *)
Theorem browser_run_opens_the_file
        (os : os_env) (language : string) (config : lang_config)
        (filepath : Path) (w : world) :
  dict_get LANG_CONFIG language = Some config ->
  runner config = Tag "browser" ->
  run_code os language filepath w
  = (Ok tt,
     mkWorld (trace w ++ run_banner language filepath
              ++ [BrowserOpen filepath;
                  ConsoleAppend ("Opened " ++ name filepath ++ " in browser" ++ nl);
                  StatusMessage "Ready"])%list
             (child w) (tab_filepath w)).
Proof.
  intros Hcfg Hrunner.
  unfold run_code. cbv zeta.
  rewrite (registered_runner language config Hcfg), Hrunner.
  cbn [is_tag String.eqb Ascii.eqb Bool.eqb].
  unfold bind, log. cbn. repeat rewrite <- app_assoc. reflexivity.
Qed.

Lemma browser_run_opens_the_file_witness :
  run_code bare_os "HTML" (of_string "/srv/www/index.html") initial_world
  = (Ok tt,
     mkWorld [ConsoleClear;
              ConsoleAppend ("Running index.html (HTML)..." ++ nl);
              StatusMessage "Running...";
              BrowserOpen (of_string "/srv/www/index.html");
              ConsoleAppend ("Opened index.html in browser" ++ nl);
              StatusMessage "Ready"]
             NoChild None).
Proof.
  apply (browser_run_opens_the_file
           bare_os "HTML"
           (mkConfig ".html" "examples/index.html" "<!-- " (Tag "browser"))
           (of_string "/srv/www/index.html") initial_world);
    reflexivity.
Defined.

(** X8.  A language without a strategy (no entry in the registry, or a
    tag that no branch handles, as the registered PTX) is refused without
    any process: [get_run_command] returns no command and does nothing,
    and [run_code] reports that the files cannot be run. *)
Theorem language_without_strategy_is_refused
        (os : os_env) (language : string) (filepath : Path) (w : world) :
  no_strategy (option_map runner (dict_get LANG_CONFIG language)) = true ->
  get_run_command os filepath language
                  (option_map runner (dict_get LANG_CONFIG language)) w
  = (Ok None, w)
  /\ run_code os language filepath w
     = (Ok tt,
        mkWorld (trace w ++ run_banner language filepath
                 ++ [ConsoleAppend (cannot_run language); StatusMessage "Ready"])%list
                (child w) (tab_filepath w)).
Proof.
  intros Hno.
  assert (Hcmd : forall w0,
             get_run_command os filepath language
                             (option_map runner (dict_get LANG_CONFIG language)) w0
             = (Ok None, w0)).
  { intros w0.
    destruct (option_map runner (dict_get LANG_CONFIG language)) as [[f|t]|];
      [discriminate Hno| |reflexivity].
    unfold no_strategy, supported_tags, mem in Hno. cbn [existsb] in Hno.
    apply negb_true_iff in Hno.
    repeat (apply orb_false_iff in Hno; destruct Hno as [? Hno]).
    unfold get_run_command.
    repeat match goal with
           | H : String.eqb ?a ?b = false |- _ => rewrite H; clear H
           end.
    reflexivity. }
  split; [apply Hcmd|].
  rewrite (run_code_after_command os language filepath w [] (Ok None)).
  - cbn [falsy_command]. reflexivity.
  - destruct (option_map runner (dict_get LANG_CONFIG language)) as [[f|t]|];
      [discriminate Hno| |reflexivity].
    unfold no_strategy, supported_tags, mem in Hno. cbn [existsb] in Hno.
    apply negb_true_iff in Hno.
    apply orb_false_iff in Hno. destruct Hno as [Hb _].
    cbn [is_tag]. exact Hb.
  - intros w0. rewrite Hcmd, app_nil_r. destruct w0; reflexivity.
Qed.

Lemma language_without_strategy_is_refused_witness :
  run_code bare_os "PTX" (of_string "/home/u/kernel.ptx") initial_world
  = (Ok tt,
     mkWorld [ConsoleClear;
              ConsoleAppend ("Running kernel.ptx (PTX)..." ++ nl);
              StatusMessage "Running...";
              ConsoleAppend ("Cannot run PTX files (compiler/interpreter not found)" ++ nl);
              StatusMessage "Ready"]
             NoChild None).
Proof.
  destruct (language_without_strategy_is_refused
              bare_os "PTX" (of_string "/home/u/kernel.ptx") initial_world eq_refl)
    as (_ & Hrun).
  rewrite Hrun. reflexivity.
Defined.

(** X9.  The compile step handles a missing compiler and a failed
    compilation only.  When the compiler cannot be started for lack of
    permission, the exception leaves [get_run_command] and [run_code]
    unhandled: after the banner and the compile attempt nothing is
    reported, the status stays at running, and no thread is started. *)
Theorem denied_compiler_escapes
        (os : os_env) (language t binary missing msg : string)
        (config : lang_config) (filepath : Path) (w : world) :
  dict_get LANG_CONFIG language = Some config ->
  runner config = Tag t ->
  compiler_of t = Some (binary, missing) ->
  name filepath <> "" ->
  (forall args cwd, os_run os (binary :: args) cwd = LaunchError (PermissionDenied msg)) ->
  exists compile_cmd : list string,
    hd_error compile_cmd = Some binary
    /\ run_code os language filepath w
       = (Raise (PermissionError msg),
          mkWorld (trace w ++ run_banner language filepath
                   ++ [SubprocessRun compile_cmd (to_string (parent filepath))])%list
                  (child w) (tab_filepath w)).
Proof.
  intros Hcfg Hrunner Hcomp Hname Hdenied.
  destruct (get_run_command_compiles os filepath language t binary missing
                                     Hcomp Hname)
    as (compile_cmd & k & Hhd & Hshape).
  destruct compile_cmd as [|b args]; [discriminate Hhd|].
  cbn in Hhd. injection Hhd as ->.
  exists (binary :: args). split; [reflexivity|].
  rewrite (run_code_after_command
             os language filepath w
             [SubprocessRun (binary :: args) (to_string (parent filepath))]
             (Raise (PermissionError msg))).
  - reflexivity.
  - rewrite (registered_runner language config Hcfg), Hrunner. cbn [is_tag].
    apply (compile_tag_not_browser t binary missing Hcomp).
  - intros w0. rewrite (registered_runner language config Hcfg), Hrunner, Hshape.
    apply compile_then_denied. apply Hdenied.
Qed.

Lemma denied_compiler_escapes_witness :
  fst (run_code (mkOs "python3"
                      (fun _ _ => LaunchError (PermissionDenied "[Errno 13] Permission denied"))
                      (fun _ _ => None) (fun _ => mkChild None "" "" None)
                      (fun _ => true) (fun _ => None))
                "Java" (of_string "/home/u/Hello.java") initial_world)
  = Raise (PermissionError "[Errno 13] Permission denied").
Proof.
  destruct (denied_compiler_escapes
              (mkOs "python3"
                    (fun _ _ => LaunchError (PermissionDenied "[Errno 13] Permission denied"))
                    (fun _ _ => None) (fun _ => mkChild None "" "" None)
                    (fun _ => true) (fun _ => None))
              "Java" "java" "javac" java_missing "[Errno 13] Permission denied"
              (mkConfig ".java" "examples/Hello.java" "// " (Tag "java"))
              (of_string "/home/u/Hello.java") initial_world
              eq_refl eq_refl eq_refl)
    as (cmd & _ & Hrun).
  - discriminate.
  - intros args cwd. reflexivity.
  - rewrite Hrun. reflexivity.
Defined.

(** X10.  TypeScript with a working compiler but no Node: after the
    compile, the probe of [node] fails (not found, or a non-zero exit), the
    compiled script (the source path with the suffix [.js], in the same
    directory) is opened in the browser and the fallback is reported; no
    command comes back, so [run_code] adds its cannot-run report and starts
    no thread. *)
Theorem typescript_falls_back_to_browser
        (os : os_env) (language out warnings : string)
        (config : lang_config) (filepath : Path) (w : world) :
  dict_get LANG_CONFIG language = Some config ->
  runner config = Tag "typescript" ->
  name filepath <> "" ->
  os_run os ["tsc"; to_string filepath] (to_string (parent filepath))
  = Exited 0 out warnings ->
  ((exists msg, os_run os ["node"; "--version"] "" = LaunchError (NotFound msg))
   \/ (exists rc o e, rc <> 0 /\ os_run os ["node"; "--version"] "" = Exited rc o e)) ->
  exists js : Path,
    with_suffix filepath ".js" = Some js
    /\ suffix js = ".js"
    /\ parent js = parent filepath
    /\ run_code os language filepath w
       = (Ok tt,
          mkWorld (trace w ++ run_banner language filepath
                   ++ [SubprocessRun ["tsc"; to_string filepath]
                                     (to_string (parent filepath))]
                   ++ (if truthy warnings then [ConsoleAppend warnings] else [])
                   ++ [SubprocessRun ["node"; "--version"] "";
                       BrowserOpen js;
                       ConsoleAppend ("Node not found - opened compiled JS in browser" ++ nl);
                       ConsoleAppend (cannot_run language);
                       StatusMessage "Ready"])%list
                  (child w) (tab_filepath w)).
Proof.
  intros Hcfg Hrunner Hname Htsc Hnode.
  destruct (with_suffix_canonical filepath ".js" eq_refl Hname)
    as (js & Hjs & Hsfx & Hparent & _).
  exists js. split; [exact Hjs|]. split; [exact Hsfx|]. split; [exact Hparent|].
  assert (Hprobe : forall w0,
             probe os ["node"; "--version"] w0
             = (Ok false,
                mkWorld (trace w0 ++ [SubprocessRun ["node"; "--version"] ""])%list
                        (child w0) (tab_filepath w0))).
  { intros w0. unfold probe, try_except, subprocess_run, bind, log, raise, ret.
    cbn [trace child tab_filepath].
    destruct Hnode as [(msg & Hn)|(rc & o & e & Hrc & Hn)]; rewrite Hn.
    - reflexivity.
    - apply Nat.eqb_neq in Hrc. rewrite Hrc. reflexivity. }
  rewrite (run_code_after_command
             os language filepath w
             ([SubprocessRun ["tsc"; to_string filepath] (to_string (parent filepath))]
              ++ (if truthy warnings then [ConsoleAppend warnings] else [])
              ++ [SubprocessRun ["node"; "--version"] "";
                  BrowserOpen js;
                  ConsoleAppend ("Node not found - opened compiled JS in browser" ++ nl)])%list
             (Ok None)).
  - cbn [falsy_command]. repeat rewrite <- app_assoc. reflexivity.
  - rewrite (registered_runner language config Hcfg), Hrunner. reflexivity.
  - intros w0. rewrite (registered_runner language config Hcfg), Hrunner.
    unfold get_run_command, with_suffix_or_raise.
    cbn [String.eqb Ascii.eqb Bool.eqb].
    rewrite Hjs. unfold bind at 1, ret at 1.
    rewrite (compile_then_succeeded os _ _ _ out warnings) by exact Htsc.
    unfold bind at 1. rewrite Hprobe.
    unfold bind, log, ret. cbn [trace child tab_filepath].
    repeat rewrite <- app_assoc. reflexivity.
Qed.

Lemma typescript_falls_back_to_browser_witness :
  exists js : Path,
    to_string js = "/home/u/app.js"
    /\ In (BrowserOpen js)
          (trace (snd (run_code
                         (mkOs "python3"
                               (fun cmd _ =>
                                  match cmd with
                                  | "tsc" :: _ => Exited 0 "" ""
                                  | _ => LaunchError (NotFound "[Errno 2] No such file")
                                  end)
                               (fun _ _ => None) (fun _ => mkChild None "" "" None)
                               (fun _ => true) (fun _ => None))
                         "TypeScript" (of_string "/home/u/app.ts") initial_world))).
Proof.
  destruct (typescript_falls_back_to_browser
              (mkOs "python3"
                    (fun cmd _ =>
                       match cmd with
                       | "tsc" :: _ => Exited 0 "" ""
                       | _ => LaunchError (NotFound "[Errno 2] No such file")
                       end)
                    (fun _ _ => None) (fun _ => mkChild None "" "" None)
                    (fun _ => true) (fun _ => None))
              "TypeScript" "" ""
              (mkConfig ".ts" "examples/hello.ts" "// " (Tag "typescript"))
              (of_string "/home/u/app.ts") initial_world
              eq_refl eq_refl)
    as (js & Hjs & _ & _ & Hrun).
  - discriminate.
  - reflexivity.
  - left. exists "[Errno 2] No such file". reflexivity.
  - exists js. vm_compute in Hjs. injection Hjs as <-.
    split; [reflexivity|].
    rewrite Hrun. cbn. do 5 right. left. reflexivity.
Defined.

(** ** What get_run_command and run_code never do *)

Section AddsOnly.

Variable P : event -> bool.

Lemma adds_ret {A : Type} (a : A) : adds_only P (ret a).
Proof.
  intros w. exists []. cbn. rewrite app_nil_r. repeat split.
Qed.

Lemma adds_raise {A : Type} (e : exn) : adds_only P (@raise A e).
Proof.
  intros w. exists []. cbn. rewrite app_nil_r. repeat split.
Qed.

Lemma adds_log (ev : event) : P ev = true -> adds_only P (log ev).
Proof.
  intros Hev w. exists [ev]. cbn. rewrite Hev. repeat split.
Qed.

Lemma adds_bind {A B : Type} (c : M A) (f : A -> M B) :
  adds_only P c -> (forall a, adds_only P (f a)) -> adds_only P (bind c f).
Proof.
  intros Hc Hf w. unfold bind.
  destruct (Hc w) as (evs & Htr & HP & Hch & Hfp).
  destruct (c w) as [[a|e] w1]; cbn [snd] in *.
  - destruct (Hf a w1) as (evs' & Htr' & HP' & Hch' & Hfp').
    exists (evs ++ evs')%list.
    rewrite Htr', Htr, app_assoc, forallb_app, HP, HP', Hch', Hch, Hfp', Hfp.
    repeat split.
  - exists evs. repeat split; assumption.
Qed.

Lemma adds_try_except {A : Type} (c : M A) (h : exn -> option (M A)) :
  adds_only P c ->
  (forall e handler, h e = Some handler -> adds_only P handler) ->
  adds_only P (try_except c h).
Proof.
  intros Hc Hh w. unfold try_except.
  destruct (Hc w) as (evs & Htr & HP & Hch & Hfp).
  destruct (c w) as [[a|e] w1]; cbn [snd] in *.
  - exists evs. repeat split; assumption.
  - destruct (h e) as [handler|] eqn:He.
    + destruct (Hh e handler He w1) as (evs' & Htr' & HP' & Hch' & Hfp').
      exists (evs ++ evs')%list.
      rewrite Htr', Htr, app_assoc, forallb_app, HP, HP', Hch', Hch, Hfp', Hfp.
      repeat split.
    + exists evs. repeat split; assumption.
Qed.

Lemma adds_when (b : bool) (c : M unit) : adds_only P c -> adds_only P (when b c).
Proof. intros Hc. destruct b; [exact Hc | apply adds_ret]. Qed.

End AddsOnly.

(** The steps of a proof that a computation only adds events of a kind. *)
Ltac adds_step :=
  first
    [ apply adds_ret
    | apply adds_raise
    | apply adds_log; reflexivity
    | apply adds_when
    | apply adds_bind; [|intros ?]
    | match goal with
      | |- adds_only _ (if ?b then _ else _) => destruct b
      | |- adds_only _ (match ?x with _ => _ end) => destruct x
      end ].

Section InvokerEvents.

Variable os : os_env.

Lemma adds_subprocess_run (cmd : list string) (check : bool) (cwd : string) :
  adds_only invoker_event (subprocess_run os cmd check cwd).
Proof. unfold subprocess_run. repeat adds_step. Qed.

Lemma adds_probe (cmd : list string) : adds_only invoker_event (probe os cmd).
Proof.
  unfold probe. apply adds_try_except.
  - apply adds_bind; [apply adds_subprocess_run | intros ?; apply adds_ret].
  - intros e handler He. destruct e; inversion He; subst; apply adds_ret.
Qed.

Lemma adds_compile_then (cmd : list string) (filepath : Path) (missing : string)
      (k : M (option (list string))) :
  adds_only invoker_event k ->
  adds_only invoker_event (compile_then os cmd filepath missing k).
Proof.
  intros Hk. unfold compile_then. apply adds_bind.
  - apply adds_try_except.
    + apply adds_bind; [apply adds_subprocess_run | intros ?; repeat adds_step].
    + intros e handler He. destruct e; inversion He; subst; repeat adds_step.
  - intros [|]; [exact Hk | apply adds_ret].
Qed.

Lemma adds_with_suffix_or_raise (filepath : Path) (s : string) :
  adds_only invoker_event (with_suffix_or_raise filepath s).
Proof. unfold with_suffix_or_raise. repeat adds_step. Qed.

Lemma adds_get_run_command (filepath : Path) (language : string)
      (runner : option runner_t) :
  adds_only invoker_event (get_run_command os filepath language runner).
Proof.
  unfold get_run_command.
  destruct runner as [[f|t]|]; [apply adds_ret| |apply adds_ret].
  repeat match goal with
         | |- adds_only _ (if String.eqb t ?s then _ else _) =>
             destruct (String.eqb t s)
         end;
    repeat first
           [ apply adds_compile_then
           | apply adds_probe
           | apply adds_subprocess_run
           | apply adds_with_suffix_or_raise
           | adds_step ].
Qed.

End InvokerEvents.

Lemma invoker_events_start_no_thread (evs : list event) :
  forallb invoker_event evs = true -> forallb not_thread_start evs = true.
Proof.
  induction evs as [|ev evs IH]; simpl; intros H; [reflexivity|].
  apply andb_true_iff in H. destruct H as [Hev Hevs].
  rewrite (IH Hevs). destruct ev; try discriminate Hev; reflexivity.
Qed.

(** X11.  Whatever the language, the runner, the path and the environment,
    and whether it returns or raises, [get_run_command] only runs programs
    and waits for them, appends to the console and opens the browser: it
    starts no thread, writes no file, does not clear the console or touch
    the status bar, and leaves the tab's path alone. *)
Theorem get_run_command_only_invokes
        (os : os_env) (filepath : Path) (language : string)
        (runner : option runner_t) (w : world) :
  exists evs : list event,
    trace (snd (get_run_command os filepath language runner w))
    = (trace w ++ evs)%list
    /\ forallb invoker_event evs = true
    /\ child (snd (get_run_command os filepath language runner w)) = child w
    /\ tab_filepath (snd (get_run_command os filepath language runner w))
       = tab_filepath w.
Proof. exact (adds_get_run_command os filepath language runner w). Qed.

(** [run_code] after its banner. *)
Lemma run_code_shape (os : os_env) (language : string) (filepath : Path) (w : world) :
  run_code os language filepath w
  = let r := option_map runner (dict_get LANG_CONFIG language) in
    let w1 := mkWorld (trace w ++ run_banner language filepath)%list
                      (child w) (tab_filepath w) in
    if is_tag "browser" r then
      (Ok tt,
       mkWorld (trace w1 ++ [BrowserOpen filepath;
                             ConsoleAppend ("Opened " ++ name filepath
                                            ++ " in browser" ++ nl);
                             StatusMessage "Ready"])%list
               (child w) (tab_filepath w))
    else
      match get_run_command os filepath language r w1 with
      | (Ok command, w2) =>
          if falsy_command command then
            (Ok tt,
             mkWorld (trace w2 ++ [ConsoleAppend (cannot_run language);
                                   StatusMessage "Ready"])%list
                     (child w2) (tab_filepath w2))
          else
            match command with
            | Some cmd =>
                (Ok tt,
                 mkWorld (trace w2 ++ [ThreadStart cmd (to_string (parent filepath))])%list
                         (child w2) (tab_filepath w2))
            | None => (Ok tt, w2)
            end
      | (Raise e, w2) => (Raise e, w2)
      end.
Proof.
  unfold run_code. cbv zeta.
  destruct (is_tag "browser" (option_map runner (dict_get LANG_CONFIG language))).
  - unfold bind, log, run_banner. cbn. repeat rewrite <- app_assoc. reflexivity.
  - unfold bind at 1 2 3, log at 1 2 3. cbn [trace child tab_filepath].
    replace (((trace w ++ [ConsoleClear])
              ++ [ConsoleAppend
                    ("Running " ++ name filepath ++ " (" ++ language ++ ")..." ++ nl)])
             ++ [StatusMessage "Running..."])%list
      with (trace w ++ run_banner language filepath)%list
      by (unfold run_banner; cbn; repeat rewrite <- app_assoc; reflexivity).
    unfold bind.
    destruct (get_run_command os filepath language
                (option_map runner (dict_get LANG_CONFIG language))
                (mkWorld (trace w ++ run_banner language filepath)%list
                         (child w) (tab_filepath w)))
      as [[command|e] w2]; [|reflexivity].
    destruct (falsy_command command).
    + unfold log. cbn. repeat rewrite <- app_assoc. reflexivity.
    + destruct command as [cmd|]; reflexivity.
Qed.

(** X12.  For every language, path and environment, [run_code] starts at
    most one thread: what it adds to the trace after its banner either
    contains no thread start, or ends with the only one, for a command that
    is not empty, in the directory of the file, and then [run_code] has
    returned normally. *)
Theorem run_code_starts_at_most_one_thread
        (os : os_env) (language : string) (filepath : Path) (w : world) :
  exists evs : list event,
    trace (snd (run_code os language filepath w))
    = (trace w ++ run_banner language filepath ++ evs)%list
    /\ (forallb not_thread_start evs = true
        \/ exists (before : list event) (cmd : list string),
             evs = (before ++ [ThreadStart cmd (to_string (parent filepath))])%list
             /\ forallb not_thread_start before = true
             /\ cmd <> []
             /\ fst (run_code os language filepath w) = Ok tt).
Proof.
  rewrite run_code_shape. cbv zeta.
  destruct (is_tag "browser" (option_map runner (dict_get LANG_CONFIG language))).
  - eexists. split.
    + cbn [snd trace]. rewrite <- app_assoc. reflexivity.
    + left. reflexivity.
  - destruct (adds_get_run_command
                os filepath language
                (option_map runner (dict_get LANG_CONFIG language))
                (mkWorld (trace w ++ run_banner language filepath)%list
                         (child w) (tab_filepath w)))
      as (evs & Htr & HP & _ & _).
    apply invoker_events_start_no_thread in HP.
    destruct (get_run_command os filepath language
                (option_map runner (dict_get LANG_CONFIG language))
                (mkWorld (trace w ++ run_banner language filepath)%list
                         (child w) (tab_filepath w)))
      as [[command|e] w2]; cbn [snd trace] in Htr.
    + destruct command as [[|a cmd]|]; cbn [falsy_command].
      * exists (evs ++ [ConsoleAppend (cannot_run language); StatusMessage "Ready"])%list.
        split.
        -- cbn [snd trace]. rewrite Htr. repeat rewrite <- app_assoc. reflexivity.
        -- left. rewrite forallb_app, HP. reflexivity.
      * exists (evs ++ [ThreadStart (a :: cmd) (to_string (parent filepath))])%list.
        split.
        -- cbn [snd trace]. rewrite Htr. repeat rewrite <- app_assoc. reflexivity.
        -- right. exists evs, (a :: cmd).
           split; [reflexivity|]. split; [exact HP|]. split; [discriminate|].
           reflexivity.
      * exists (evs ++ [ConsoleAppend (cannot_run language); StatusMessage "Ready"])%list.
        split.
        -- cbn [snd trace]. rewrite Htr. repeat rewrite <- app_assoc. reflexivity.
        -- left. rewrite forallb_app, HP. reflexivity.
    + exists evs. split.
      * cbn [snd]. rewrite Htr. repeat rewrite <- app_assoc. reflexivity.
      * left. exact HP.
Qed.

(** ** RunnerThread.run: the normal path *)

(** X13.  A child that exits before the deadline and whose output can be
    read: [run] emits what the child wrote to its standard output, then
    what it wrote to its standard error, each only when it is not empty and
    each whole, then the completion signal, and nothing else; no error or
    timeout message is emitted. *)
Theorem completed_run_delivers_output
        (os : os_env) (command : list string) (cwd : string) (w : world) (d : nat) :
  os_spawn os command cwd = None ->
  exits_after (os_child os command) = Some d ->
  d < 60 ->
  read_error (os_child os command) = None ->
  run os command cwd w =
  (Ok tt,
   mkWorld (trace w
            ++ [ProcessSpawn command cwd]
            ++ (if truthy (stdout_text (os_child os command))
                then [SignalOutput (stdout_text (os_child os command))] else [])
            ++ (if truthy (stderr_text (os_child os command))
                then [SignalOutput (stderr_text (os_child os command))] else [])
            ++ [SignalFinished])%list
           Terminated (tab_filepath w)).
Proof. exact (run_completed os command cwd w d). Qed.

Lemma completed_run_delivers_output_witness :
  run (example_os (mkChild (Some 2) "Hello" "" None))
      ["python3"; "/home/u/hello.py"] "/home/u" initial_world
  = (Ok tt,
     mkWorld [ProcessSpawn ["python3"; "/home/u/hello.py"] "/home/u";
              SignalOutput "Hello"; SignalFinished]
             Terminated None).
Proof.
  apply (completed_run_delivers_output
           (example_os (mkChild (Some 2) "Hello" "" None))
           ["python3"; "/home/u/hello.py"] "/home/u" initial_world 2);
    try reflexivity.
  cbv. repeat constructor.
Defined.

(** ** The highlighter: spans and formats for every language and text *)

Section MatchLength.

Variable text : list ascii.

Lemma greedy_loop_advances (body : nat -> (nat -> option nat) -> option nat)
      (n : nat) :
  advances 0 body -> advances 0 (fun i k => greedy_loop body k n i).
Proof.
  intros Hbody. induction n as [|n IH]; intros i k e H; simpl in H.
  - exists i. split; [lia | exact H].
  - destruct (body i (fun j => if i <? j then greedy_loop body k n j else None))
      as [e'|] eqn:Hb.
    + injection H as ->.
      destruct (Hbody _ _ _ Hb) as (j & Hj & Hk).
      destruct (i <? j); [|discriminate Hk].
      destruct (IH j k e Hk) as (j' & Hj' & Hk').
      exists j'. split; [lia | exact Hk'].
    + exists i. split; [lia | exact H].
Qed.

Lemma lazy_loop_advances (body : nat -> (nat -> option nat) -> option nat)
      (n : nat) :
  advances 0 body -> advances 0 (fun i k => lazy_loop body k n i).
Proof.
  intros Hbody. induction n as [|n IH]; intros i k e H; simpl in H.
  - exists i. split; [lia | exact H].
  - destruct (k i) as [e'|] eqn:Hk.
    + injection H as ->. exists i. split; [lia | exact Hk].
    + destruct (Hbody _ _ _ H) as (j & Hj & Hk').
      destruct (i <? j); [|discriminate Hk'].
      destruct (IH j k e Hk') as (j' & Hj' & Hk'').
      exists j'. split; [lia | exact Hk''].
Qed.

Lemma advances_weaken (m : nat) (body : nat -> (nat -> option nat) -> option nat) :
  advances m body -> advances 0 body.
Proof.
  intros H i k e He. destruct (H i k e He) as (j & Hj & Hk).
  exists j. split; [lia | exact Hk].
Qed.

(** A match consumes at least [min_len] characters. *)
Lemma match_from_advances (r : regex) : advances (min_len r) (match_from text r).
Proof.
  induction r as [|f|r1 IH1 r2 IH2|r1 IH1|r1 IH1|r1 IH1| |r1 IH1];
    intros i k e H; cbn [min_len]; cbn [match_from] in H.
  - exists i. split; [lia | exact H].
  - destruct (nth_error text i) as [c|]; [|discriminate H].
    destruct (f c); [|discriminate H].
    exists (S i). split; [lia | exact H].
  - destruct (IH1 _ _ _ H) as (j & Hj & Hk).
    destruct (IH2 _ _ _ Hk) as (j' & Hj' & Hk').
    exists j'. split; [lia | exact Hk'].
  - exact (greedy_loop_advances _ _ (advances_weaken _ _ IH1) i k e H).
  - exact (lazy_loop_advances _ _ (advances_weaken _ _ IH1) i k e H).
  - destruct (match_from text r1 i k) as [e'|] eqn:Hm.
    + injection H as ->. destruct (IH1 _ _ _ Hm) as (j & Hj & Hk).
      exists j. split; [lia | exact Hk].
    + exists i. split; [lia | exact H].
  - destruct (at_boundary text i); [|discriminate H].
    exists i. split; [lia | exact H].
  - destruct (match_from text r1 i (fun j => Some j)); [|discriminate H].
    exists i. split; [lia | exact H].
Qed.

(** Every match that a scan reports is one that the matcher finds at its
    start. *)
Lemma finditer_from_sound (r : regex) (fuel pos : nat) (adv : bool) (s e : nat) :
  In (s, e) (finditer_from text r fuel pos adv) ->
  exists b : bool, match_from text r s (accept s b) = Some e.
Proof.
  revert pos adv. induction fuel as [|fuel IH]; intros pos adv H; simpl in H.
  - contradiction.
  - unfold search in H.
    destruct (length text <? pos); [contradiction|].
    destruct (search_from text r (length text - pos) pos adv) as [[s0 e0]|] eqn:Hs;
      [|contradiction].
    destruct H as [H|H].
    + injection H as -> ->.
      destruct (search_from_found _ _ _ _ _ _ _ Hs) as (_ & Hm & _).
      eexists. exact Hm.
    + exact (IH _ _ H).
Qed.

Lemma finditer_min_len (r : regex) (s e : nat) :
  In (s, e) (finditer text r) -> s + min_len r <= e.
Proof.
  intros H. destruct (finditer_from_sound _ _ _ _ _ _ H) as (b & Hm).
  destruct (match_from_advances r _ _ _ Hm) as (j & Hj & Hacc).
  unfold accept in Hacc. destruct (b && (j =? s)); [discriminate Hacc|].
  injection Hacc as <-. exact Hj.
Qed.

End MatchLength.

Section RuleLengths.

Lemma min_len_lit (s : string) : min_len (lit s) = String.length s.
Proof. induction s as [|c s IH]; simpl; [reflexivity | rewrite IH; reflexivity]. Qed.

Lemma keywords_are_not_empty :
  forallb (fun kv : string * list string =>
             forallb (fun word => negb (String.eqb word "")) (snd kv))
          LANGUAGE_KEYWORDS = true.
Proof. vm_compute. reflexivity. Qed.

Lemma dict_get_In_keywords (language : string) (word : string) :
  In word (keywords_of language) ->
  exists ws, In (language, ws) LANGUAGE_KEYWORDS /\ In word ws.
Proof.
  unfold keywords_of. intros H.
  destruct (dict_get LANGUAGE_KEYWORDS language) as [ws|] eqn:Hget; [|contradiction].
  exists ws. split; [apply dict_get_In; exact Hget | exact H].
Qed.

Lemma keyword_not_empty (language word : string) :
  In word (keywords_of language) -> 1 <= String.length word.
Proof.
  intros H. destruct (dict_get_In_keywords language word H) as (ws & Hin & Hw).
  pose proof keywords_are_not_empty as Hall.
  rewrite forallb_forall in Hall. specialize (Hall _ Hin). cbn [snd] in Hall.
  rewrite forallb_forall in Hall. specialize (Hall _ Hw).
  destruct word; [discriminate Hall | simpl; lia].
Qed.

(** No rule of any language can match the empty string. *)
Lemma rules_consume (language : string) (r : rule) :
  In r (setup_rules language) -> 1 <= min_len (fst r).
Proof.
  rewrite setup_rules_shape. intros H.
  apply in_app_or in H. destruct H as [H|H].
  - apply in_map_iff in H. destruct H as (word & <- & Hword).
    cbn [fst keyword_pattern min_len]. rewrite min_len_lit.
    pose proof (keyword_not_empty language word Hword). lia.
  - apply in_app_or in H. destruct H as [H|H].
    + simpl in H. repeat (destruct H as [H|H]; [subst r; cbn; lia|]). contradiction.
    + unfold comment_rules in H.
      repeat match type of H with
             | In _ (if ?b then _ else _) => destruct b
             end;
        simpl in H;
        repeat (destruct H as [H|H]; [subst r; cbn; lia|]); contradiction.
Qed.

(** The spans of a language's rules are not empty and lie in the block. *)
Lemma spans_inside_block (language text : string) (s len : nat)
      (fmt : QTextCharFormat) :
  In (s, len, fmt) (classify language text) ->
  0 < len /\ s + len <= String.length text.
Proof.
  unfold classify, token_spans. intros H. apply in_flat_map in H.
  destruct H as (r & Hr & Hsp). unfold rule_spans in Hsp.
  apply in_map_iff in Hsp. destruct Hsp as ([s' e'] & Heq & Hin).
  cbn [fst snd] in Heq. injection Heq as -> <- _.
  pose proof (finditer_min_len _ _ _ _ Hin) as Hmin.
  pose proof (rules_consume language r Hr) as Hone.
  pose proof (finditer_bounds _ _ _ _ Hin) as (_ & Hend).
  rewrite length_chars in Hend. lia.
Qed.


End RuleLengths.

(** X14.  For every language id and every text, each span that the rules
    produce is not empty and lies inside the block: its length is positive
    and its end is at most the length of the text.  In particular an empty
    text gets no span at all and an empty format buffer. *)
Theorem spans_are_not_empty_and_inside :
  (forall (language text : string) (s len : nat) (fmt : QTextCharFormat),
      In (s, len, fmt) (classify language text) ->
      0 < len /\ s + len <= String.length text)
  /\ (forall language : string,
         classify language "" = [] /\ highlight language "" = []).
Proof.
  split; [exact spans_inside_block|].
  intros language.
  assert (Hnone : classify language "" = []).
  { destruct (classify language "") as [|[[s len] fmt] rest] eqn:Hc; [reflexivity|].
    assert (Hin : In (s, len, fmt) (classify language ""))
      by (rewrite Hc; left; reflexivity).
    apply spans_inside_block in Hin. simpl in Hin. lia. }
  split; [exact Hnone|].
  pose proof (length_apply_rules "" (setup_rules language) (repeat None 0)) as Hlen.
  unfold highlight, highlightBlock. simpl String.length.
  destruct (fold_left (fun b r => apply_rule "" r b) (setup_rules language)
                      (repeat None 0)); [reflexivity | discriminate Hlen].
Qed.


(** X16.  The spans that one rule gives to a block never overlap and come
    in text order, for every rule and text: each span starts at or after
    the end of the spans before it. *)
Theorem spans_of_one_rule_do_not_overlap (text : string) (r : rule) :
  StronglySorted (fun a b : span => fst (fst a) + snd (fst a) <= fst (fst b))
                 (rule_spans text r).
Proof. apply rule_spans_disjoint. Qed.

(** ** Line comments and keywords *)

Section Literals.

Variable text : list ascii.

(** A literal matches where its characters stand, and consumes them. *)
Lemma match_lit (s : string) (i : nat) (k : nat -> option nat) :
  match_from text (lit s) i k
  = if starts_at text (Str.chars s) i then k (i + String.length s) else None.
Proof.
  revert i. induction s as [|c s IH]; intros i.
  - cbn. rewrite Nat.add_0_r. reflexivity.
  - change (match_from text (lit (String c s)) i k)
      with (match nth_error text i with
            | Some a => if Ascii.eqb c a then match_from text (lit s) (S i) k else None
            | None => None
            end).
    cbn [Str.chars list_ascii_of_string starts_at String.length].
    fold (Str.chars s).
    destruct (nth_error text i) as [a|]; [|reflexivity].
    destruct (Ascii.eqb c a); [|reflexivity].
    rewrite IH. cbn [andb].
    replace (S i + String.length s) with (i + S (String.length s)) by lia.
    reflexivity.
Qed.



Lemma starts_at_bound (m : list ascii) (i : nat) :
  1 <= length m -> starts_at text m i = true -> i + length m <= length text.
Proof.
  revert i. induction m as [|c m IH]; intros i Hm H; simpl in *; [lia|].
  destruct (nth_error text i) as [a|] eqn:Ha; [|discriminate H].
  apply andb_true_iff in H. destruct H as [_ H].
  assert (i < length text) by (apply nth_error_Some; congruence).
  destruct m as [|c' m']; [simpl; lia|].
  specialize (IH (S i) ltac:(simpl; lia) H). simpl in *. lia.
Qed.



End Literals.

Section LineComments.



Lemma match_lit_chars (text : list ascii) (s : string) (j : nat)
      (k : nat -> option nat) :
  match_from text (lit s) j k
  = if starts_at text (Str.chars s) j then k (j + length (Str.chars s)) else None.
Proof. rewrite match_lit, length_chars. reflexivity. Qed.



End LineComments.



(** ** Scans of patterns whose matches are determined by their start *)

Section ScanExact.

Variable text : list ascii.
Variable r : regex.
Variable endf : nat -> option nat.

Hypothesis match_endf :
  forall i k, match_from text r i k
              = match endf i with Some e => k e | None => None end.
Hypothesis endf_bounds :
  forall s e, endf s = Some e -> s < e <= length text.
Hypothesis endf_inside :
  forall s0 e0 s, endf s0 = Some e0 -> s0 < s < e0 -> endf s = None.

Lemma accept_endf (q : nat) (b : bool) : match_from text r q (accept q b) = endf q.
Proof.
  rewrite match_endf. destruct (endf q) as [e|] eqn:He; [|reflexivity].
  apply endf_bounds in He. unfold accept.
  replace (e =? q) with false by (symmetry; apply Nat.eqb_neq; lia).
  rewrite andb_false_r. reflexivity.
Qed.

(** The scan reports exactly the matches that start at or after its
    start position: none is skipped, since no match starts inside
    another. *)
Lemma finditer_from_exact (fuel pos : nat) (adv : bool) (s e : nat) :
  length text - pos < fuel ->
  (In (s, e) (finditer_from text r fuel pos adv) <-> pos <= s /\ endf s = Some e).
Proof.
  revert pos adv. induction fuel as [|fuel IH]; intros pos adv Hfuel; [lia|].
  cbn [finditer_from]. unfold search.
  destruct (Nat.ltb_spec (length text) pos) as [Hout|Hin].
  - split; [intros []|].
    intros (Hs & He). apply endf_bounds in He. lia.
  - destruct (search_from text r (length text - pos) pos adv)
      as [[s0 e0]|] eqn:Hsearch.
    + destruct (search_from_found _ _ _ _ _ _ _ Hsearch) as (Hs0 & Hm0 & Hbefore).
      rewrite accept_endf in Hm0.
      pose proof (endf_bounds _ _ Hm0) as Hb0.
      cbn [In]. rewrite (IH e0 (e0 =? s0) ltac:(lia)).
      split.
      * intros [H|(Hes & He)].
        -- injection H as <- <-. split; [lia | exact Hm0].
        -- split; [lia | exact He].
      * intros (Hs & He).
        destruct (Nat.lt_trichotomy s s0) as [Hlt|[->|Hgt]].
        -- specialize (Hbefore s ltac:(lia)). rewrite accept_endf in Hbefore.
           congruence.
        -- left. congruence.
        -- right. split; [|exact He].
           destruct (Nat.le_gt_cases e0 s) as [Hle|Hin']; [exact Hle|].
           rewrite (endf_inside s0 e0 s Hm0 ltac:(lia)) in He. discriminate He.
    + split; [intros []|].
      intros (Hs & He). pose proof (endf_bounds _ _ He) as Hb.
      pose proof (search_from_nothing _ _ _ _ _ Hsearch s ltac:(lia)) as Hnone.
      rewrite accept_endf in Hnone. congruence.
Qed.

Lemma finditer_exact (s e : nat) :
  In (s, e) (finditer text r) <-> endf s = Some e.
Proof.
  unfold finditer. rewrite finditer_from_exact.
  - split; [intros [_ H]; exact H | intros H; split; [lia | exact H]].
  - unfold scan_bound. lia.
Qed.

End ScanExact.

(** ** Keyword rules *)

Section StartsAt.

Variable text : list ascii.

Lemma starts_at_nth (m : list ascii) (i : nat) :
  starts_at text m i = true ->
  forall j c, nth_error m j = Some c -> nth_error text (i + j) = Some c.
Proof.
  revert i. induction m as [|a m IH]; intros i H j c Hj.
  - destruct j; discriminate Hj.
  - cbn [starts_at] in H.
    destruct (nth_error text i) as [b|] eqn:Hb; [|discriminate H].
    apply andb_true_iff in H. destruct H as [Hab Hrest].
    apply Ascii.eqb_eq in Hab. subst b.
    destruct j as [|j]; cbn [nth_error] in Hj.
    + injection Hj as <-. rewrite Nat.add_0_r. exact Hb.
    + replace (i + S j) with (S i + j) by lia. exact (IH _ Hrest _ _ Hj).
Qed.

Lemma nth_starts_at (m : list ascii) (i : nat) :
  (forall j c, nth_error m j = Some c -> nth_error text (i + j) = Some c) ->
  starts_at text m i = true.
Proof.
  revert i. induction m as [|a m IH]; intros i H; cbn [starts_at]; [reflexivity|].
  pose proof (H 0 a eq_refl) as H0. rewrite Nat.add_0_r in H0. rewrite H0.
  rewrite Ascii.eqb_refl. cbn [andb].
  apply IH. intros j c Hj.
  replace (S i + j) with (i + S j) by lia. apply H. exact Hj.
Qed.

End StartsAt.

Section Keywords.

Variable text : list ascii.

Lemma keyword_pattern_match (word : string) (i : nat) (k : nat -> option nat) :
  match_from text (keyword_pattern word) i k
  = match keyword_end text (Str.chars word) i with
    | Some e => k e
    | None => None
    end.
Proof.
  unfold keyword_pattern, keyword_end.
  change (match_from text (Cat Boundary ?r) i k)
    with (if at_boundary text i then match_from text r i k else None).
  destruct (at_boundary text i); [|reflexivity].
  change (match_from text (Cat (lit word) Boundary) i k)
    with (match_from text (lit word) i (fun j => match_from text Boundary j k)).
  rewrite match_lit_chars.
  destruct (starts_at text (Str.chars word) i); [|reflexivity].
  cbn [match_from].
  destruct (at_boundary text (i + length (Str.chars word))); reflexivity.
Qed.

Lemma keyword_end_parts (w : list ascii) (s e : nat) :
  keyword_end text w s = Some e ->
  at_boundary text s = true /\ starts_at text w s = true
  /\ at_boundary text e = true /\ e = s + length w.
Proof.
  unfold keyword_end. intros H.
  destruct (at_boundary text s); [|discriminate H].
  destruct (starts_at text w s); [|discriminate H].
  destruct (at_boundary text (s + length w)) eqn:Hb; [|discriminate H].
  injection H as <-. repeat split; assumption.
Qed.

Lemma plain_word_parts (w : list ascii) :
  plain_word w = true ->
  exists c, nth_error w 0 = Some c /\ is_word c = true
            /\ (exists c', nth_error w (length w - 1) = Some c' /\ is_word c' = true)
            /\ overlap_free w = true /\ 1 <= length w.
Proof.
  unfold plain_word. destruct w as [|c w']; [discriminate|].
  intros H. apply andb_true_iff in H. destruct H as [H Hfree].
  apply andb_true_iff in H. destruct H as [Hfirst Hlast].
  exists c. split; [reflexivity|]. split; [exact Hfirst|].
  split; [|split; [exact Hfree | simpl; lia]].
  exists (last (c :: w') c). split; [|exact Hlast].
  assert (Hne : c :: w' <> []) by discriminate.
  rewrite (app_removelast_last c Hne) at 1 2.
  rewrite length_app. cbn [length].
  rewrite nth_error_app2 by lia.
  replace (length (removelast (c :: w')) + 1 - 1 - length (removelast (c :: w')))
    with 0 by lia.
  reflexivity.
Qed.

Lemma word_at_nth (i : nat) (c : ascii) :
  nth_error text i = Some c -> word_at text i = is_word c.
Proof. unfold word_at. intros ->. reflexivity. Qed.

Lemma keyword_end_bounds (w : list ascii) (s e : nat) :
  plain_word w = true -> keyword_end text w s = Some e -> s < e <= length text.
Proof.
  intros Hw He.
  destruct (plain_word_parts w Hw) as (_ & _ & _ & _ & _ & Hlen).
  destruct (keyword_end_parts w s e He) as (_ & Hstart & _ & ->).
  pose proof (starts_at_bound text w s Hlen Hstart). lia.
Qed.

(** No match of a keyword starts inside another match of it. *)
Lemma keyword_end_inside (w : list ascii) (s0 e0 s : nat) :
  plain_word w = true ->
  keyword_end text w s0 = Some e0 -> s0 < s < e0 -> keyword_end text w s = None.
Proof.
  intros Hw H0 Hs.
  destruct (plain_word_parts w Hw) as (_ & _ & _ & _ & Hfree & Hlen).
  destruct (keyword_end_parts w s0 e0 H0) as (_ & Hstart0 & _ & ->).
  destruct (keyword_end text w s) as [e|] eqn:He; [exfalso|reflexivity].
  destruct (keyword_end_parts w s e He) as (Hb & Hstart & _ & _).
  assert (Hd : exists d, s = s0 + S d /\ S d < length w)
    by (exists (s - s0 - 1); lia).
  destruct Hd as (d & -> & Hd).
  unfold overlap_free in Hfree. rewrite forallb_forall in Hfree.
  specialize (Hfree (S d) ltac:(apply in_seq; lia)).
  apply negb_true_iff, andb_false_iff in Hfree.
  assert (Hsame : forall j, j < length w -> nth_error text (s0 + j) = nth_error w j).
  { intros j Hj. destruct (nth_error w j) as [c|] eqn:Hc.
    - exact (starts_at_nth text w s0 Hstart0 j c Hc).
    - apply nth_error_None in Hc. lia. }
  destruct Hfree as [Hnb|Hns].
  - replace (s0 + S d) with (S (s0 + d)) in Hb by lia.
    unfold at_boundary, word_at in Hb, Hnb.
    replace (S (s0 + d)) with (s0 + S d) in Hb by lia.
    rewrite (Hsame (S d) Hd), (Hsame d ltac:(lia)) in Hb. congruence.
  - rewrite (nth_starts_at w) in Hns; [discriminate Hns|].
    intros j c Hj. rewrite nth_error_firstn in Hj.
    destruct (Nat.ltb_spec j (length w - S d)) as [Hlt|]; [|discriminate Hj].
    rewrite <- (Hsame (S d + j) ltac:(lia)).
    replace (s0 + (S d + j)) with (s0 + S d + j) by lia.
    exact (starts_at_nth text w (s0 + S d) Hstart j c Hj).
Qed.

(** A match of a keyword is the keyword standing as a whole word. *)
Lemma keyword_end_whole_word (w : list ascii) (s e : nat) :
  plain_word w = true ->
  (keyword_end text w s = Some e <-> whole_word text w s e).
Proof.
  intros Hw.
  destruct (plain_word_parts w Hw)
    as (c & Hc & Hcw & (c' & Hc' & Hcw') & _ & Hlen).
  assert (Hends : starts_at text w s = true ->
                  word_at text s = true /\ word_at text (s + length w - 1) = true).
  { intros Hstart. split.
    - pose proof (starts_at_nth text w s Hstart 0 c Hc) as H0.
      rewrite Nat.add_0_r in H0. rewrite (word_at_nth _ _ H0). exact Hcw.
    - pose proof (starts_at_nth text w s Hstart _ c' Hc') as H1.
      replace (s + (length w - 1)) with (s + length w - 1) in H1 by lia.
      rewrite (word_at_nth _ _ H1). exact Hcw'. }
  assert (Hleft : at_boundary text s = true /\ word_at text s = true
                  <-> (s = 0 \/ exists j, s = S j /\ word_at text j = false)
                      /\ word_at text s = true).
  { unfold at_boundary. destruct s as [|j].
    - split; intros [H1 H2]; rewrite H2 in *;
        (split; [|reflexivity]); [left; reflexivity | reflexivity].
    - split; intros [H1 H2]; rewrite H2 in *; (split; [|reflexivity]).
      + right. exists j. split; [reflexivity|].
        destruct (word_at text j); [discriminate H1 | reflexivity].
      + destruct H1 as [H1|(j' & Hj' & H1)]; [discriminate H1|].
        injection Hj' as <-. rewrite H1. reflexivity. }
  assert (Hright : word_at text (s + length w - 1) = true ->
                   at_boundary text (s + length w)
                   = negb (word_at text (s + length w))).
  { intros Hlast. unfold at_boundary.
    destruct (s + length w) as [|j] eqn:Hj; [lia|].
    replace (S j - 1) with j in Hlast by lia. rewrite Hlast.
    destruct (word_at text (S j)); reflexivity. }
  split.
  - intros He. destruct (keyword_end_parts w s e He) as (Hb & Hstart & Hbe & ->).
    destruct (Hends Hstart) as (Hfirst & Hlast).
    rewrite (Hright Hlast) in Hbe. apply negb_true_iff in Hbe.
    split; [reflexivity|]. split; [exact Hstart|].
    split; [apply Hleft; split; assumption | exact Hbe].
  - intros (-> & Hstart & Hbefore & Hafter).
    destruct (Hends Hstart) as (Hfirst & Hlast).
    unfold keyword_end.
    replace (at_boundary text s) with true
      by (symmetry; apply Hleft; split; assumption).
    rewrite Hstart, (Hright Hlast), Hafter. reflexivity.
Qed.

(** The scan of a keyword's pattern reports exactly the places where the
    keyword stands as a whole word. *)
Lemma finditer_keyword (word : string) (s e : nat) :
  plain_word (Str.chars word) = true ->
  (In (s, e) (finditer text (keyword_pattern word))
   <-> whole_word text (Str.chars word) s e).
Proof.
  intros Hw. rewrite <- (keyword_end_whole_word _ s e Hw).
  apply finditer_exact.
  - intros i k. apply keyword_pattern_match.
  - intros s' e'. apply keyword_end_bounds. exact Hw.
  - intros s0 e0 s'. apply keyword_end_inside. exact Hw.
Qed.

End Keywords.

(** Every keyword of every language starts and ends with a word
    character and cannot overlap itself. *)
Lemma keywords_are_plain :
  forallb (fun kv : string * list string =>
             forallb (fun word => plain_word (Str.chars word)) (snd kv))
          LANGUAGE_KEYWORDS = true.
Proof. vm_compute. reflexivity. Qed.

Lemma keyword_plain (language word : string) :
  In word (keywords_of language) -> plain_word (Str.chars word) = true.
Proof.
  intros H. destruct (dict_get_In_keywords language word H) as (ws & Hin & Hw).
  pose proof keywords_are_plain as Hall.
  rewrite forallb_forall in Hall. specialize (Hall _ Hin). cbn [snd] in Hall.
  rewrite forallb_forall in Hall. exact (Hall _ Hw).
Qed.

(** X18.  For every language, every keyword of it and every text, the
    keyword's rule marks exactly the places where the keyword stands as a
    whole word: a span of [len] characters from [s] is among the rule's
    spans if and only if the keyword's characters stand at [s], [len] is
    the keyword's length, and no word character stands directly before or
    directly after them.  So a keyword inside a longer identifier is never
    marked, and no whole-word occurrence is skipped. *)
Theorem keyword_rule_marks_whole_words
        (language word text : string) (s len : nat) :
  In word (keywords_of language) ->
  (In (s, len, keyword_format)
      (rule_spans text (keyword_pattern word, keyword_format))
   <-> whole_word (Str.chars text) (Str.chars word) s (s + len)).
Proof.
  intros Hword. pose proof (keyword_plain language word Hword) as Hw.
  rewrite <- (finditer_keyword (Str.chars text) word s (s + len) Hw).
  unfold rule_spans. cbn [fst snd].
  split.
  - intros Hin. apply in_map_iff in Hin.
    destruct Hin as ([s' e'] & Heq & Hin). cbn [fst snd] in Heq.
    injection Heq as Hs Hlen. subst s'.
    pose proof (finditer_bounds _ _ _ _ Hin) as (Hse & _).
    replace (s + len) with e' by lia. exact Hin.
  - intros Hin. apply in_map_iff. exists (s, s + len). split; [|exact Hin].
    cbn [fst snd]. replace (s + len - s) with len by lia. reflexivity.
Qed.

Lemma keyword_rule_marks_whole_words_witness :
  (In (2, 2, keyword_format)
      (rule_spans "x if iffy" (keyword_pattern "if", keyword_format))
   <-> whole_word (Str.chars "x if iffy") (Str.chars "if") 2 (2 + 2))
  /\ rule_spans "x if iffy" (keyword_pattern "if", keyword_format)
     = [(2, 2, keyword_format)].
Proof.
  split; [|vm_compute; reflexivity].
  apply (keyword_rule_marks_whole_words "Python" "if" "x if iffy" 2 2).
  vm_compute. tauto.
Defined.

(** ** The completion model *)

Section CompletionWords.

Variable text : list ascii.

Lemma at_boundary_S (j : nat) :
  at_boundary text (S j)
  = negb (Bool.eqb (word_at text (S j)) (word_at text j)).
Proof. reflexivity. Qed.

Lemma ident_char_word_at (j : nat) (c : ascii) :
  nth_error text j = Some c -> is_ident_char c = true -> word_at text j = true.
Proof.
  intros Hc Hfc. unfold word_at. rewrite Hc. apply ident_char_is_word, Hfc.
Qed.

(** The pattern matches at [i] exactly as [word_end] says. *)
Lemma completion_pattern_match (i : nat) (k : nat -> option nat) :
  match_from text completion_pattern i k
  = match word_end text i with
    | Some e => k e
    | None => None
    end.
Proof.
  unfold completion_pattern, word_end.
  change (match_from text (Cat Boundary ?r) i k)
    with (if at_boundary text i then match_from text r i k else None).
  destruct (at_boundary text i); [|reflexivity].
  change (match_from text (Cat (Set_ is_ident_start) ?r) i k)
    with (match nth_error text i with
          | Some c => if is_ident_start c then match_from text r (S i) k else None
          | None => None
          end).
  destruct (nth_error text i) as [c|]; [|reflexivity].
  destruct (is_ident_start c); [|reflexivity].
  cbv zeta. rewrite (skipn_step text (S i)).
  change (match_from text (Cat (Set_ is_ident_char) ?r) (S i) k)
    with (match nth_error text (S i) with
          | Some c => if is_ident_char c then match_from text r (S (S i)) k else None
          | None => None
          end).
  destruct (nth_error text (S i)) as [c1|] eqn:H1; [|reflexivity].
  cbn [run_length]. destruct (is_ident_char c1) eqn:Hc1; [|reflexivity].
  rewrite (skipn_step text (S (S i))).
  change (match_from text (Cat (Set_ is_ident_char) ?r) (S (S i)) k)
    with (match nth_error text (S (S i)) with
          | Some c => if is_ident_char c then match_from text r (S (S (S i))) k
                      else None
          | None => None
          end).
  destruct (nth_error text (S (S i))) as [c2|] eqn:H2; [|reflexivity].
  cbn [run_length]. destruct (is_ident_char c2) eqn:Hc2; [|reflexivity].
  change (match_from text (Cat (Star (Set_ is_ident_char)) Boundary) (S (S (S i))) k)
    with (greedy_loop (match_from text (Set_ is_ident_char))
                      (fun j => match_from text Boundary j k)
                      (length text) (S (S (S i)))).
  pose proof (run_chars text (S (S i))) as Hrun.
  set (m := run_length is_ident_char (skipn (S (S (S i))) text)) in *.
  assert (Hchars : forall j, S (S i) <= j < S (S (S i)) + m -> word_at text j = true).
  { intros j Hj. destruct (Nat.eq_dec j (S (S i))) as [->|Hne].
    - exact (ident_char_word_at _ _ H2 Hc2).
    - destruct (Hrun j ltac:(lia)) as (c' & Hc' & Hfc').
      exact (ident_char_word_at _ _ Hc' Hfc'). }
  rewrite greedy_class_run.
  - fold m. cbn [match_from].
    replace (2 <=? S (S m)) with true by reflexivity. cbn [andb].
    replace (S i + S (S m)) with (S (S (S i)) + m) by lia.
    change (S (S (S i)) + m) with (S (S (S i) + m)).
    rewrite at_boundary_S, (Hchars (S (S i) + m) ltac:(lia)).
    destruct (word_at text (S (S (S i) + m))); reflexivity.
  - apply run_in_text.
  - fold m. intros j Hj. cbn [match_from].
    destruct j as [|j]; [lia|].
    rewrite at_boundary_S, (Hchars (S j) ltac:(lia)), (Hchars j ltac:(lia)).
    reflexivity.
Qed.

Lemma word_end_spec (s e : nat) :
  word_end text s = Some e <-> document_word text s e.
Proof.
  unfold word_end, document_word, at_boundary. split.
  - intros H.
    destruct (negb (Bool.eqb (word_at text s)
                             match s with 0 => false | S j => word_at text j end))
             eqn:Hb; [|discriminate H].
    destruct (nth_error text s) as [c|] eqn:Hc; [|discriminate H].
    destruct (is_ident_start c) eqn:Hstart; [|discriminate H].
    cbv zeta in H. pose proof (run_chars text s) as Hrun.
    set (m := run_length is_ident_char (skipn (S s) text)) in *.
    destruct (Nat.leb_spec 2 m) as [Hm|Hm]; [|discriminate H].
    cbn [andb] in H.
    destruct (word_at text (S s + m)) eqn:Hafter; [discriminate H|].
    cbn [negb] in H. assert (He : e = S s + m) by congruence. subst e. clear H.
    assert (Hword : word_at text s = true).
    { apply (ident_char_word_at s c Hc), ident_start_is_ident_char, Hstart. }
    rewrite Hword in Hb.
    split; [lia|]. split; [|split; [|split]].
    + destruct s as [|j]; [left; reflexivity|].
      right. exists j. split; [reflexivity|].
      destruct (word_at text j); [discriminate Hb | reflexivity].
    + exists c. split; [reflexivity | exact Hstart].
    + intros i Hi. destruct (Nat.eq_dec i s) as [->|Hne].
      * exists c. split; [exact Hc | apply ident_start_is_ident_char, Hstart].
      * apply Hrun. lia.
    + exact Hafter.
  - intros (Hlt & Hleft & (c & Hc & Hstart) & Hchars & Hafter).
    assert (Hword : word_at text s = true).
    { apply (ident_char_word_at s c Hc), ident_start_is_ident_char, Hstart. }
    rewrite Hword.
    assert (Hprev : match s with 0 => false | S j => word_at text j end = false).
    { destruct Hleft as [->|(j & -> & Hj)]; [reflexivity | exact Hj]. }
    rewrite Hprev. cbn [Bool.eqb negb]. rewrite Hc, Hstart. cbv zeta.
    assert (Hrun : run_length is_ident_char (skipn (S s) text) = e - S s).
    { apply run_length_exact.
      - intros j Hj. rewrite nth_error_skipn. apply Hchars. lia.
      - intros c' Hc'. rewrite nth_error_skipn in Hc'.
        replace (S s + (e - S s)) with e in Hc' by lia.
        destruct (is_ident_char c') eqn:Hfc'; [|reflexivity].
        rewrite (ident_char_word_at e c' Hc' Hfc') in Hafter. discriminate Hafter. }
    rewrite Hrun. replace (S s + (e - S s)) with e by lia.
    replace (2 <=? e - S s) with true by (symmetry; apply Nat.leb_le; lia).
    rewrite Hafter. reflexivity.
Qed.

Lemma word_end_bounds (s e : nat) :
  word_end text s = Some e -> s < e <= length text.
Proof.
  intros H. apply word_end_spec in H.
  destruct H as (Hlt & _ & _ & Hchars & _).
  destruct (Hchars (e - 1) ltac:(lia)) as (c & Hc & _).
  assert (e - 1 < length text) by (apply nth_error_Some; congruence).
  lia.
Qed.

Lemma word_end_inside (s0 e0 s : nat) :
  word_end text s0 = Some e0 -> s0 < s < e0 -> word_end text s = None.
Proof.
  intros H Hs. apply word_end_spec in H.
  destruct H as (_ & _ & _ & Hchars & _).
  unfold word_end.
  destruct s as [|j]; [lia|].
  destruct (Hchars j ltac:(lia)) as (a & Ha & Hfa).
  destruct (Hchars (S j) ltac:(lia)) as (b & Hb & Hfb).
  rewrite at_boundary_S.
  rewrite (ident_char_word_at _ _ Ha Hfa), (ident_char_word_at _ _ Hb Hfb).
  reflexivity.
Qed.

Lemma finditer_document_words (s e : nat) :
  In (s, e) (finditer text completion_pattern) <-> document_word text s e.
Proof.
  rewrite <- word_end_spec.
  apply finditer_exact.
  - apply completion_pattern_match.
  - apply word_end_bounds.
  - apply word_end_inside.
Qed.

End CompletionWords.

Section StringOrder.

Lemma ascii_lt_trans (a b c : ascii) :
  Ascii.compare a b = Lt -> Ascii.compare b c = Lt -> Ascii.compare a c = Lt.
Proof.
  unfold Ascii.compare. rewrite !BinNat.N.compare_lt_iff.
  apply BinNat.N.lt_trans.
Qed.

Lemma string_lt_trans (a b c : string) :
  string_lt a b -> string_lt b c -> string_lt a c.
Proof.
  unfold string_lt. revert b c.
  induction a as [|x a IH]; intros [|y b] [|z c]; cbn [String.compare];
    try discriminate; try reflexivity.
  destruct (Ascii.compare x y) eqn:Hxy; try discriminate;
    destruct (Ascii.compare y z) eqn:Hyz; try discriminate; intros Hab Hbc.
  - apply Ascii.compare_eq_iff in Hxy, Hyz. subst y z.
    replace (Ascii.compare x x) with Eq
      by (symmetry; unfold Ascii.compare; apply BinNat.N.compare_refl).
    exact (IH _ _ Hab Hbc).
  - apply Ascii.compare_eq_iff in Hxy. subst y. rewrite Hyz. reflexivity.
  - apply Ascii.compare_eq_iff in Hyz. subst z. rewrite Hxy. reflexivity.
  - rewrite (ascii_lt_trans _ _ _ Hxy Hyz). reflexivity.
Qed.

Lemma insert_In (x y : string) (l : list string) :
  In y (insert x l) <-> y = x \/ In y l.
Proof.
  induction l as [|z l IH]; cbn [insert].
  - cbn [In]. split; intros [H|H]; auto.
  - destruct (String.leb x z); cbn [In].
    + split; intros [H|H]; auto.
    + rewrite IH. split; intros H; tauto.
Qed.

Lemma sorted_In (y : string) (l : list string) : In y (sorted l) <-> In y l.
Proof.
  induction l as [|x l IH]; [reflexivity|].
  unfold sorted in *. cbn [fold_right In]. rewrite insert_In, IH.
  split; intros [H|H]; auto.
Qed.

(** Inserting a new string into a strictly ascending list keeps it
    strictly ascending. *)
Lemma insert_ascending (x : string) (l : list string) :
  StronglySorted string_lt l -> ~ In x l -> StronglySorted string_lt (insert x l).
Proof.
  induction 1 as [|y l Hl IH Hy]; intros Hx; cbn [insert].
  - constructor; [constructor | constructor].
  - assert (Hne : x <> y) by (intros ->; apply Hx; left; reflexivity).
    assert (Hnot : ~ In x l) by (intros H; apply Hx; right; exact H).
    unfold String.leb.
    destruct (String.compare x y) eqn:Hxy.
    + apply String.compare_eq_iff in Hxy. contradiction.
    + constructor; [constructor; assumption|].
      constructor; [exact Hxy|].
      rewrite Forall_forall in Hy |- *. intros z Hz.
      exact (string_lt_trans _ _ _ Hxy (Hy z Hz)).
    + constructor; [exact (IH Hnot)|].
      rewrite Forall_forall in Hy |- *. intros z Hz.
      apply insert_In in Hz. destruct Hz as [->|Hz]; [|exact (Hy z Hz)].
      unfold string_lt. rewrite String.compare_antisym, Hxy. reflexivity.
Qed.

Lemma sorted_ascending (l : list string) :
  NoDup l -> StronglySorted string_lt (sorted l).
Proof.
  induction 1 as [|x l Hx Hl IH]; [constructor|].
  unfold sorted in *. cbn [fold_right].
  apply insert_ascending; [exact IH|].
  intros H. apply Hx. apply (sorted_In x l). exact H.
Qed.

End StringOrder.

Lemma length_slice (s e : nat) (text : string) :
  e <= String.length text -> String.length (slice s e text) = e - s.
Proof.
  intros He. unfold slice. apply length_take. rewrite length_drop. lia.
Qed.

Lemma findall_words (text x : string) :
  In x (findall completion_pattern text)
  <-> exists s e, document_word (Str.chars text) s e /\ x = slice s e text.
Proof.
  unfold findall. rewrite in_map_iff. split.
  - intros ([s e] & <- & Hin). exists s, e.
    split; [apply finditer_document_words; exact Hin | reflexivity].
  - intros (s & e & Hw & ->). exists (s, e).
    split; [reflexivity | apply finditer_document_words; exact Hw].
Qed.

(** X19.  For every language and document: a string is offered as a
    completion if and only if it is a keyword of the language or an
    identifier of at least three characters that stands in the document as
    a whole word (a letter or underscore first, then letters, digits and
    underscores, no word character directly before or after).  So every
    keyword is offered whatever the document holds, and every completion
    that is not a keyword has at least three characters; for a language
    without keywords and a document without such a word nothing is
    offered. *)
Theorem completions_are_keywords_and_document_words (language text : string) :
  (forall x : string,
      In x (update_completer_model language text)
      <-> In x (keywords_of language)
          \/ exists s e, document_word (Str.chars text) s e /\ x = slice s e text)
  /\ (forall x : string,
         In x (update_completer_model language text) ->
         In x (keywords_of language) \/ 3 <= String.length x)
  /\ (keywords_of language = [] ->
      (forall s e, ~ document_word (Str.chars text) s e) ->
      update_completer_model language text = []).
Proof.
  assert (Hiff : forall x : string,
             In x (update_completer_model language text)
             <-> In x (keywords_of language)
                 \/ exists s e, document_word (Str.chars text) s e
                                /\ x = slice s e text).
  { intros x. unfold update_completer_model. cbv zeta.
    rewrite sorted_In. unfold union, set_of.
    rewrite nodup_In, in_app_iff, !nodup_In, findall_words. reflexivity. }
  split; [exact Hiff|]. split.
  - intros x Hx. apply Hiff in Hx. destruct Hx as [Hk|(s & e & Hw & ->)].
    + left. exact Hk.
    + right. pose proof Hw as Hw'.
      apply word_end_spec, word_end_bounds in Hw'.
      rewrite length_chars in Hw'.
      rewrite length_slice by lia.
      destruct Hw as (Hlen & _). lia.
  - intros Hk Hnone.
    destruct (update_completer_model language text) as [|x l] eqn:Hm;
      [reflexivity|].
    exfalso. destruct (proj1 (Hiff x) (or_introl eq_refl)) as [Hin|(s & e & Hw & _)].
    + rewrite Hk in Hin. exact Hin.
    + exact (Hnone s e Hw).
Qed.

(** X20.  For every language and document the completion list is in
    strictly ascending order of code points: it is sorted and no string
    occurs twice, also when a word of the document is a keyword too or
    occurs in the document many times. *)
Theorem completions_are_strictly_ascending (language text : string) :
  StronglySorted string_lt (update_completer_model language text).
Proof.
  unfold update_completer_model. cbv zeta.
  apply sorted_ascending. unfold union. apply NoDup_nodup.
Qed.

(** ** The workspace tree *)

Section WorkspaceTree.

Variable fs : fs_env.


(** The answers that the sort collects: one per entry, each what
    [is_dir] says. *)
Lemma is_dir_all_In (entries : list Path) (answered : list (Path * bool))
      (e : Path) (d : bool) :
  is_dir_all fs entries = Some answered ->
  (In (e, d) answered <-> In e entries /\ fs_is_dir fs e = Some d).
Proof.
  revert answered. induction entries as [|p l IH]; intros answered H;
    cbn [is_dir_all] in H.
  - injection H as <-. split; [intros [] | intros [[] _]].
  - destruct (fs_is_dir fs p) as [dp|] eqn:Hp; [|discriminate H].
    destruct (is_dir_all fs l) as [a|]; [|discriminate H].
    injection H as <-. cbn [In]. rewrite (IH a eq_refl). split.
    + intros [Heq|[Hin Hd]].
      * injection Heq as <- <-. split; [left; reflexivity | exact Hp].
      * split; [right; exact Hin | exact Hd].
    + intros [[<-|Hin] Hd].
      * left. f_equal. congruence.
      * right. split; assumption.
Qed.



Lemma insert_by_In {A : Type} (lt : A -> A -> bool) (x y : A) (l : list A) :
  In y (insert_by lt x l) <-> y = x \/ In y l.
Proof.
  induction l as [|z l IH]; cbn [insert_by].
  - cbn [In]. split; intros [H|H]; auto.
  - destruct (lt z x); cbn [In].
    + rewrite IH. split; intros H; tauto.
    + split; intros [H|H]; auto.
Qed.

Lemma sorted_by_In {A K : Type} (key : A -> K) (lt : K -> K -> bool)
      (y : A) (l : list A) :
  In y (sorted_by key lt l) <-> In y l.
Proof.
  induction l as [|x l IH]; [reflexivity|].
  unfold sorted_by in *. cbn [fold_right In]. rewrite insert_by_In, IH.
  split; intros [H|H]; auto.
Qed.

Lemma name_child (p : Path) (nm : string) : name (make_child_relpath p nm) = nm.
Proof. unfold name, make_child_relpath. cbn [parts]. apply last_last. Qed.

(** Every item, at whatever depth, stands for a path below the starting
    directory whose components all pass the filter. *)
Lemma populate_from_items (gas : nat) (path : Path) (it : item) :
  In it (all_items (populate_from fs gas path)) ->
  exists (rest : list string) (d : bool),
    1 <= length rest <= gas
    /\ forallb shown rest = true
    /\ data it = to_string (descend path rest)
    /\ fs_is_dir fs (descend path rest) = Some d
    /\ display it = last rest "" ++ (if d then "/" else "").
Proof.
  revert path it. induction gas as [|gas IH]; intros path it Hin.
  - contradiction.
  - cbn [populate_from] in Hin.
    destruct (fs_listdir fs path) as [names|]; [|contradiction].
    destruct (is_dir_all fs (map (make_child_relpath path) names))
      as [answered|] eqn:Hanswered; [|contradiction].
    cbv zeta in Hin. unfold all_items in Hin.
    apply in_flat_map in Hin. destruct Hin as (top & Htop & Hit).
    apply in_flat_map in Htop. destruct Htop as ([entry d] & Hentry & Htop).
    apply sorted_by_In in Hentry.
    apply (is_dir_all_In _ _ _ _ Hanswered) in Hentry.
    destruct Hentry as (Hentry & Hd).
    apply in_map_iff in Hentry. destruct Hentry as (nm & <- & _).
    rewrite name_child in Htop.
    destruct (Str.startswith "."%char nm) eqn:Hdot; [contradiction|].
    destruct (mem nm ignored) eqn:Hign; [contradiction|].
    destruct Htop as [<-|[]].
    assert (Hshown : shown nm = true) by (unfold shown; rewrite Hdot, Hign; reflexivity).
    assert (Hone : descend path [nm] = make_child_relpath path nm) by reflexivity.
    cbn [items_of In] in Hit. destruct Hit as [<-|Hbelow].
    + exists [nm], d. cbn [length forallb last data display].
      rewrite Hshown, Hone.
      repeat split; try lia; try reflexivity. exact Hd.
    + destruct d; [|contradiction].
      destruct (IH _ _ Hbelow) as (rest & d' & Hlen & Hall & Hdata & Hd' & Hdisplay).
      assert (Hpath : descend (make_child_relpath path nm) rest
                      = descend path (nm :: rest)).
      { unfold descend, make_child_relpath. cbn [root parts].
        rewrite <- app_assoc. reflexivity. }
      rewrite Hpath in Hdata, Hd'.
      exists (nm :: rest), d'. cbn [length forallb]. rewrite Hshown, Hall.
      split; [lia|]. split; [reflexivity|]. split; [exact Hdata|].
      split; [exact Hd'|].
      rewrite Hdisplay. destruct rest as [|r rest']; [simpl in Hlen; lia|].
      reflexivity.
Qed.

End WorkspaceTree.

(** X21.  For every file system, directory and depth arguments, every item
    that [populate_tree] creates, at whatever depth of the tree, stands for
    a path below the starting directory: between one and
    [max_depth + 1 - current_depth] components further down, none of which
    starts with a dot or is one of the ignored names, so nothing inside a
    hidden or ignored directory is shown either.  The item's data is that
    path as a string and its text is the last component, with a slash
    after it when [is_dir] answers that the path is a directory (and it
    has answered).  As [open_workspace] calls it, the tree goes at most
    four levels below the workspace directory. *)
Theorem tree_shows_no_hidden_or_deep_entry
        (fs : fs_env) (path : Path) (max_depth current_depth : nat) (it : item) :
  In it (all_items (populate_tree fs path max_depth current_depth)) ->
  exists (rest : list string) (d : bool),
    1 <= length rest <= S max_depth - current_depth
    /\ forallb shown rest = true
    /\ data it = to_string (descend path rest)
    /\ fs_is_dir fs (descend path rest) = Some d
    /\ display it = last rest "" ++ (if d then "/" else "").
Proof. apply populate_from_items. Qed.

Lemma tree_shows_no_hidden_or_deep_entry_witness :
  workspace_tree example_fs (of_string "/w")
  = [Item "src/" "/w/src" [Item "main.py" "/w/src/main.py" []];
     Item "A.txt" "/w/A.txt" []; Item "b.txt" "/w/b.txt" []]
  /\ exists (rest : list string) (d : bool),
       1 <= length rest <= S 3 - 0
       /\ forallb shown rest = true
       /\ data (Item "main.py" "/w/src/main.py" [])
          = to_string (descend (of_string "/w") rest)
       /\ fs_is_dir example_fs (descend (of_string "/w") rest) = Some d
       /\ display (Item "main.py" "/w/src/main.py" [])
          = last rest "" ++ (if d then "/" else "").
Proof.
  split; [vm_compute; reflexivity|].
  apply (tree_shows_no_hidden_or_deep_entry
           example_fs (of_string "/w") 3 0 (Item "main.py" "/w/src/main.py" [])).
  vm_compute. tauto.
Defined.

Section SortKeys.





Variable A : Type.
Variable key : A -> bool * string.




End SortKeys.






(** ** Inserting a completion *)

Lemma slice_from_zero (s : string) : slice_from s BinNums.Z0 = s.
Proof.
  unfold slice_from. cbv zeta.
  replace (BinInt.Z.ltb BinNums.Z0 BinNums.Z0) with false by reflexivity.
  rewrite BinInt.Z.min_l by lia. reflexivity.
Qed.

Lemma slice_from_last (s : string) (k : nat) :
  0 < k <= String.length s ->
  slice_from s (BinInt.Z.opp (BinInt.Z.of_nat k)) = Str.drop (String.length s - k) s.
Proof.
  intros Hk. unfold slice_from. cbv zeta.
  replace (BinInt.Z.ltb (BinInt.Z.opp (BinInt.Z.of_nat k)) BinNums.Z0) with true
    by (symmetry; apply BinInt.Z.ltb_lt; lia).
  f_equal. lia.
Qed.

(** X23.  The text that [insert_completion] inserts.  When the completion
    is longer than the prefix under the cursor, it is the completion's
    last [extra] characters: for a completion that starts with the prefix
    this is exactly the missing rest, so prefix and inserted text together
    are the completion.  When the completion has the same length as the
    prefix (the word is already typed in full), [extra] is zero and the
    slice [completion[-0:]] is the whole completion: the whole word is
    inserted once more. *)
Theorem completion_inserts_the_missing_rest :
  (forall prefix rest : string,
      rest <> "" ->
      insert_completion (prefix ++ rest) prefix = rest)
  /\ (forall completion prefix : string,
         String.length prefix = String.length completion ->
         insert_completion completion prefix = completion)
  /\ (forall completion prefix : string,
         String.length prefix < String.length completion ->
         String.length (insert_completion completion prefix)
         = String.length completion - String.length prefix).
Proof.
  split; [|split].
  - intros prefix rest Hrest. unfold insert_completion. cbv zeta.
    pose proof (nonempty_length rest Hrest) as Hlen.
    rewrite string_length_app.
    replace (BinInt.Z.sub (BinInt.Z.of_nat (String.length prefix + String.length rest))
                          (BinInt.Z.of_nat (String.length prefix)))
      with (BinInt.Z.of_nat (String.length rest)) by lia.
    rewrite slice_from_last by (rewrite string_length_app; lia).
    rewrite string_length_app.
    replace (String.length prefix + String.length rest - String.length rest)
      with (String.length prefix) by lia.
    apply drop_app.
  - intros completion prefix Hlen. unfold insert_completion. cbv zeta.
    rewrite Hlen, BinInt.Z.sub_diag. apply slice_from_zero.
  - intros completion prefix Hlen. unfold insert_completion. cbv zeta.
    replace (BinInt.Z.sub (BinInt.Z.of_nat (String.length completion))
                          (BinInt.Z.of_nat (String.length prefix)))
      with (BinInt.Z.of_nat (String.length completion - String.length prefix))
      by lia.
    rewrite slice_from_last by lia.
    rewrite length_drop. lia.
Qed.

(** ** Delimited comments *)

Section Delimited.

Variable text : list ascii.

(** A lazy repeat of the dot stops at the first position from which the
    rest of the match succeeds. *)
Lemma lazy_dot_all_first (k : nat -> option nat) (n i e : nat) :
  lazy_loop (match_from text dot_all) k n i = Some e ->
  exists j, i <= j /\ k j = Some e /\ forall q, i <= q < j -> k q = None.
Proof.
  revert i. induction n as [|n IH]; intros i H; cbn [lazy_loop] in H.
  - exists i. split; [lia|]. split; [exact H | intros q Hq; lia].
  - destruct (k i) as [e'|] eqn:Hki.
    + exists i. split; [lia|]. split; [congruence | intros q Hq; lia].
    + unfold dot_all in H. cbn [match_from] in H.
      destruct (nth_error text i) as [c|]; [|discriminate H].
      replace (i <? S i) with true in H by (symmetry; apply Nat.ltb_lt; lia).
      destruct (IH (S i) H) as (j & Hj & Hkj & Hbefore).
      exists j. split; [lia|]. split; [exact Hkj|].
      intros q Hq. destruct (Nat.eq_dec q i) as [->|Hne]; [exact Hki|].
      apply Hbefore. lia.
Qed.

(** A match of an opener, a lazy run of any characters and a closer:
    the opener stands at its start, the closer at its end, and the
    closer stands nowhere between them. *)
Lemma delimited_match (opener closer : string) (s e : nat) (b : bool) :
  1 <= String.length closer ->
  match_from text (Cat (lit opener) (Cat (StarLazy dot_all) (lit closer)))
             s (accept s b) = Some e ->
  starts_at text (Str.chars opener) s = true
  /\ exists j,
       s + String.length opener <= j
       /\ e = j + String.length closer
       /\ starts_at text (Str.chars closer) j = true
       /\ forall q, s + String.length opener <= q < j ->
                    starts_at text (Str.chars closer) q = false.
Proof.
  intros Hcloser H.
  change (match_from text (Cat (lit opener) (Cat (StarLazy dot_all) (lit closer)))
                     s (accept s b))
    with (match_from text (lit opener) s
            (fun j => lazy_loop (match_from text dot_all)
                                (fun j' => match_from text (lit closer) j' (accept s b))
                                (length text) j)) in H.
  rewrite match_lit_chars in H.
  destruct (starts_at text (Str.chars opener) s); [|discriminate H].
  split; [reflexivity|].
  destruct (lazy_dot_all_first _ _ _ _ H) as (j & Hj & Hkj & Hbefore).
  rewrite length_chars in Hj.
  exists j. split; [exact Hj|].
  rewrite match_lit_chars, length_chars in Hkj.
  destruct (starts_at text (Str.chars closer) j); [|discriminate Hkj].
  unfold accept in Hkj.
  destruct (b && (j + String.length closer =? s)); [discriminate Hkj|].
  split; [congruence|]. split; [reflexivity|].
  intros q Hq. rewrite length_chars in Hbefore.
  specialize (Hbefore q Hq). rewrite match_lit_chars, length_chars in Hbefore.
  destruct (starts_at text (Str.chars closer) q); [|reflexivity].
  unfold accept in Hbefore.
  replace (q + String.length closer =? s) with false in Hbefore
    by (symmetry; apply Nat.eqb_neq; lia).
  rewrite andb_false_r in Hbefore. discriminate Hbefore.
Qed.

End Delimited.

(** X24.  The comment rules with an opener and a closer (the block
    comment of the C family and CSS, the HTML comment): every span of such
    a rule starts with the opener, ends with the closer, which does not
    overlap the opener, and has no closer anywhere between: the comment
    ends at the first closer after its opener.  So in a block without a
    closer, as the first line of a comment that goes over several lines,
    the rule marks nothing. *)
Theorem delimited_comment_ends_at_first_closer
        (r : regex) (opener closer text : string) (s len : nat) :
  In (r, opener, closer)
     [(block_comment, "/*", "*/"); (html_comment, "<!--", "-->")] ->
  In (s, len, comment_format) (rule_spans text (r, comment_format)) ->
  starts_at (Str.chars text) (Str.chars opener) s = true
  /\ String.length opener + String.length closer <= len
  /\ starts_at (Str.chars text) (Str.chars closer)
               (s + len - String.length closer) = true
  /\ forall q, s + String.length opener <= q < s + len - String.length closer ->
               starts_at (Str.chars text) (Str.chars closer) q = false.
Proof.
  intros Hrule Hin.
  assert (Hshape : r = Cat (lit opener) (Cat (StarLazy dot_all) (lit closer))
                   /\ 1 <= String.length closer).
  { destruct Hrule as [H|[H|[]]]; injection H as <- <- <-;
      (split; [reflexivity | simpl; lia]). }
  destruct Hshape as (-> & Hcloser).
  unfold rule_spans in Hin. cbn [fst snd] in Hin.
  apply in_map_iff in Hin. destruct Hin as ([s' e] & Heq & Hin).
  cbn [fst snd] in Heq. injection Heq as -> <-.
  destruct (finditer_from_sound _ _ _ _ _ _ _ Hin) as (b & Hmatch).
  destruct (delimited_match _ opener closer s e b Hcloser Hmatch)
    as (Hopen & j & Hj & -> & Hclose & Hnone).
  replace (s + (j + String.length closer - s) - String.length closer) with j by lia.
  split; [exact Hopen|]. split; [lia|]. split; [exact Hclose | exact Hnone].
Qed.

Lemma delimited_comment_ends_at_first_closer_witness :
  rule_spans "a /* b */ c */" (block_comment, comment_format)
  = [(2, 7, comment_format)]
  /\ rule_spans "a /* b" (block_comment, comment_format) = []
  /\ starts_at (Str.chars "a /* b */ c */") (Str.chars "/*") 2 = true
  /\ String.length "/*" + String.length "*/" <= 7
  /\ starts_at (Str.chars "a /* b */ c */") (Str.chars "*/")
               (2 + 7 - String.length "*/") = true
  /\ forall q, 2 + String.length "/*" <= q < 2 + 7 - String.length "*/" ->
               starts_at (Str.chars "a /* b */ c */") (Str.chars "*/") q = false.
Proof.
  split; [vm_compute; reflexivity|]. split; [vm_compute; reflexivity|].
  apply (delimited_comment_ends_at_first_closer
           block_comment "/*" "*/" "a /* b */ c */" 2 7).
  - left. reflexivity.
  - vm_compute. left. reflexivity.
Defined.
